(** * Repository Intelligence Engine ([.repometa/analyzer.py])

    A shallow embedding of the analysis engine: the dependency graph
    builder, the impact analyzer (blast radius, breadth-first failure
    impact, severity), the critical-path tracer, the fragment extractor,
    the similarity clusterer with its redundancy report, and the
    complexity scorer.

    Conventions.
    - A Python [str] is a [string]; documents are taken to be ASCII text.
    - A Python [int] is a [Z]; [len] of a list is [Z.of_nat (length _)].
    - A Python [float] is an exact rational [Q]: rounding is not modelled.
    - A Python [dict] keeps insertion order, so it is an association list
      with distinct keys ([PyDict]); a Python [set] is a [gset].
    - [print] appends to a list of output lines; exceptions are values. *)

From Stdlib Require Import ZArith QArith Qminmax Lqa Ascii.
From stdpp Require Import gmap strings list pretty sorting.

Local Open Scope Z_scope.

(** ** Insertion-ordered dictionaries *)

Module PyDict.
Section Dict.
Context {V : Type}.

Definition t := list (string * V).

Definition empty : t := [].

(** [d.get(k)] / [d[k]] *)
Fixpoint get (d : t) (k : string) : option V :=
  match d with
  | [] => None
  | (k', v) :: d' => if decide (k' = k) then Some v else get d' k
  end.

(** [k in d] *)
Definition mem (d : t) (k : string) : bool :=
  match get d k with Some _ => true | None => false end.

(** [d[k] = v]: an existing key keeps its position, a new key goes last. *)
Fixpoint set (d : t) (k : string) (v : V) : t :=
  match d with
  | [] => [(k, v)]
  | (k', v') :: d' =>
      if decide (k' = k) then (k, v) :: d' else (k', v') :: set d' k v
  end.

(** In-place mutation of the object stored under [k] (no effect when
    [k] is absent; callers test [k in d] first). *)
Fixpoint update (d : t) (k : string) (f : V → V) : t :=
  match d with
  | [] => []
  | (k', v') :: d' =>
      if decide (k' = k) then (k', f v') :: d' else (k', v') :: update d' k f
  end.

Definition keys (d : t) : list string := d.*1.
Definition items (d : t) : list (string * V) := d.

(** The invariant of a Python dict: keys are distinct. *)
Definition wf (d : t) : Prop := NoDup (keys d).
End Dict.
Arguments t : clear implicits.
End PyDict.

(** ** Data model *)

(** [DependencyNode] *)
Record DependencyNode := mkNode {
  path : string;
  importance : string;
  dependencies : list string;
  dependents : list string;
  external_deps : list string
}.

(** One entry of the manifest's [structure] list.  Only [path] is read
    with [item['path']]; the others are read with [item.get(key, default)]. *)
Record Item := mkItem {
  item_path : string;
  item_importance : option string;
  item_connects_to : option (list string);
  item_dependencies : option (list string)
}.

(** The manifest, read with [manifest.get('structure', [])]. *)
Record Manifest := mkManifest {
  structure : option (list Item)
}.

Definition manifest_structure (m : Manifest) : list Item :=
  default [] (structure m).

Abbreviation Graph := (PyDict.t DependencyNode).

(** [DependencyNode.blast_radius] *)
Definition blast_radius (n : DependencyNode) : Z :=
  Z.of_nat (length (dependents n)).

(** [importance_scores.get(self.importance, 50)] *)
Definition importance_scores (imp : string) : Z :=
  if decide (imp = "critical") then 100
  else if decide (imp = "high") then 75
  else if decide (imp = "medium") then 50
  else if decide (imp = "low") then 25
  else 50.

(** [DependencyNode.criticality_score] *)
Definition criticality_score (n : DependencyNode) : Z :=
  let base_score := importance_scores (importance n) in
  let dependency_factor := Z.min (blast_radius n * 5) 50 in
  Z.min (base_score + dependency_factor) 100.

(** ** Dependency graph builder *)

(** [DependencyNode(path=..., importance=..., dependencies=..., external_deps=...)];
    [dependents] starts as a fresh empty list. *)
Definition node_of_item (item : Item) : DependencyNode :=
  {| path := item_path item;
     importance := default "medium" (item_importance item);
     dependencies := default [] (item_connects_to item);
     dependents := [];
     external_deps := default [] (item_dependencies item) |}.

(** First loop of [_build_dependency_graph]: [graph[path] = node]. *)
Definition declare_nodes (items : list Item) : Graph :=
  fold_left (λ graph item, PyDict.set graph (item_path item) (node_of_item item))
            items PyDict.empty.

(** [graph[dep].dependents.append(path)] *)
Definition append_dependent (p : string) (n : DependencyNode) : DependencyNode :=
  {| path := path n;
     importance := importance n;
     dependencies := dependencies n;
     dependents := dependents n ++ [p];
     external_deps := external_deps n |}.

(** Inner loop: [for dep in node.dependencies: if dep in graph: ...]. *)
Definition link_node (p : string) (deps : list string) (graph : Graph) : Graph :=
  fold_left (λ g dep,
               if PyDict.mem g dep then PyDict.update g dep (append_dependent p)
               else g)
            deps graph.

(** Second loop: [for path, node in graph.items()].  The loop mutates only
    the [dependents] lists of the stored nodes, never the key set nor any
    [dependencies] list, so the items iterated are those of the graph as
    it stood after the first loop. *)
Definition link_dependents (graph : Graph) : Graph :=
  fold_left (λ g '(p, node), link_node p (dependencies node) g)
            (PyDict.items graph) graph.

(** [_build_dependency_graph] *)
Definition _build_dependency_graph (manifest : Manifest) : Graph :=
  link_dependents (declare_nodes (manifest_structure manifest)).

(** ** Impact analyzer *)

Inductive Severity := LOW | MODERATE | SEVERE | CATASTROPHIC.

(** The order LOW < MODERATE < SEVERE < CATASTROPHIC. *)
Definition severity_rank (s : Severity) : Z :=
  match s with
  | LOW => 0
  | MODERATE => 1
  | SEVERE => 2
  | CATASTROPHIC => 3
  end.

(** [_impact_severity] *)
Definition _impact_severity (impact_count : Z) (importance : string) : Severity :=
  if bool_decide (importance = "critical") && (5 <=? impact_count) then CATASTROPHIC
  else if bool_decide (importance = "critical") || (10 <=? impact_count) then SEVERE
  else if 5 <=? impact_count then MODERATE
  else LOW.

(** The [while queue:] loop of [_calculate_failure_impact], one iteration
    per unit of fuel; [None] only when the fuel runs out. *)
Fixpoint bfs_loop (fuel : nat) (graph : Graph)
    (visited : gset string) (queue : list string) : option (gset string) :=
  match fuel with
  | O => None
  | S fuel' =>
      match queue with
      | [] => Some visited
      | current :: queue' =>
          if decide (current ∈ visited) then bfs_loop fuel' graph visited queue'
          else
            let visited' := visited ∪ {[current]} in
            match PyDict.get graph current with
            | Some node =>
                bfs_loop fuel' graph visited'
                  (queue' ++ filter (λ dependent, dependent ∉ visited') (dependents node))
            | None => bfs_loop fuel' graph visited' queue'
            end
      end
  end.

(** Every iteration either drops a queue entry or visits a new node, and a
    visited node enqueues at most its dependents: this bounds the number
    of iterations. *)
Definition graph_weight (graph : Graph) : nat :=
  sum_list (map (λ kv : string * DependencyNode, S (length (dependents kv.2))) graph).

Definition bfs_fuel (graph : Graph) : nat := S (S (graph_weight graph)).

Record FailureImpact := mkFailureImpact {
  direct_impact : Z;
  total_impact : Z;
  severity : Severity
}.

(** [_calculate_failure_impact] *)
Definition _calculate_failure_impact (node : DependencyNode) (graph : Graph)
    : option FailureImpact :=
  visited ← bfs_loop (bfs_fuel graph) graph ∅ [path node];
  let total_impacted := Z.of_nat (size visited) - 1 in
  Some {| direct_impact := Z.of_nat (length (dependents node));
          total_impact := total_impacted;
          severity := _impact_severity total_impacted (importance node) |}.

(** [" | ".join(strategies)] *)
Fixpoint join (sep : string) (l : list string) : string :=
  match l with
  | [] => ""
  | [x] => x
  | x :: l' => x +:+ sep +:+ join sep l'
  end.

(** [_suggest_mitigation] *)
Definition _suggest_mitigation (node : DependencyNode) : string :=
  let strategies :=
    (if 5 <=? blast_radius node then ["Implement circuit breaker pattern"] else [])
    ++ (if bool_decide ("BigQuery" ∈ external_deps node) then ["Add caching layer"] else [])
    ++ (if bool_decide (importance node = "critical") then ["Set up redundancy/failover"] else [])
  in
  match strategies with
  | [] => "Monitor closely"
  | _ => join " | " strategies
  end.

(** [sorted(l, key=..., reverse=True)]: stable, largest key first. *)
Fixpoint insert_desc {A} (key : A → Z) (x : A) (l : list A) : list A :=
  match l with
  | [] => [x]
  | y :: l' => if key x <? key y then y :: insert_desc key x l' else x :: l
  end.

Definition sorted_desc {A} (key : A → Z) (l : list A) : list A :=
  foldr (insert_desc key) [] l.

(** ** Critical-path tracer *)

(** [_trace_dependency_chain], one level of recursion per unit of fuel;
    [visited.copy()] is the value [visited'] handed to every sub-call. *)
Fixpoint trace_chain (fuel : nat) (start : string) (graph : Graph)
    (visited : gset string) : option (list string) :=
  match fuel with
  | O => None
  | S fuel' =>
      if decide (start ∈ visited) then Some []
      else
        match PyDict.get graph start with
        | None => Some []
        | Some node =>
            let visited' := visited ∪ {[start]} in
            longest_subchain ←
              fold_left
                (λ acc dep,
                   longest ← acc;
                   subchain ← trace_chain fuel' dep graph visited';
                   Some (if (length longest <? length subchain)%nat
                         then subchain else longest))
                (dependencies node) (Some []);
            Some (start :: longest_subchain)
        end
  end.

(** A path never revisits a node, so its depth is at most the number of
    graph keys. *)
Definition _trace_dependency_chain (start : string) (graph : Graph)
    : option (list string) :=
  trace_chain (S (length graph)) start graph ∅.

Record CriticalPath := mkCriticalPath {
  chain : list string;
  chain_length : Z;
  risk : string
}.

(** ['High' if any(graph[p].importance == 'critical' for p in chain if p in graph) else 'Medium'] *)
Definition chain_risk (graph : Graph) (chain : list string) : string :=
  if existsb (λ p, match PyDict.get graph p with
                   | Some node => bool_decide (importance node = "critical")
                   | None => false
                   end) chain
  then "High" else "Medium".

(** The loop of [_find_critical_paths] over [graph.items()]. *)
Fixpoint collect_paths (graph : Graph) (items : list (string * DependencyNode))
    (paths : list CriticalPath) : option (list CriticalPath) :=
  match items with
  | [] => Some paths
  | (p, node) :: items' =>
      match dependencies node with
      | [] =>
          chain ← _trace_dependency_chain p graph;
          collect_paths graph items'
            (if (3 <=? length chain)%nat
             then paths ++ [ {| chain := chain;
                                chain_length := Z.of_nat (length chain);
                                risk := chain_risk graph chain |} ]
             else paths)
      | _ :: _ => collect_paths graph items' paths
      end
  end.

(** [_find_critical_paths] *)
Definition _find_critical_paths (graph : Graph) : option (list CriticalPath) :=
  paths ← collect_paths graph (PyDict.items graph) [];
  Some (take 5 (sorted_desc chain_length paths)).

(** ** Impact report *)

Record ComponentImpact := mkComponentImpact {
  ci_path : string;
  ci_importance : string;
  ci_criticality_score : Z;
  ci_blast_radius : Z;
  ci_direct_dependents : list string;
  ci_external_dependencies : list string;
  ci_failure_impact : FailureImpact
}.

Record SinglePointOfFailure := mkSinglePointOfFailure {
  spof_component : string;
  spof_reason : string;
  spof_mitigation : string
}.

Record ImpactAnalysis := mkImpactAnalysis {
  critical_paths : list CriticalPath;
  single_points_of_failure : list SinglePointOfFailure;
  components : list ComponentImpact
}.

(** The loop of [analyze_impact] over the graph items sorted by
    criticality; [round(score, 1)] of an [int] is that [int]. *)
Fixpoint analyze_components (graph : Graph) (items : list (string * DependencyNode))
    (spofs : list SinglePointOfFailure) (comps : list ComponentImpact)
    : option (list SinglePointOfFailure * list ComponentImpact) :=
  match items with
  | [] => Some (spofs, comps)
  | (p, node) :: items' =>
      failure_impact ← _calculate_failure_impact node graph;
      let component_impact :=
        {| ci_path := p;
           ci_importance := importance node;
           ci_criticality_score := criticality_score node;
           ci_blast_radius := blast_radius node;
           ci_direct_dependents := dependents node;
           ci_external_dependencies := external_deps node;
           ci_failure_impact := failure_impact |} in
      analyze_components graph items'
        (if (5 <=? blast_radius node) && bool_decide (importance node = "critical")
         then spofs ++ [ {| spof_component := p;
                            spof_reason := "Critical component with "
                                           +:+ pretty (blast_radius node)
                                           +:+ " dependents";
                            spof_mitigation := _suggest_mitigation node |} ]
         else spofs)
        (comps ++ [component_impact])
  end.

(** [analyze_impact] (its progress lines are not modelled) *)
Definition analyze_impact (manifest : Manifest) : option ImpactAnalysis :=
  let graph := _build_dependency_graph manifest in
  '(spofs, comps) ←
     analyze_components graph
       (sorted_desc (λ kv : string * DependencyNode, criticality_score kv.2)
                    (PyDict.items graph)) [] [];
  critical_paths ← _find_critical_paths graph;
  Some {| critical_paths := critical_paths;
          single_points_of_failure := spofs;
          components := comps |}.

(** ** Engine initialisation *)

(** What [open(manifest_path)] followed by [yaml.safe_load] finds. *)
Inductive ManifestFile :=
  | Missing
  | Unparseable (problem : string)
  | Parses (m : Manifest).

Inductive Exception :=
  | FileNotFoundError
  | YAMLError (problem : string).

Inductive Outcome (A : Type) :=
  | Returns (a : A)
  | Raises (e : Exception).
Arguments Returns {A} a.
Arguments Raises {A} e.

(** A computation that prints lines and then returns or raises. *)
Definition IO (A : Type) : Type := list string * Outcome A.

Definition io_bind {A B} (m : IO A) (k : A → IO B) : IO B :=
  match m with
  | (out, Returns a) => let '(out', r) := k a in (out ++ out', r)
  | (out, Raises e) => (out, Raises e)
  end.

Definition io_ret {A} (a : A) : IO A := ([], Returns a).

(** [with open(...) as f: return yaml.safe_load(f)] *)
Definition read_manifest (file : ManifestFile) : Outcome Manifest :=
  match file with
  | Missing => Raises FileNotFoundError
  | Unparseable problem => Raises (YAMLError problem)
  | Parses m => Returns m
  end.

(** [_load_manifest]: only [FileNotFoundError] is caught.  The fallback
    dict is [{'structure': [], 'categories': []}]; [categories] is never
    read by the engine and is not part of [Manifest]. *)
Definition _load_manifest (manifest_path : string) (file : ManifestFile) : IO Manifest :=
  match read_manifest file with
  | Returns m => io_ret m
  | Raises FileNotFoundError =>
      ([ "Warning: Manifest not found at " +:+ manifest_path;
         "   Some features will be limited." ],
       Returns {| structure := Some [] |})
  | Raises e => ([], Raises e)
  end.

(** [_build_file_index] *)
Definition _build_file_index (manifest : Manifest) : PyDict.t Item :=
  fold_left (λ index item, PyDict.set index (item_path item) item)
            (manifest_structure manifest) PyDict.empty.

Record IntelligenceEngine := mkEngine {
  repo_root : string;
  manifest_path : string;
  manifest : Manifest;
  files : PyDict.t Item
}.

(** [IntelligenceEngine.__init__] *)
Definition engine_init (repo_root manifest_path : string) (file : ManifestFile)
    : IO IntelligenceEngine :=
  io_bind (_load_manifest manifest_path file) (λ manifest,
  io_ret {| repo_root := repo_root;
            manifest_path := manifest_path;
            manifest := manifest;
            files := _build_file_index manifest |}).

Definition exception_str (e : Exception) : string :=
  match e with
  | FileNotFoundError => "No such file or directory"
  | YAMLError problem => problem
  end.

Inductive Process :=
  | Running (engine : IntelligenceEngine)
  | Exited (status : Z).

(** The start of [main]:
    [try: engine = IntelligenceEngine() except Exception as e: print(...); sys.exit(1)]. *)
Definition main_initialize (file : ManifestFile) : list string * Process :=
  match engine_init "." ".repometa/manifest.yaml" file with
  | (out, Returns engine) => (out, Running engine)
  | (out, Raises e) =>
      (out ++ ["Failed to initialize intelligence engine: " +:+ exception_str e],
       Exited 1)
  end.

(** ** Text helpers *)

(** Text is modelled within the ASCII range: the character classes and
    [lower] below are those of Python on characters below 128 (see
    [is_ascii_text]).  A character beyond that range has no counterpart
    here; properties that depend on the classes are stated for ASCII
    text. *)

Definition LF : ascii := "010"%char.

Definition is_LF (c : ascii) : bool := bool_decide (c = LF).

Definition char_code (c : ascii) : N := N_of_ascii c.

(** [\w] on ASCII text: letters, digits and the underscore. *)
Definition is_word (c : ascii) : bool :=
  let n := char_code c in
  ((48 <=? n) && (n <=? 57) || (65 <=? n) && (n <=? 90)
   || (97 <=? n) && (n <=? 122) || (n =? 95))%N.

(** [\s] on ASCII text. *)
Definition is_space (c : ascii) : bool :=
  let n := char_code c in
  ((9 <=? n) && (n <=? 13) || (28 <=? n) && (n <=? 32))%N.

(** One character of [str.lower] on ASCII text, where lowering is done
    character by character and changes the letters A-Z only. *)
Definition lower_char (c : ascii) : ascii :=
  let n := char_code c in
  if ((65 <=? n) && (n <=? 90))%N then ascii_of_N (n + 32) else c.

Fixpoint lower (s : string) : string :=
  match s with
  | EmptyString => EmptyString
  | String c s' => String (lower_char c) (lower s')
  end.

Fixpoint str_take (n : nat) (s : string) : string :=
  match n, s with
  | S n', String c s' => String c (str_take n' s')
  | _, _ => EmptyString
  end.

Fixpoint str_drop (n : nat) (s : string) : string :=
  match n, s with
  | S n', String _ s' => str_drop n' s'
  | _, _ => s
  end.

(** Offset of the first occurrence of [pat] in [s]. *)
Fixpoint find_sub (pat s : string) : option nat :=
  if String.prefix pat s then Some O
  else match s with
       | EmptyString => None
       | String _ s' => S <$> find_sub pat s'
       end.

(** [s.count('\n')] *)
Fixpoint count_newlines (s : string) : nat :=
  match s with
  | EmptyString => O
  | String c s' => if is_LF c then S (count_newlines s') else count_newlines s'
  end.

(** [s.split('\n')] *)
Fixpoint split_lines (s : string) : list string :=
  match s with
  | EmptyString => [EmptyString]
  | String c s' =>
      if is_LF c then EmptyString :: split_lines s'
      else match split_lines s' with
           | [] => [String c EmptyString]
           | l :: ls => String c l :: ls
           end
  end.

(** [len(s.split('\n'))] *)
Definition count_lines (s : string) : Z := Z.of_nat (length (split_lines s)).

(** ** Content tokenizer *)

(** [re.sub(r'#.*$', '', text, flags=re.MULTILINE)]: drop from each [#]
    to the end of its line. *)
Fixpoint strip_hash_comments (in_comment : bool) (s : string) : string :=
  match s with
  | EmptyString => EmptyString
  | String c s' =>
      if is_LF c then String c (strip_hash_comments false s')
      else if in_comment then strip_hash_comments true s'
      else if bool_decide (c = "#"%char) then strip_hash_comments true s'
      else String c (strip_hash_comments false s')
  end.

(** [re.sub(r'<!--.*?-->', '', text, flags=re.DOTALL)]: [skip] counts the
    characters of the current match still to drop. *)
Fixpoint strip_html_comments (skip : nat) (s : string) : string :=
  match s with
  | EmptyString => EmptyString
  | String c s' =>
      match skip with
      | S k => strip_html_comments k s'
      | O =>
          if String.prefix "<!--" s then
            match find_sub "-->" (str_drop 4 s) with
            | Some k => strip_html_comments (4 + k + 3 - 1) s'
            | None => String c (strip_html_comments O s')
            end
          else String c (strip_html_comments O s')
      end
  end.

(** [re.sub(r'\s+', ' ', text)] *)
Fixpoint collapse_spaces (in_space : bool) (s : string) : string :=
  match s with
  | EmptyString => EmptyString
  | String c s' =>
      if is_space c
      then if in_space then collapse_spaces true s'
           else String " "%char (collapse_spaces true s')
      else String c (collapse_spaces false s')
  end.

(** [re.findall(r'\b\w+\b', text)]: the maximal runs of word characters;
    [cur] is the run being read, reversed. *)
Fixpoint word_runs (cur : list ascii) (s : string) : list string :=
  match s with
  | EmptyString =>
      match cur with [] => [] | _ => [String.string_of_list_ascii (rev cur)] end
  | String c s' =>
      if is_word c then word_runs (c :: cur) s'
      else match cur with
           | [] => word_runs [] s'
           | _ => String.string_of_list_ascii (rev cur) :: word_runs [] s'
           end
  end.

(** [CodeBlock._tokenize], for ASCII text *)
Definition _tokenize (text : string) : list string :=
  let text := strip_hash_comments false text in
  let text := strip_html_comments O text in
  let text := collapse_spaces false text in
  word_runs [] (lower text).

(** ** Fragments *)

(** [CodeBlock] *)
Record CodeBlock := mkCodeBlock {
  file_path : string;
  content : string;
  start_line : Z;
  end_line : Z;
  hash_value : string
}.

(** [CodeBlock.similarity_to] *)
Definition similarity_to (self other : CodeBlock) : Q :=
  if decide (hash_value self = hash_value other) then 100%Q
  else
    let self_tokens : gset string := list_to_set (_tokenize (content self)) in
    let other_tokens : gset string := list_to_set (_tokenize (content other)) in
    if bool_decide (self_tokens = ∅) && bool_decide (other_tokens = ∅) then 100%Q
    else if bool_decide (self_tokens = ∅) || bool_decide (other_tokens = ∅) then 0%Q
    else
      let intersection := Z.of_nat (size (self_tokens ∩ other_tokens)) in
      let union := Z.of_nat (size (self_tokens ∪ other_tokens)) in
      ((inject_Z intersection / inject_Z union) * 100)%Q.

(** One attempt of the fence pattern at the start of [s]: three backticks,
    a greedy run of word characters (group 1), a newline, the shortest
    text up to the next three backticks (group 2), and those backticks.
    Returns group 2 and the length of the whole match. *)
Fixpoint word_run_length (s : string) : nat :=
  match s with
  | String c s' => if is_word c then S (word_run_length s') else O
  | EmptyString => O
  end.

Definition match_fence (s : string) : option (string * nat) :=
  if String.prefix "```" s then
    let after_ticks := str_drop 3 s in
    let w := word_run_length after_ticks in
    match str_drop w after_ticks with
    | String c rest =>
        if is_LF c then
          k ← find_sub "```" rest;
          Some (str_take k rest, (3 + w + 1 + k + 3)%nat)
        else None
    | EmptyString => None
    end
  else None.

(** The [re.finditer] loop of [_extract_code_blocks]: [line] is
    [content[:pos].count('\n') + 1] at the current position and [skip]
    counts the characters of the last match still to pass over. *)
Fixpoint scan_blocks (md5 : string → string) (file_path : string)
    (s : string) (line : Z) (skip : nat) : list CodeBlock :=
  match s with
  | EmptyString => []
  | String c s' =>
      let line' := if is_LF c then line + 1 else line in
      match skip with
      | S k => scan_blocks md5 file_path s' line' k
      | O =>
          match match_fence s with
          | Some (code_content, len) =>
              (if count_lines code_content <? 3 then []
               else [ {| file_path := file_path;
                         content := code_content;
                         start_line := line;
                         end_line := line + Z.of_nat (count_newlines code_content);
                         hash_value := md5 code_content |} ])
              ++ scan_blocks md5 file_path s' line' (len - 1)
          | None => scan_blocks md5 file_path s' line' O
          end
      end
  end.

(** [_extract_code_blocks]: [file] is the decoded text of the document,
    [None] when reading it raises [UnicodeDecodeError] or
    [FileNotFoundError]; [md5] is [hashlib.md5(...).hexdigest()]. *)
Definition _extract_code_blocks (md5 : string → string) (file_path : string)
    (file : option string) : list CodeBlock :=
  match file with
  | None => []
  | Some content => scan_blocks md5 file_path content 1 O
  end.

(** ** Similarity clusterer *)

(** [enumerate(blocks)] *)
Definition enumerate {A} (start : nat) (l : list A) : list (nat * A) :=
  zip (seq start (length l)) l.

(** Inner loop of [_cluster_similar_blocks] over
    [enumerate(blocks[i+1:], start=i+1)]. *)
Definition gather_similar (threshold : Q) (block1 : CodeBlock)
    (later : list (nat * CodeBlock)) (cluster : list CodeBlock)
    (used_indices : gset nat) : list CodeBlock * gset nat :=
  fold_left
    (λ '(cluster, used_indices) '(j, block2),
       if decide (j ∈ used_indices) then (cluster, used_indices)
       else
         let similarity := similarity_to block1 block2 in
         if Qle_bool threshold similarity
         then (cluster ++ [block2], used_indices ∪ {[j]})
         else (cluster, used_indices))
    later (cluster, used_indices).

(** Outer loop of [_cluster_similar_blocks] over [enumerate(blocks)]. *)
Fixpoint cluster_loop (threshold : Q) (blocks : list (nat * CodeBlock))
    (used_indices : gset nat) (clusters : list (list CodeBlock))
    : list (list CodeBlock) :=
  match blocks with
  | [] => clusters
  | (i, block1) :: later =>
      if decide (i ∈ used_indices) then cluster_loop threshold later used_indices clusters
      else
        let '(cluster, used_indices') :=
          gather_similar threshold block1 later [block1] (used_indices ∪ {[i]}) in
        cluster_loop threshold later used_indices'
          (if (2 <=? length cluster)%nat then clusters ++ [cluster] else clusters)
  end.

(** [_cluster_similar_blocks] *)
Definition _cluster_similar_blocks (blocks : list CodeBlock) (threshold : Q)
    : list (list CodeBlock) :=
  cluster_loop threshold (enumerate 0 blocks) ∅ [].

(** ** Redundancy report *)

Record Location := mkLocation {
  loc_file : string;
  loc_lines : string;
  loc_size : Z
}.

Record ClusterInfo := mkClusterInfo {
  cluster_id : Z;
  block_count : Z;
  locations : list Location;
  potential_savings_lines : Z;
  recommendation : string
}.

Record RedundancyReport := mkRedundancyReport {
  total_clusters : Z;
  total_duplicate_blocks : Z;
  clusters : list ClusterInfo
}.

(** [sum] of a list of [int] *)
Definition sum_Z (l : list Z) : Z := foldr Z.add 0 l.

(** [_generate_consolidation_recommendation]; with one file in the set,
    [list(files)[0]] is that file. *)
Definition _generate_consolidation_recommendation (cluster : list CodeBlock) : string :=
  let files : gset string := list_to_set (map file_path cluster) in
  match elements files with
  | [f] => "Multiple code blocks in " +:+ f
           +:+ " - consider extracting to reusable function"
  | fs => "Code appears in " +:+ pretty (length fs)
          +:+ " files - consider creating shared module"
  end.

(** [[len(cluster[0].content.split('\n')) for _ in cluster]]: the
    comprehension reads [cluster[0]] once per member. *)
Definition block_sizes (cluster : list CodeBlock) : list Z :=
  match cluster with
  | [] => []
  | first :: _ => map (λ _, count_lines (content first)) cluster
  end.

(** [sum(block_sizes) - block_sizes[0] if block_sizes else 0] *)
Definition potential_savings (cluster : list CodeBlock) : Z :=
  match block_sizes cluster with
  | [] => 0
  | size0 :: _ => sum_Z (block_sizes cluster) - size0
  end.

Definition location_of (block : CodeBlock) : Location :=
  {| loc_file := file_path block;
     loc_lines := pretty (start_line block) +:+ "-" +:+ pretty (end_line block);
     loc_size := count_lines (content block) |}.

(** The body of the loop of [_generate_redundancy_report]. *)
Definition cluster_info (i : nat) (cluster : list CodeBlock) : ClusterInfo :=
  {| cluster_id := Z.of_nat i;
     block_count := Z.of_nat (length cluster);
     locations := map location_of cluster;
     potential_savings_lines := potential_savings cluster;
     recommendation := _generate_consolidation_recommendation cluster |}.

(** [_generate_redundancy_report] *)
Definition _generate_redundancy_report (clusters : list (list CodeBlock))
    : RedundancyReport :=
  {| total_clusters := Z.of_nat (length clusters);
     total_duplicate_blocks :=
       sum_Z (map (λ cluster : list CodeBlock, Z.of_nat (length cluster)) clusters);
     clusters := map (λ '(i, cluster), cluster_info i cluster) (enumerate 1 clusters) |}.

(** The loop [for file_path in md_files: all_blocks.extend(...)] of
    [scan_redundancies]: [corpus] lists the markdown documents found under
    the repository root, each with its relative path and its decoded text
    ([None] when it cannot be read). *)
Definition collect_blocks (md5 : string → string)
    (corpus : list (string * option string)) : list CodeBlock :=
  flat_map (λ '(file_path, file), _extract_code_blocks md5 file_path file) corpus.

(** [scan_redundancies] (its progress lines are not modelled) *)
Definition scan_redundancies (md5 : string → string)
    (corpus : list (string * option string)) (similarity_threshold : Q)
    : RedundancyReport :=
  let all_blocks := collect_blocks md5 corpus in
  let clusters := _cluster_similar_blocks all_blocks similarity_threshold in
  _generate_redundancy_report clusters.

(** ** Complexity scorer *)

(** [_calculate_complexity_score] *)
Definition _calculate_complexity_score (lines functions classes imports : Z) : Q :=
  let line_score := Qmin ((inject_Z lines / 1000) * 50) 50 in
  let function_score := Qmin ((inject_Z functions / 30) * 20) 20 in
  let class_score := Qmin ((inject_Z classes / 50) * 20) 20 in
  let import_score := Qmin ((inject_Z imports / 20) * 10) 10 in
  let total := (line_score + function_score + class_score + import_score)%Q in
  Qmin total 100.

(** [ComplexityMetrics] *)
Record ComplexityMetrics := mkComplexityMetrics {
  cm_file_path : string;
  line_count : Z;
  function_count : Z;
  class_count : Z;
  import_count : Z;
  complexity_score : Q
}.

(** [ComplexityMetrics.needs_refactoring] *)
Definition needs_refactoring (m : ComplexityMetrics) : bool :=
  (500 <? line_count m) || negb (Qle_bool (complexity_score m) 70)
  || (30 <? function_count m).

(** ** Specification vocabulary *)

(** Number of times [x] is listed in [l]. *)
Definition occurrences (x : string) (l : list string) : nat :=
  length (filter (λ y, y = x) l).

(** The paths appended to the [dependents] of [k] by the second loop of
    [_build_dependency_graph]: one copy of [p] for every listing of [k]
    among the dependencies of the item [(p, node)], in iteration order. *)
Definition incoming (k : string) (items : list (string * DependencyNode)) : list string :=
  flat_map (λ kv : string * DependencyNode,
              (λ _, kv.1) <$> filter (λ dep, dep = k) (dependencies kv.2))
           items.

(** The last declaration of [p] in the manifest's component list. *)
Definition last_declaration (p : string) (items : list Item) : option Item :=
  last (filter (λ item, item_path item = p) items).

(** The first declaration of [p] in the manifest's component list. *)
Definition first_declaration (p : string) (items : list Item) : option Item :=
  head (filter (λ item, item_path item = p) items).

(** One edge of the relation that the impact traversal follows:
    [y] is listed in [graph[x].dependents]. *)
Definition depends_on_me (graph : Graph) (x y : string) : Prop :=
  ∃ node, PyDict.get graph x = Some node ∧ y ∈ dependents node.

(** [y] is reachable from [x] along [dependents] edges. *)
Definition reachable (graph : Graph) (x y : string) : Prop :=
  rtc (depends_on_me graph) x y.

(** [node] after [extra] has been appended to its [dependents], one
    [append] at a time. *)
Definition extend_dependents (extra : list string) (n : DependencyNode) : DependencyNode :=
  {| path := path n;
     importance := importance n;
     dependencies := dependencies n;
     dependents := dependents n ++ extra;
     external_deps := external_deps n |}.

(** The part of a graph that the second loop of [_build_dependency_graph]
    never touches: the keys, in order, each with its [dependencies]. *)
Definition skeleton (g : Graph) : list (string * list string) :=
  (λ kv : string * DependencyNode, (kv.1, dependencies kv.2)) <$> g.

(** One capped contribution to the complexity score: [count] scaled so
    that [scale] units reach [cap], and no more than [cap]. *)
Definition capped_contribution (count : Z) (scale cap : Q) : Q :=
  Qmin ((inject_Z count / scale) * cap) cap.

(** What the nodes not yet visited by the impact traversal may still
    cost: one iteration each, plus one per dependent they enqueue. *)
Definition pending_weight (graph : Graph) (visited : gset string) : nat :=
  sum_list ((λ kv : string * DependencyNode,
               if decide (kv.1 ∈ visited) then O else S (length (dependents kv.2)))
            <$> graph).

(** What the impact traversal maintains, when started at [start]. *)
Record bfs_invariant (g : Graph) (start : string)
    (visited : gset string) (queue : list string) : Prop := {
  inv_visited : ∀ x, x ∈ visited → reachable g start x;
  inv_queue : ∀ x, x ∈ queue → reachable g start x;
  inv_closed : ∀ x y, x ∈ visited → depends_on_me g x y → y ∈ visited ∨ y ∈ queue;
  inv_start : start ∈ visited ∨ start ∈ queue
}.

(** What every extracted fragment satisfies: at least three lines, where
    the line count of a content is [len(content.split('\n'))], and line
    extents that span exactly that many lines. *)
Definition long_enough (b : CodeBlock) : Prop :=
  3 ≤ count_lines (content b)
  ∧ end_line b - start_line b + 1 = count_lines (content b).

(** The sum of the line counts of the members of a cluster other than
    its first, representative, member. *)
Definition non_representative_lines (cluster : list CodeBlock) : Z :=
  sum_Z (map (λ b, count_lines (content b)) (tail cluster)).

(** ** Sample inputs *)

(** A manifest that declares the path ["svc"] twice. *)
Definition svc_first : Item :=
  mkItem "svc" (Some "low") (Some ["db"]) (Some ["BigQuery"]).

Definition svc_second : Item :=
  mkItem "svc" (Some "critical") (Some ["cache"]) (Some ["Redis"]).

Definition repeated_path_manifest : Manifest :=
  mkManifest (Some [svc_first; mkItem "db" None None None; svc_second]).

(** A manifest with a duplicate edge, a self edge and a dangling edge. *)
Definition multi_edge_manifest : Manifest :=
  mkManifest (Some [ mkItem "A" None (Some ["B"; "B"; "A"; "ghost"]) None;
                     mkItem "B" None None None ]).

(** The two-node cycle X -> Y, Y -> X. *)
Definition cycle_manifest : Manifest :=
  mkManifest (Some [ mkItem "X" None (Some ["Y"]) None;
                     mkItem "Y" None (Some ["X"]) None ]).

(** The chain A -> B -> C -> D, all of medium importance. *)
Definition chain_manifest : Manifest :=
  mkManifest (Some [ mkItem "A" (Some "medium") (Some ["B"]) None;
                     mkItem "B" (Some "medium") (Some ["C"]) None;
                     mkItem "C" (Some "medium") (Some ["D"]) None;
                     mkItem "D" (Some "medium") (Some []) None ]).

(** A stand-in digest for the examples: equal exactly on equal contents. *)
Definition plain_digest (s : string) : string := s.

Definition newline : string := String LF EmptyString.

(** A document with two fenced blocks that hold the same tokens, the
    first of line count 3, the second (a blank line longer) of line
    count 4. *)
Definition uneven_document : string :=
  "intro" +:+ newline
  +:+ "```python" +:+ newline +:+ "a = 1" +:+ newline +:+ "b = 2" +:+ newline
  +:+ "```" +:+ newline
  +:+ "text" +:+ newline
  +:+ "```python" +:+ newline +:+ "a = 1" +:+ newline +:+ "b = 2" +:+ newline
  +:+ newline +:+ "```" +:+ newline.

(** ** Further specification vocabulary *)

(** The token set that [similarity_to] compares. *)
Definition token_set (b : CodeBlock) : gset string :=
  list_to_set (_tokenize (content b)).

(** A character that [lower] leaves alone. *)
Definition not_upper (c : ascii) : Prop := lower_char c = c.

(** What a token is: a non-empty run of word characters, none of them an
    upper-case letter. *)
Definition is_token (t : string) : Prop :=
  t ≠ EmptyString
  ∧ Forall (λ c, is_word c = true ∧ not_upper c) (String.list_ascii_of_string t).

(** A character that only itself is lowered to (any character other than
    a lower-case letter). *)
Definition caseless (a : ascii) : Prop := ∀ c, lower_char c = a ↔ c = a.

(** The blocks of an enumerated list whose index is not marked used. *)
Definition unused_blocks (used : gset nat) (l : list (nat * CodeBlock)) : list CodeBlock :=
  (filter (λ jb : nat * CodeBlock, jb.1 ∉ used) l).*2.

(** [b] passes the test [similarity >= threshold] against [first]. *)
Definition similar_enough (threshold : Q) (first b : CodeBlock) : Prop :=
  Qle_bool threshold (similarity_to first b) = true.

(** The shape of a reported cluster: a representative followed by at
    least one block that is similar enough to it. *)
Definition cluster_shape (threshold : Q) (cluster : list CodeBlock) : Prop :=
  ∃ first others,
    cluster = first :: others
    ∧ others ≠ []
    ∧ Forall (similar_enough threshold first) others.

(** Fragments in document order with disjoint line ranges: each starts at
    line [line] or later, and the next one starts after it ends. *)
Fixpoint ordered_from (line : Z) (blocks : list CodeBlock) : Prop :=
  match blocks with
  | [] => True
  | b :: rest => line ≤ start_line b ∧ ordered_from (end_line b + 1) rest
  end.

(** What every extracted fragment records about where it came from. *)
Definition well_recorded (md5 : string → string) (file_path0 : string)
    (b : CodeBlock) : Prop :=
  file_path b = file_path0
  ∧ hash_value b = md5 (content b)
  ∧ 1 ≤ start_line b
  ∧ end_line b = start_line b + Z.of_nat (count_newlines (content b))
  ∧ find_sub "```" (content b) = None.

(** The distinct elements of a list, each at the place of its first
    occurrence. *)
Definition first_occurrences (l : list string) : list string :=
  fold_left (λ acc x, if decide (x ∈ acc) then acc else acc ++ [x]) l [].

(** The declared edges of a node whose target is itself a node. *)
Definition live_edges (graph : Graph) (node : DependencyNode) : list string :=
  filter (λ dep, dep ∈ PyDict.keys graph) (dependencies node).

(** The single-point-of-failure test of [analyze_impact]. *)
Definition is_single_point (node : DependencyNode) : Prop :=
  5 ≤ blast_radius node ∧ importance node = "critical".

Global Instance is_single_point_dec node : Decision (is_single_point node).
Proof. unfold is_single_point. apply _. Defined.

(** The report entry [c] describes the graph item [kv]. *)
Definition describes (graph : Graph) (kv : string * DependencyNode)
    (c : ComponentImpact) : Prop :=
  ci_path c = kv.1
  ∧ ci_importance c = importance kv.2
  ∧ ci_criticality_score c = criticality_score kv.2
  ∧ ci_blast_radius c = blast_radius kv.2
  ∧ ci_direct_dependents c = dependents kv.2
  ∧ ci_external_dependencies c = external_deps kv.2
  ∧ _calculate_failure_impact kv.2 graph = Some (ci_failure_impact c).

(** The single-point-of-failure entry [s] flags the graph item [kv]. *)
Definition flags (kv : string * DependencyNode) (s : SinglePointOfFailure) : Prop :=
  spof_component s = kv.1
  ∧ spof_reason s
    = "Critical component with " +:+ pretty (blast_radius kv.2) +:+ " dependents"
  ∧ spof_mitigation s = _suggest_mitigation kv.2.

(** [chain] follows declared dependency edges from node to node. *)
Fixpoint dependency_path (graph : Graph) (chain : list string) : Prop :=
  match chain with
  | [] => True
  | x :: rest =>
      match rest with
      | [] => is_Some (PyDict.get graph x)
      | y :: _ =>
          (∃ node, PyDict.get graph x = Some node ∧ y ∈ dependencies node)
          ∧ dependency_path graph rest
      end
  end.

(** A chain the tracer may return for [start]: it begins at [start],
    visits no node twice and none of [visited], and follows declared
    dependency edges. *)
Definition simple_chain (graph : Graph) (start : string) (visited : gset string)
    (chain : list string) : Prop :=
  head chain = Some start
  ∧ NoDup chain
  ∧ Forall (λ x, x ∉ visited) chain
  ∧ dependency_path graph chain.

(** ** File complexity *)

(** Length of the longest run of characters satisfying [p] at the start
    of [s] (a greedy [+] or [*] over one character class). *)
Fixpoint char_run_length (p : ascii → bool) (s : string) : nat :=
  match s with
  | String c s' => if p c then S (char_run_length p s') else O
  | EmptyString => O
  end.

Definition is_hash (c : ascii) : bool := bool_decide (c = "#"%char).

(** One attempt of the heading pattern at the start of [s] (the [^] is
    checked by the scan): one to three hashes, then a run of white space.
    Returns the length of the match. *)
Definition match_heading (s : string) : option nat :=
  let h := char_run_length is_hash s in
  if (1 <=? h)%nat && (h <=? 3)%nat then
    let ws := char_run_length is_space (str_drop h s) in
    if (1 <=? ws)%nat then Some (h + ws)%nat else None
  else None.

(** One attempt of the import pattern at the start of [s] (the [^] is
    checked by the scan): any white space, [import] or [from], then a run
    of white space. *)
Definition match_import (s : string) : option nat :=
  let w := char_run_length is_space s in
  let rest := str_drop w s in
  keyword ← (if String.prefix "import" rest then Some 6%nat
             else if String.prefix "from" rest then Some 4%nat
             else None);
  let ws := char_run_length is_space (str_drop keyword rest) in
  if (1 <=? ws)%nat then Some (w + keyword + ws)%nat else None.

(** One attempt of [def], a run of white space and a run of word
    characters at the start of [s]. *)
Definition match_def (s : string) : option nat :=
  if String.prefix "def" s then
    let ws := char_run_length is_space (str_drop 3 s) in
    if (1 <=? ws)%nat then
      let wr := word_run_length (str_drop (3 + ws) s) in
      if (1 <=? wr)%nat then Some (3 + ws + wr)%nat else None
    else None
  else None.

(** The first place in [s] where [match_def] succeeds: its offset and the
    length matched there (the lazy [.*?] before [def]). *)
Fixpoint find_def (s : string) : option (nat * nat) :=
  match match_def s with
  | Some len => Some (O, len)
  | None =>
      match s with
      | EmptyString => None
      | String _ s' => (λ '(j, len), (S j, len)) <$> find_def s'
      end
  end.

(** One attempt of the function pattern at the start of [s]: three
    backticks, a non-empty language tag, a newline, the shortest text up
    to a [def] with its name. *)
Definition match_function (s : string) : option nat :=
  if String.prefix "```" s then
    let after_ticks := str_drop 3 s in
    let w := word_run_length after_ticks in
    if (1 <=? w)%nat then
      match str_drop w after_ticks with
      | String c rest =>
          if is_LF c then
            '(j, len) ← find_def rest;
            Some (3 + w + 1 + j + len)%nat
          else None
      | EmptyString => None
      end
    else None
  else None.

(** [len(re.findall(pattern, content, flags))]: the number of
    non-overlapping matches, scanning from the left.  [anchored] says
    that the pattern starts with [^] under [re.MULTILINE];
    [at_line_start] that the current position starts a line; [skip]
    counts the characters of the last match still to pass over. *)
Fixpoint count_matches (matcher : string → option nat) (anchored : bool)
    (s : string) (at_line_start : bool) (skip : nat) : nat :=
  match s with
  | EmptyString => O
  | String c s' =>
      match skip with
      | S k => count_matches matcher anchored s' (is_LF c) k
      | O =>
          if negb anchored || at_line_start then
            match matcher s with
            | Some len => S (count_matches matcher anchored s' (is_LF c) (len - 1))
            | None => count_matches matcher anchored s' (is_LF c) O
            end
          else count_matches matcher anchored s' (is_LF c) O
      end
  end.

(** [_analyze_file_complexity]: [file] is the decoded text of the
    document, [None] when it cannot be read. *)
Definition _analyze_file_complexity (file_path : string) (file : option string)
    : option ComplexityMetrics :=
  match file with
  | None => None
  | Some content =>
      let line_count := count_lines content in
      let function_count := Z.of_nat (count_matches match_function false content true O) in
      let class_count := Z.of_nat (count_matches match_heading true content true O) in
      let import_count := Z.of_nat (count_matches match_import true content true O) in
      let complexity_score :=
        _calculate_complexity_score line_count function_count class_count import_count in
      Some {| cm_file_path := file_path;
              line_count := line_count;
              function_count := function_count;
              class_count := class_count;
              import_count := import_count;
              complexity_score := complexity_score |}
  end.

(** [sorted(l, key=..., reverse=True)] for a [float] key. *)
Fixpoint insert_desc_Q {A} (key : A → Q) (x : A) (l : list A) : list A :=
  match l with
  | [] => [x]
  | y :: l' =>
      if Qle_bool (key y) (key x) then x :: l else y :: insert_desc_Q key x l'
  end.

Definition sorted_desc_Q {A} (key : A → Q) (l : list A) : list A :=
  foldr (insert_desc_Q key) [] l.

(** [score_complexity] over the markdown documents of the repository
    (its progress lines are not modelled). *)
Definition score_complexity (corpus : list (string * option string))
    : list ComplexityMetrics :=
  let metrics :=
    omap (λ '(file_path, file), _analyze_file_complexity file_path file) corpus in
  sorted_desc_Q complexity_score metrics.

(** What [_analyze_file_complexity] records for a readable document
    [content] at [file_path0]. *)
Definition valid_metrics (file_path0 content : string) (m : ComplexityMetrics) : Prop :=
  cm_file_path m = file_path0
  ∧ line_count m = count_lines content
  ∧ 1 ≤ line_count m
  ∧ 0 ≤ function_count m ≤ line_count m - 1
  ∧ 0 ≤ class_count m ≤ line_count m
  ∧ 0 ≤ import_count m ≤ line_count m
  ∧ complexity_score m
    = _calculate_complexity_score (line_count m) (function_count m)
                                  (class_count m) (import_count m)
  ∧ (0 <= complexity_score m <= 100)%Q.

(** ** Vocabulary for text and fenced blocks *)

(** Text within the ASCII range, on which the character classes of the
    text helpers are those of Python. *)
Definition is_ascii_text (s : string) : bool :=
  forallb (λ c, (char_code c <? 128)%N) (String.list_ascii_of_string s).

(** Python's [x / y] on two [int]s; [None] stands for
    [ZeroDivisionError]. *)
Definition truediv (x y : Z) : option Q :=
  if decide (y = 0) then None else Some (inject_Z x / inject_Z y)%Q.

(** [CodeBlock.similarity_to] once more, with the exception that the
    division [intersection / union] can raise made explicit. *)
Definition similarity_to_checked (self other : CodeBlock) : option Q :=
  if decide (hash_value self = hash_value other) then Some 100%Q
  else
    let self_tokens : gset string := list_to_set (_tokenize (content self)) in
    let other_tokens : gset string := list_to_set (_tokenize (content other)) in
    if bool_decide (self_tokens = ∅) && bool_decide (other_tokens = ∅) then Some 100%Q
    else if bool_decide (self_tokens = ∅) || bool_decide (other_tokens = ∅) then Some 0%Q
    else
      let intersection := Z.of_nat (size (self_tokens ∩ other_tokens)) in
      let union := Z.of_nat (size (self_tokens ∪ other_tokens)) in
      ratio ← truediv intersection union;
      Some (ratio * 100)%Q.

Definition backtick : ascii := "`"%char.

(** Text without a backtick in it. *)
Definition no_backtick (s : string) : bool :=
  forallb (λ c, negb (bool_decide (c = backtick))) (String.list_ascii_of_string s).

(** One line of text inside a fenced block: no newline and no backtick. *)
Definition is_text_line (s : string) : bool :=
  forallb (λ c, negb (is_LF c) && negb (bool_decide (c = backtick)))
          (String.list_ascii_of_string s).

(** A language tag after the opening fence: word characters only. *)
Definition is_language_tag (s : string) : bool :=
  forallb is_word (String.list_ascii_of_string s).

(** The text of a fenced block: the opening fence with its tag, the text
    lines, each ended by a newline, and the closing fence. *)
Definition fenced_lines (lines : list string) : string :=
  foldr (λ line rest, line +:+ newline +:+ rest) EmptyString lines.

Definition fenced_block (tag : string) (lines : list string) : string :=
  "```" +:+ tag +:+ newline +:+ fenced_lines lines +:+ "```".

(** The fragment that a fenced block at the top of [file_path] gives. *)
Definition fragment_at_top (md5 : string → string) (file_path : string)
    (lines : list string) : CodeBlock :=
  {| file_path := file_path;
     content := fenced_lines lines;
     start_line := 1;
     end_line := 1 + Z.of_nat (length lines);
     hash_value := md5 (fenced_lines lines) |}.

(** * Properties *)

(** ** Dictionaries *)

Section DictFacts.
Context {V : Type}.
Implicit Types (d : PyDict.t V) (k : string) (v : V).

Lemma get_set_eq d k v : PyDict.get (PyDict.set d k v) k = Some v.
Proof.
  induction d as [|[k' v'] d IH]; simpl.
  - by rewrite decide_True.
  - destruct (decide (k' = k)) as [->|Hne]; simpl.
    + by rewrite decide_True.
    + by rewrite decide_False.
Qed.

Lemma get_set_ne d k k' v :
  k ≠ k' → PyDict.get (PyDict.set d k v) k' = PyDict.get d k'.
Proof.
  intros Hne. induction d as [|[k0 v0] d IH]; simpl.
  - by rewrite decide_False.
  - destruct (decide (k0 = k)) as [->|Hk]; simpl.
    + by rewrite !decide_False.
    + by rewrite IH.
Qed.

Lemma get_update d k k' (f : V → V) :
  PyDict.get (PyDict.update d k f) k'
  = if decide (k = k') then f <$> PyDict.get d k' else PyDict.get d k'.
Proof.
  induction d as [|[k0 v0] d IH]; simpl.
  - by case_decide.
  - destruct (decide (k0 = k)) as [->|Hk]; simpl.
    + destruct (decide (k = k')); by simpl.
    + rewrite IH. destruct (decide (k0 = k')) as [->|?]; [|done].
      by rewrite decide_False.
Qed.

Lemma keys_update d k (f : V → V) :
  PyDict.keys (PyDict.update d k f) = PyDict.keys d.
Proof.
  unfold PyDict.keys. induction d as [|[k0 v0] d IH]; csimpl; [done|].
  case_decide; csimpl; [done | by rewrite IH].
Qed.

Lemma keys_set_elem d k v k' :
  k' ∈ PyDict.keys (PyDict.set d k v) ↔ k' = k ∨ k' ∈ PyDict.keys d.
Proof.
  unfold PyDict.keys. induction d as [|[k0 v0] d IH]; csimpl.
  - rewrite list_elem_of_singleton, elem_of_nil. tauto.
  - case_decide; csimpl; subst; rewrite !elem_of_cons; [tauto|].
    rewrite IH. tauto.
Qed.

Lemma wf_set d k v : PyDict.wf d → PyDict.wf (PyDict.set d k v).
Proof.
  unfold PyDict.wf. induction d as [|[k0 v0] d IH]; simpl; intros Hwf.
  - apply NoDup_singleton.
  - apply NoDup_cons in Hwf as [Hnotin Hwf].
    case_decide; simpl; subst.
    + by apply NoDup_cons.
    + apply NoDup_cons. split; [|by apply IH].
      intros Hin. apply keys_set_elem in Hin as [?|?]; by subst.
Qed.

Lemma wf_update d k (f : V → V) : PyDict.wf d → PyDict.wf (PyDict.update d k f).
Proof. unfold PyDict.wf. by rewrite keys_update. Qed.

Lemma get_Some_elem d k v : PyDict.get d k = Some v → (k, v) ∈ PyDict.items d.
Proof.
  unfold PyDict.items. induction d as [|[k0 v0] d IH]; simpl; [done|].
  case_decide; subst.
  - intros [= ->]. left.
  - intros ?. right. by apply IH.
Qed.

Lemma get_None_keys d k : PyDict.get d k = None ↔ k ∉ PyDict.keys d.
Proof.
  unfold PyDict.keys. induction d as [|[k0 v0] d IH]; csimpl.
  - rewrite elem_of_nil. tauto.
  - rewrite not_elem_of_cons. case_decide; subst; [naive_solver|].
    rewrite IH. naive_solver.
Qed.

Lemma elem_get_wf d k v :
  PyDict.wf d → (k, v) ∈ PyDict.items d → PyDict.get d k = Some v.
Proof.
  unfold PyDict.wf, PyDict.items, PyDict.keys.
  induction d as [|[k0 v0] d IH]; simpl; intros Hwf Hin.
  - by apply elem_of_nil in Hin.
  - apply NoDup_cons in Hwf as [Hnotin Hwf].
    apply elem_of_cons in Hin as [[= -> ->]|Hin].
    + by rewrite decide_True.
    + rewrite decide_False; [by apply IH|].
      intros ->. apply Hnotin. apply list_elem_of_fmap. by exists (k, v).
Qed.

Lemma mem_true_iff d k : PyDict.mem d k = true ↔ is_Some (PyDict.get d k).
Proof.
  unfold PyDict.mem. destruct (PyDict.get d k); split; intros H; done.
Qed.
End DictFacts.

(** ** Dependency graph builder *)

Section GraphBuilder.
Implicit Types (g : Graph) (k p : string) (n : DependencyNode).

Lemma extend_dependents_nil n : extend_dependents [] n = n.
Proof. destruct n. unfold extend_dependents. simpl. by rewrite app_nil_r. Qed.

Lemma extend_dependents_app l1 l2 n :
  extend_dependents l2 (extend_dependents l1 n) = extend_dependents (l1 ++ l2) n.
Proof. unfold extend_dependents. simpl. by rewrite app_assoc. Qed.

Lemma append_dependent_extend p n : append_dependent p n = extend_dependents [p] n.
Proof. done. Qed.

Lemma link_node_get p deps g k :
  PyDict.get (link_node p deps g) k
  = extend_dependents ((λ _, p) <$> filter (λ dep, dep = k) deps) <$> PyDict.get g k.
Proof.
  unfold link_node. revert g. induction deps as [|dep deps IH]; intros g; simpl.
  - destruct (PyDict.get g k); simpl; [|done]. by rewrite extend_dependents_nil.
  - rewrite IH. rewrite filter_cons.
    assert (PyDict.get (if PyDict.mem g dep
                        then PyDict.update g dep (append_dependent p) else g) k
            = if decide (dep = k) then append_dependent p <$> PyDict.get g k
              else PyDict.get g k) as ->.
    { destruct (PyDict.mem g dep) eqn:Hmem.
      - apply get_update.
      - case_decide; [|done]. subst. unfold PyDict.mem in Hmem.
        by destruct (PyDict.get g k). }
    case_decide; [|done].
    destruct (PyDict.get g k); simpl; [|done].
    by rewrite append_dependent_extend, extend_dependents_app.
Qed.

Lemma link_node_keys p deps g :
  PyDict.keys (link_node p deps g) = PyDict.keys g.
Proof.
  unfold link_node. revert g. induction deps as [|dep deps IH]; intros g; simpl; [done|].
  rewrite IH. destruct (PyDict.mem g dep); [apply keys_update | done].
Qed.

Lemma link_items_get (its : list (string * DependencyNode)) g k :
  PyDict.get (fold_left (λ g '(p, node), link_node p (dependencies node) g) its g) k
  = extend_dependents (incoming k its) <$> PyDict.get g k.
Proof.
  revert g. induction its as [|[p node] its IH]; intros g; simpl.
  - destruct (PyDict.get g k); simpl; [|done]. by rewrite extend_dependents_nil.
  - rewrite IH, link_node_get.
    destruct (PyDict.get g k); simpl; [|done].
    by rewrite extend_dependents_app.
Qed.

Lemma link_items_keys (its : list (string * DependencyNode)) g :
  PyDict.keys (fold_left (λ g '(p, node), link_node p (dependencies node) g) its g)
  = PyDict.keys g.
Proof.
  revert g. induction its as [|[p node] its IH]; intros g; simpl; [done|].
  by rewrite IH, link_node_keys.
Qed.

Lemma link_dependents_get g k :
  PyDict.get (link_dependents g) k
  = extend_dependents (incoming k (PyDict.items g)) <$> PyDict.get g k.
Proof. apply link_items_get. Qed.

Lemma link_dependents_keys g : PyDict.keys (link_dependents g) = PyDict.keys g.
Proof. apply link_items_keys. Qed.

Lemma declare_fold_get (items : list Item) g p :
  PyDict.get
    (fold_left (λ graph item, PyDict.set graph (item_path item) (node_of_item item))
               items g) p
  = match last_declaration p items with
    | Some item => Some (node_of_item item)
    | None => PyDict.get g p
    end.
Proof.
  unfold last_declaration.
  induction items as [|item items IH] using rev_ind; [done|].
  rewrite fold_left_app, filter_app. simpl.
  rewrite filter_cons, filter_nil.
  case_decide as Hp.
  - rewrite last_snoc. subst. apply get_set_eq.
  - rewrite app_nil_r. rewrite get_set_ne by done. apply IH.
Qed.

Lemma declare_fold_wf (items : list Item) g :
  PyDict.wf g →
  PyDict.wf
    (fold_left (λ graph item, PyDict.set graph (item_path item) (node_of_item item))
               items g).
Proof.
  revert g. induction items as [|item items IH]; intros g Hwf; simpl; [done|].
  apply IH. by apply wf_set.
Qed.

Lemma declare_nodes_get items p :
  PyDict.get (declare_nodes items) p = node_of_item <$> last_declaration p items.
Proof.
  unfold declare_nodes. rewrite declare_fold_get.
  by destruct (last_declaration p items).
Qed.

Lemma declare_nodes_wf items : PyDict.wf (declare_nodes items).
Proof. apply declare_fold_wf. apply NoDup_nil_2. Qed.

Lemma last_declaration_path p items item :
  last_declaration p items = Some item → item_path item = p.
Proof.
  unfold last_declaration. intros H%last_Some_elem_of.
  by apply list_elem_of_filter in H as [? _].
Qed.

(** The built graph, node by node: the attributes come from the last
    declaration of the path and the dependents are the incoming listings. *)
Lemma build_get manifest k :
  PyDict.get (_build_dependency_graph manifest) k
  = (λ item,
       extend_dependents
         (incoming k (PyDict.items (declare_nodes (manifest_structure manifest))))
         (node_of_item item))
    <$> last_declaration k (manifest_structure manifest).
Proof.
  unfold _build_dependency_graph.
  rewrite link_dependents_get, declare_nodes_get.
  by destruct (last_declaration k _).
Qed.

Lemma build_wf manifest : PyDict.wf (_build_dependency_graph manifest).
Proof.
  unfold _build_dependency_graph, PyDict.wf.
  rewrite link_dependents_keys. apply declare_nodes_wf.
Qed.

Lemma elem_of_incoming a k (its : list (string * DependencyNode)) :
  a ∈ incoming k its ↔ ∃ node, (a, node) ∈ its ∧ k ∈ dependencies node.
Proof.
  unfold incoming. rewrite list_elem_of_In, in_flat_map. split.
  - intros ([p node] & Hin & Ha). simpl in Ha.
    apply list_elem_of_In, list_elem_of_fmap in Ha as (dep & -> & Hdep).
    apply list_elem_of_filter in Hdep as [-> Hdep].
    exists node. split; [by apply list_elem_of_In | done].
  - intros (node & Hin & Hk). exists (a, node). split; [by apply list_elem_of_In|].
    simpl. apply list_elem_of_In, list_elem_of_fmap. exists k. split; [done|].
    by apply list_elem_of_filter.
Qed.

Lemma length_incoming k (its : list (string * DependencyNode)) :
  length (incoming k its)
  = sum_list ((λ kv : string * DependencyNode, occurrences k (dependencies kv.2)) <$> its).
Proof.
  unfold incoming, occurrences. induction its as [|[p node] its IH]; simpl; [done|].
  rewrite length_app, length_fmap, IH. done.
Qed.

Lemma occurrences_app x l1 l2 :
  occurrences x (l1 ++ l2) = (occurrences x l1 + occurrences x l2)%nat.
Proof. unfold occurrences. by rewrite filter_app, length_app. Qed.

Lemma occurrences_const x y (l : list string) :
  occurrences x ((λ _, y) <$> l) = if decide (y = x) then length l else O.
Proof.
  unfold occurrences. induction l as [|z l IH]; csimpl.
  - by case_decide.
  - rewrite filter_cons. destruct (decide (y = x)) as [Hy|Hy]; simpl; rewrite IH; done.
Qed.

Lemma occurrences_not_elem x l : x ∉ l → occurrences x l = O.
Proof.
  unfold occurrences. induction l as [|y l IH]; [done|].
  intros Hx. apply not_elem_of_cons in Hx as [Hne Hx].
  rewrite filter_cons_False by done. by apply IH.
Qed.

Lemma occurrences_incoming_not_key a k (its : list (string * DependencyNode)) :
  a ∉ its.*1 → occurrences a (incoming k its) = O.
Proof.
  intros Ha. apply occurrences_not_elem. intros Hin.
  apply elem_of_incoming in Hin as (node & Hin & _).
  apply Ha. apply list_elem_of_fmap. by exists (a, node).
Qed.

Lemma occurrences_incoming a k (its : list (string * DependencyNode)) node :
  NoDup its.*1 → (a, node) ∈ its →
  occurrences a (incoming k its) = occurrences k (dependencies node).
Proof.
  induction its as [|[p n0] its IH]; csimpl; intros Hnd Hin.
  - by apply elem_of_nil in Hin.
  - apply NoDup_cons in Hnd as [Hp Hnd].
    change (incoming k ((p, n0) :: its))
      with (((λ _, p) <$> filter (λ dep, dep = k) (dependencies n0)) ++ incoming k its).
    rewrite occurrences_app, occurrences_const.
    apply elem_of_cons in Hin as [[= -> ->]|Hin].
    + rewrite decide_True by done.
      rewrite occurrences_incoming_not_key by done. unfold occurrences. lia.
    + rewrite decide_False.
      * by rewrite IH.
      * intros ->. apply Hp. apply list_elem_of_fmap. by exists (a, node).
Qed.
End GraphBuilder.

Section GraphInvariants.
Implicit Types (g : Graph) (manifest : Manifest).

Lemma build_get_inv manifest k node :
  PyDict.get (_build_dependency_graph manifest) k = Some node →
  ∃ item,
    last_declaration k (manifest_structure manifest) = Some item
    ∧ PyDict.get (declare_nodes (manifest_structure manifest)) k = Some (node_of_item item)
    ∧ path node = k
    ∧ importance node = default "medium" (item_importance item)
    ∧ dependencies node = default [] (item_connects_to item)
    ∧ external_deps node = default [] (item_dependencies item)
    ∧ dependents node
      = incoming k (PyDict.items (declare_nodes (manifest_structure manifest))).
Proof.
  rewrite build_get.
  destruct (last_declaration k _) as [item|] eqn:Hlast; [|done].
  intros [= <-]. exists item. rewrite declare_nodes_get, Hlast.
  repeat split; try done. simpl. by eapply last_declaration_path.
Qed.

Lemma build_declared manifest k node0 :
  (k, node0) ∈ PyDict.items (declare_nodes (manifest_structure manifest)) →
  ∃ node, PyDict.get (_build_dependency_graph manifest) k = Some node
          ∧ dependencies node = dependencies node0.
Proof.
  intros Hin. apply elem_get_wf in Hin; [|apply declare_nodes_wf].
  unfold _build_dependency_graph. rewrite link_dependents_get, Hin. simpl.
  by eexists.
Qed.

Lemma dependents_iff manifest b node_b a :
  PyDict.get (_build_dependency_graph manifest) b = Some node_b →
  a ∈ dependents node_b
  ↔ ∃ node_a, PyDict.get (_build_dependency_graph manifest) a = Some node_a
              ∧ b ∈ dependencies node_a.
Proof.
  intros Hb. apply build_get_inv in Hb as (item & _ & _ & _ & _ & _ & _ & ->).
  rewrite elem_of_incoming. split.
  - intros (node0 & Hin & Hdep).
    destruct (build_declared _ _ _ Hin) as (node_a & Ha & Hdeps).
    exists node_a. by rewrite Hdeps.
  - intros (node_a & Ha & Hdep).
    apply build_get_inv in Ha as (item_a & _ & Hget & _ & _ & Hdeps & _).
    exists (node_of_item item_a). split.
    + by apply get_Some_elem.
    + simpl. by rewrite <- Hdeps.
Qed.

Lemma skeleton_update g k p :
  skeleton (PyDict.update g k (append_dependent p)) = skeleton g.
Proof.
  unfold skeleton. induction g as [|[k0 n0] g IH]; csimpl; [done|].
  case_decide; csimpl; [done | by rewrite IH].
Qed.

Lemma skeleton_link_node p deps g : skeleton (link_node p deps g) = skeleton g.
Proof.
  unfold link_node. revert g. induction deps as [|dep deps IH]; intros g; simpl; [done|].
  rewrite IH. destruct (PyDict.mem g dep); [apply skeleton_update | done].
Qed.

Lemma skeleton_link_items (its : list (string * DependencyNode)) g :
  skeleton (fold_left (λ g '(p, node), link_node p (dependencies node) g) its g)
  = skeleton g.
Proof.
  revert g. induction its as [|[p node] its IH]; intros g; simpl; [done|].
  by rewrite IH, skeleton_link_node.
Qed.

Lemma skeleton_build manifest :
  skeleton (_build_dependency_graph manifest)
  = skeleton (declare_nodes (manifest_structure manifest)).
Proof. apply skeleton_link_items. Qed.

Lemma sum_over_skeleton (f : list string → nat) g :
  sum_list ((λ kv : string * DependencyNode, f (dependencies kv.2)) <$> g)
  = sum_list ((λ kd : string * list string, f kd.2) <$> skeleton g).
Proof. unfold skeleton. by rewrite <- list_fmap_compose. Qed.
End GraphInvariants.

(** C5 (as stated, refuted): in [repeated_path_manifest] the path ["svc"]
    is declared twice, and the node built for it does not carry the
    importance, dependencies and external-dependency labels of the first
    declaration. *)
Lemma C5_first_declaration_is_overwritten :
  first_declaration "svc" (manifest_structure repeated_path_manifest) = Some svc_first
  ∧ ¬ ∃ node,
        PyDict.get (_build_dependency_graph repeated_path_manifest) "svc" = Some node
        ∧ importance node = default "medium" (item_importance svc_first)
        ∧ dependencies node = default [] (item_connects_to svc_first)
        ∧ external_deps node = default [] (item_dependencies svc_first).
Proof.
  split; [reflexivity|].
  intros (node & Hget & Himp & _). vm_compute in Hget.
  injection Hget as <-. discriminate Himp.
Qed.

(** C5 (amended): when the declared component list contains several
    entries with the same path key, graph construction keeps the last one:
    the node built for that path carries the importance, dependencies and
    external-dependency labels of the last declaration. *)
Theorem C5_last_declaration_wins (manifest : Manifest) (p : string) (item : Item) :
  last_declaration p (manifest_structure manifest) = Some item →
  ∃ node,
    PyDict.get (_build_dependency_graph manifest) p = Some node
    ∧ importance node = default "medium" (item_importance item)
    ∧ dependencies node = default [] (item_connects_to item)
    ∧ external_deps node = default [] (item_dependencies item).
Proof.
  intros Hlast. rewrite build_get, Hlast. simpl. by eexists.
Qed.

Lemma C5_last_declaration_wins_witness :
  last_declaration "svc" (manifest_structure repeated_path_manifest) = Some svc_second
  ∧ ∃ node,
      PyDict.get (_build_dependency_graph repeated_path_manifest) "svc" = Some node
      ∧ importance node = "critical"
      ∧ dependencies node = ["cache"]
      ∧ external_deps node = ["Redis"].
Proof.
  split; [reflexivity|].
  apply (C5_last_declaration_wins repeated_path_manifest "svc" svc_second).
  reflexivity.
Defined.

(** C7: after every graph build the dependents lists are the exact inverse
    of the declared dependencies restricted to declared nodes: [a] is
    listed in the dependents of a node [b] exactly when [a] is a node of
    the graph whose dependencies list [b].  The list is computed from the
    declared edges alone ([incoming]); an edge to an undeclared target has
    no node to hold a reverse edge. *)
Theorem C7_dependents_inverse_of_dependencies
    (manifest : Manifest) (b : string) (node_b : DependencyNode) :
  PyDict.get (_build_dependency_graph manifest) b = Some node_b →
  (∀ a, a ∈ dependents node_b
        ↔ ∃ node_a, PyDict.get (_build_dependency_graph manifest) a = Some node_a
                    ∧ b ∈ dependencies node_a)
  ∧ dependents node_b
    = incoming b (PyDict.items (declare_nodes (manifest_structure manifest))).
Proof.
  intros Hb. split.
  - intros a. by apply dependents_iff.
  - by apply build_get_inv in Hb as (item & _ & _ & _ & _ & _ & _ & ->).
Qed.

Lemma C7_dependents_inverse_of_dependencies_witness :
  let node_b := mkNode "B" "medium" [] ["A"; "A"] [] in
  PyDict.get (_build_dependency_graph multi_edge_manifest) "B" = Some node_b
  ∧ (∀ a, a ∈ dependents node_b
          ↔ ∃ node_a,
              PyDict.get (_build_dependency_graph multi_edge_manifest) a = Some node_a
              ∧ "B" ∈ dependencies node_a)
  ∧ dependents node_b
    = incoming "B" (PyDict.items (declare_nodes (manifest_structure multi_edge_manifest))).
Proof.
  split; [reflexivity|].
  apply (C7_dependents_inverse_of_dependencies multi_edge_manifest "B").
  reflexivity.
Defined.

(** C10: dependents lists carry multiplicity.  For nodes [a] and [b] of
    the built graph (possibly the same node), [a] is listed in the
    dependents of [b] exactly as many times as [b] is listed in the
    dependencies of [a]; so the blast radius of [b] is the total number of
    listings of [b] over all dependency lists, duplicates and self edges
    included, and that number is what the fan-in term of the criticality
    score is computed from. *)
Theorem C10_dependents_carry_multiplicity
    (manifest : Manifest) (a b : string) (node_a node_b : DependencyNode) :
  PyDict.get (_build_dependency_graph manifest) a = Some node_a →
  PyDict.get (_build_dependency_graph manifest) b = Some node_b →
  let listings :=
    sum_list ((λ kv : string * DependencyNode, occurrences b (dependencies kv.2))
              <$> PyDict.items (_build_dependency_graph manifest)) in
  occurrences a (dependents node_b) = occurrences b (dependencies node_a)
  ∧ blast_radius node_b = Z.of_nat listings
  ∧ criticality_score node_b
    = Z.min (importance_scores (importance node_b)
             + Z.min (Z.of_nat listings * 5) 50) 100.
Proof.
  intros Ha Hb listings.
  assert (blast_radius node_b = Z.of_nat listings) as Hblast.
  { unfold blast_radius, listings, PyDict.items.
    apply build_get_inv in Hb as (_ & _ & _ & _ & _ & _ & _ & ->).
    rewrite length_incoming.
    rewrite (sum_over_skeleton (occurrences b)).
    rewrite (sum_over_skeleton (occurrences b) (_build_dependency_graph manifest)).
    by rewrite skeleton_build. }
  split; [|split; [done|]].
  - apply build_get_inv in Hb as (_ & _ & _ & _ & _ & _ & _ & ->).
    apply build_get_inv in Ha as (item_a & _ & Hget & _ & _ & Hdeps & _).
    rewrite Hdeps.
    rewrite (occurrences_incoming a b _ (node_of_item item_a)); [done| |].
    + apply declare_nodes_wf.
    + by apply get_Some_elem.
  - unfold criticality_score. by rewrite Hblast.
Qed.

Lemma C10_dependents_carry_multiplicity_witness :
  let node_a := mkNode "A" "medium" ["B"; "B"; "A"; "ghost"] ["A"] [] in
  let node_b := mkNode "B" "medium" [] ["A"; "A"] [] in
  PyDict.get (_build_dependency_graph multi_edge_manifest) "A" = Some node_a
  ∧ PyDict.get (_build_dependency_graph multi_edge_manifest) "B" = Some node_b
  ∧ occurrences "A" (dependents node_b) = 2%nat
  ∧ occurrences "A" (dependents node_a) = 1%nat
  ∧ blast_radius node_b = 2
  ∧ criticality_score node_b = 60.
Proof.
  intros node_a node_b.
  pose proof (C10_dependents_carry_multiplicity multi_edge_manifest "A" "B"
                node_a node_b eq_refl eq_refl) as (Hab & Hblast & Hscore).
  pose proof (C10_dependents_carry_multiplicity multi_edge_manifest "A" "A"
                node_a node_a eq_refl eq_refl) as (Haa & _ & _).
  split; [reflexivity|]. split; [reflexivity|].
  split; [exact Hab|]. split; [exact Haa|]. split; [exact Hblast | exact Hscore].
Defined.

(** ** Severity classification *)

(** C8: with the importance held fixed, the severity classification is
    monotone in the impact count: a larger [totalImpact] never gives a
    lower rank in LOW < MODERATE < SEVERE < CATASTROPHIC. *)
Theorem C8_severity_monotone_in_impact (importance : string) (impact1 impact2 : Z) :
  impact1 ≤ impact2 →
  severity_rank (_impact_severity impact1 importance)
  ≤ severity_rank (_impact_severity impact2 importance).
Proof.
  intros Hle. unfold _impact_severity.
  destruct (bool_decide (importance = "critical")); simpl;
    destruct (Z.leb_spec 5 impact1), (Z.leb_spec 5 impact2),
             (Z.leb_spec 10 impact1), (Z.leb_spec 10 impact2);
    simpl; lia.
Qed.

Lemma C8_severity_monotone_in_impact_witness :
  4 ≤ 5
  ∧ severity_rank (_impact_severity 4 "critical")
    ≤ severity_rank (_impact_severity 5 "critical").
Proof.
  split; [lia|].
  apply (C8_severity_monotone_in_impact "critical" 4 5). lia.
Defined.

(** ** Complexity scorer *)

Section Complexity.
Local Open Scope Q_scope.

Lemma scaled_nonneg (q scale cap : Q) :
  0 <= q → 0 < scale → 0 < cap → 0 <= q / scale * cap.
Proof.
  intros Hq Hscale Hcap.
  apply Qmult_le_0_compat; [|by apply Qlt_le_weak].
  apply Qle_shift_div_l; [done|]. by rewrite Qmult_0_l.
Qed.

Lemma scaled_reaches_cap (q scale cap : Q) :
  0 < scale → 0 < cap → cap <= q / scale * cap ↔ scale <= q.
Proof.
  intros Hscale Hcap.
  assert (¬ scale == 0) as Hnz by (intros E; rewrite E in Hscale; by apply Qlt_irrefl in Hscale).
  rewrite <- (Qmult_1_l cap) at 1.
  rewrite Qmult_le_r by done.
  rewrite <- (Qmult_le_r _ _ scale) by done.
  rewrite Qmult_1_l, (Qmult_comm (q / scale)), Qmult_div_r by done.
  done.
Qed.

Lemma capped_contribution_bounds (count : Z) (scale cap : Q) :
  (0 ≤ count)%Z → 0 < scale → 0 < cap →
  0 <= capped_contribution count scale cap <= cap.
Proof.
  intros Hcount Hscale Hcap. unfold capped_contribution.
  rewrite Zle_Qle in Hcount. change (inject_Z 0) with 0 in Hcount.
  split.
  - apply Q.min_glb; [by apply scaled_nonneg | by apply Qlt_le_weak].
  - apply Q.le_min_r.
Qed.

Lemma capped_contribution_full (count : Z) (scale cap : Q) :
  0 < scale → 0 < cap →
  capped_contribution count scale cap == cap ↔ scale <= inject_Z count.
Proof.
  intros Hscale Hcap. unfold capped_contribution.
  rewrite <- (scaled_reaches_cap (inject_Z count) scale cap) by done.
  split; intros H.
  - rewrite <- H at 1. apply Q.le_min_l.
  - by apply Q.min_r.
Qed.

(** C9: for non-negative counts the complexity score is the sum of four
    independently capped contributions: lines (cap 50, reached at 1000
    lines), function-like blocks (cap 20, reached at 30), section headers
    (cap 20, reached at 50) and import-like statements (cap 10, reached at
    20); and the score lies between 0 and 100.  The arithmetic is that of
    exact rationals. *)
Theorem C9_complexity_score_capped_sum (lines functions classes imports : Z) :
  (0 ≤ lines)%Z → (0 ≤ functions)%Z → (0 ≤ classes)%Z → (0 ≤ imports)%Z →
  let line_score := capped_contribution lines 1000 50 in
  let function_score := capped_contribution functions 30 20 in
  let class_score := capped_contribution classes 50 20 in
  let import_score := capped_contribution imports 20 10 in
  let score := _calculate_complexity_score lines functions classes imports in
  score == line_score + function_score + class_score + import_score
  ∧ (0 <= line_score <= 50 ∧ (line_score == 50 ↔ (1000 ≤ lines)%Z))
  ∧ (0 <= function_score <= 20 ∧ (function_score == 20 ↔ (30 ≤ functions)%Z))
  ∧ (0 <= class_score <= 20 ∧ (class_score == 20 ↔ (50 ≤ classes)%Z))
  ∧ (0 <= import_score <= 10 ∧ (import_score == 10 ↔ (20 ≤ imports)%Z))
  ∧ 0 <= score <= 100.
Proof.
  intros Hl Hf Hc Hi line_score function_score class_score import_score score.
  assert (0 <= line_score <= 50) as Hls
    by (by apply capped_contribution_bounds).
  assert (0 <= function_score <= 20) as Hfs
    by (by apply capped_contribution_bounds).
  assert (0 <= class_score <= 20) as Hcs
    by (by apply capped_contribution_bounds).
  assert (0 <= import_score <= 10) as His
    by (by apply capped_contribution_bounds).
  assert (score == line_score + function_score + class_score + import_score) as Hsum.
  { unfold score, _calculate_complexity_score.
    fold (capped_contribution lines 1000 50).
    fold (capped_contribution functions 30 20).
    fold (capped_contribution classes 50 20).
    fold (capped_contribution imports 20 10).
    fold line_score function_score class_score import_score.
    apply Q.min_l. lra. }
  split; [done|].
  split; [split; [done|]|].
  { unfold line_score. rewrite capped_contribution_full by done.
    by rewrite (Zle_Qle 1000 lines). }
  split; [split; [done|]|].
  { unfold function_score. rewrite capped_contribution_full by done.
    by rewrite (Zle_Qle 30 functions). }
  split; [split; [done|]|].
  { unfold class_score. rewrite capped_contribution_full by done.
    by rewrite (Zle_Qle 50 classes). }
  split; [split; [done|]|].
  { unfold import_score. rewrite capped_contribution_full by done.
    by rewrite (Zle_Qle 20 imports). }
  rewrite Hsum. lra.
Qed.
End Complexity.

Lemma C9_complexity_score_capped_sum_witness :
  let score := _calculate_complexity_score 1200 0 0 0 in
  0 ≤ 1200 ∧ 0 ≤ 0
  ∧ (score == capped_contribution 1200 1000 50 + capped_contribution 0 30 20
              + capped_contribution 0 50 20 + capped_contribution 0 20 10)%Q
  ∧ (capped_contribution 1200 1000 50 == 50)%Q
  ∧ (0 <= score <= 100)%Q.
Proof.
  intros score.
  pose proof (C9_complexity_score_capped_sum 1200 0 0 0
                ltac:(lia) ltac:(lia) ltac:(lia) ltac:(lia))
    as (Hsum & (_ & Hfull) & _ & _ & _ & Hbounds).
  split; [lia|]. split; [lia|].
  split; [exact Hsum|]. split; [apply Hfull; lia | exact Hbounds].
Defined.

(** ** Impact traversal *)

Section ImpactTraversal.
Implicit Types (g : Graph) (visited : gset string) (queue : list string).

Lemma pending_weight_cons k n g visited :
  pending_weight ((k, n) :: g) visited
  = ((if decide (k ∈ visited) then O else S (length (dependents n)))
     + pending_weight g visited)%nat.
Proof. done. Qed.

Lemma pending_weight_empty g : pending_weight g ∅ = graph_weight g.
Proof.
  induction g as [|[k n] g IH]; [done|].
  rewrite pending_weight_cons, IH. done.
Qed.

Lemma pending_weight_mono g visited visited' :
  visited ⊆ visited' → (pending_weight g visited' ≤ pending_weight g visited)%nat.
Proof.
  intros Hsub. induction g as [|[k n] g IH]; [done|].
  rewrite !pending_weight_cons.
  destruct (decide (k ∈ visited')), (decide (k ∈ visited)); try lia.
  set_solver.
Qed.

Lemma pending_weight_visit g visited current node :
  PyDict.get g current = Some node → current ∉ visited →
  (pending_weight g (visited ∪ {[current]}) + S (length (dependents node))
   ≤ pending_weight g visited)%nat.
Proof.
  intros Hget Hnew. induction g as [|[k n] g IH]; [done|].
  rewrite !pending_weight_cons.
  simpl in Hget. destruct (decide (k = current)) as [->|Hne].
  - injection Hget as ->.
    rewrite decide_True by set_solver. rewrite decide_False by done.
    pose proof (pending_weight_mono g visited (visited ∪ {[current]})
                  ltac:(set_solver)).
    lia.
  - specialize (IH Hget).
    destruct (decide (k ∈ visited ∪ {[current]})), (decide (k ∈ visited));
      try lia; set_solver.
Qed.

(** The loop always runs to completion within the fuel it is given. *)
Lemma bfs_loop_terminates g fuel visited queue :
  (length queue + pending_weight g visited < fuel)%nat →
  is_Some (bfs_loop fuel g visited queue).
Proof.
  revert visited queue. induction fuel as [|fuel IH]; intros visited queue Hfuel; [lia|].
  destruct queue as [|current queue]; simpl; [by eexists|].
  simpl in Hfuel. destruct (decide (current ∈ visited)) as [Hin|Hnew].
  - apply IH. lia.
  - destruct (PyDict.get g current) as [node|] eqn:Hget.
    + apply IH. rewrite length_app.
      pose proof (pending_weight_visit g visited current node Hget Hnew).
      pose proof (length_filter (λ dependent, dependent ∉ visited ∪ {[current]})
                    (dependents node)).
      lia.
    + apply IH.
      pose proof (pending_weight_mono g visited (visited ∪ {[current]})
                    ltac:(set_solver)).
      lia.
Qed.

Lemma closed_contains_reachable g visited x y :
  (∀ a b, a ∈ visited → depends_on_me g a b → b ∈ visited) →
  x ∈ visited → reachable g x y → y ∈ visited.
Proof.
  intros Hclosed Hx Hreach. unfold reachable in Hreach.
  induction Hreach as [x|x y z Hstep _ IHr]; [done|].
  apply IHr. by eapply Hclosed.
Qed.

Lemma bfs_loop_reachable g start fuel visited queue result :
  bfs_invariant g start visited queue →
  bfs_loop fuel g visited queue = Some result →
  ∀ y, y ∈ result ↔ reachable g start y.
Proof.
  revert visited queue.
  induction fuel as [|fuel IH]; intros visited queue Hinv Hrun; [done|].
  destruct queue as [|current queue]; simpl in Hrun.
  - injection Hrun as <-. destruct Hinv as [Hvis _ Hclosed Hstart].
    intros y. split; [apply Hvis|].
    assert (start ∈ visited) as Hs by (destruct Hstart as [|H]; [done|by apply elem_of_nil in H]).
    apply closed_contains_reachable; [|done].
    intros a b Ha Hab.
    destruct (Hclosed a b Ha Hab) as [|H]; [done|by apply elem_of_nil in H].
  - destruct Hinv as [Hvis Hqueue Hclosed Hstart].
    destruct (decide (current ∈ visited)) as [Hin|Hnew].
    { apply (IH visited queue); [|done]. split; [done| | |].
      - intros x Hx. apply Hqueue. by right.
      - intros x y Hx Hstep.
        destruct (Hclosed x y Hx Hstep) as [|[->|]%elem_of_cons]; auto.
      - destruct Hstart as [|[->|]%elem_of_cons]; auto. }
    assert (reachable g start current) as Hcur by (apply Hqueue; left).
    destruct (PyDict.get g current) as [node|] eqn:Hget.
    + eapply IH; [|exact Hrun]. split.
      * intros x [Hx| ->%elem_of_singleton]%elem_of_union; auto.
      * intros x [Hx|Hx]%elem_of_app; [apply Hqueue; by right|].
        apply list_elem_of_filter in Hx as [_ Hx].
        eapply rtc_r; [exact Hcur|]. by exists node.
      * intros x y [Hx| ->%elem_of_singleton]%elem_of_union Hstep.
        -- destruct (Hclosed x y Hx Hstep) as [|[->|]%elem_of_cons].
           ++ left. apply elem_of_union. by left.
           ++ left. apply elem_of_union. right. by apply elem_of_singleton.
           ++ right. apply elem_of_app. by left.
        -- destruct Hstep as (node' & Hget' & Hy).
           rewrite Hget in Hget'. injection Hget' as <-.
           destruct (decide (y ∈ visited ∪ {[current]})); [by left|].
           right. apply elem_of_app. right. by apply list_elem_of_filter.
      * destruct Hstart as [|[->|]%elem_of_cons].
        -- left. apply elem_of_union. by left.
        -- left. apply elem_of_union. right. by apply elem_of_singleton.
        -- right. apply elem_of_app. by left.
    + eapply IH; [|exact Hrun]. split.
      * intros x [Hx| ->%elem_of_singleton]%elem_of_union; auto.
      * intros x Hx. apply Hqueue. by right.
      * intros x y [Hx| ->%elem_of_singleton]%elem_of_union Hstep.
        -- destruct (Hclosed x y Hx Hstep) as [|[->|]%elem_of_cons].
           ++ left. apply elem_of_union. by left.
           ++ left. apply elem_of_union. right. by apply elem_of_singleton.
           ++ by right.
        -- destruct Hstep as (node' & Hget' & _). by rewrite Hget in Hget'.
      * destruct Hstart as [|[->|]%elem_of_cons].
        -- left. apply elem_of_union. by left.
        -- left. apply elem_of_union. right. by apply elem_of_singleton.
        -- by right.
Qed.
Lemma bfs_loop_from_start g start :
  ∃ visited,
    bfs_loop (bfs_fuel g) g ∅ [start] = Some visited
    ∧ ∀ y, y ∈ visited ↔ reachable g start y.
Proof.
  destruct (bfs_loop_terminates g (bfs_fuel g) ∅ [start]) as [visited Hrun].
  { rewrite pending_weight_empty. unfold bfs_fuel. simpl. lia. }
  exists visited. split; [done|].
  eapply bfs_loop_reachable; [|exact Hrun].
  split; [set_solver|intros x ->%list_elem_of_singleton; apply rtc_refl|set_solver|].
  right. by apply list_elem_of_singleton.
Qed.
End ImpactTraversal.

(** C6: for every dependency graph, cycles included, the breadth-first
    traversal over the dependents relation terminates, and [total_impact]
    is the number of distinct nodes reachable from the start node, the
    start node itself excluded.  On the two-node cycle X -> Y, Y -> X the
    total impact of X is 1. *)
Theorem C6_total_impact_counts_reachable :
  (∀ (graph : Graph) (node : DependencyNode),
     ∃ (impact : FailureImpact) (impacted : gset string),
       _calculate_failure_impact node graph = Some impact
       ∧ (∀ y, y ∈ impacted ↔ reachable graph (path node) y ∧ y ≠ path node)
       ∧ total_impact impact = Z.of_nat (size impacted))
  ∧ (∃ node_x,
       PyDict.get (_build_dependency_graph cycle_manifest) "X" = Some node_x
       ∧ total_impact
           <$> _calculate_failure_impact node_x (_build_dependency_graph cycle_manifest)
         = Some 1).
Proof.
  split.
  - intros graph node.
    destruct (bfs_loop_from_start graph (path node)) as (visited & Hrun & Hvisited).
    unfold _calculate_failure_impact. rewrite Hrun. simpl.
    eexists _, (visited ∖ {[path node]}). split; [exact eq_refl|]. split.
    + intros y. rewrite elem_of_difference, Hvisited, not_elem_of_singleton. done.
    + simpl.
      assert (path node ∈ visited) as Hstart by (apply Hvisited, rtc_refl).
      rewrite size_difference by set_solver.
      rewrite size_singleton.
      assert (size visited ≠ O)
        by (intros Hz; apply size_empty_inv in Hz; set_solver).
      lia.
  - eexists. split; [reflexivity|]. vm_compute. reflexivity.
Qed.

(** ** Critical-path tracer *)

Section CriticalPaths.
Implicit Types (g : Graph) (visited : gset string).

Lemma get_Some_key g k (n : DependencyNode) :
  PyDict.get g k = Some n → k ∈ PyDict.keys g.
Proof.
  intros Hget. destruct (decide (k ∈ PyDict.keys g)) as [|Hnot]; [done|].
  apply get_None_keys in Hnot. congruence.
Qed.

Lemma size_list_to_set_length (l : list string) :
  (size (list_to_set l : gset string) ≤ length l)%nat.
Proof.
  induction l as [|x l IH]; simpl.
  - done.
  - rewrite size_union_alt, size_singleton.
    pose proof (subseteq_size (list_to_set l ∖ {[x]}) (list_to_set l : gset string)
                  ltac:(set_solver)).
    lia.
Qed.

(** The recursion always returns: every call adds a graph key to the
    visited set of its path. *)
Lemma trace_chain_terminates g fuel start visited :
  (size (list_to_set (PyDict.keys g) ∖ visited : gset string) < fuel)%nat →
  is_Some (trace_chain fuel start g visited).
Proof.
  revert start visited.
  induction fuel as [|fuel IH]; intros start visited Hfuel; [lia|].
  simpl. destruct (decide (start ∈ visited)) as [|Hnew]; [by eexists|].
  destruct (PyDict.get g start) as [node|] eqn:Hget; [|by eexists].
  assert (∀ dep, is_Some (trace_chain fuel dep g (visited ∪ {[start]}))) as Hsub.
  { intros dep. apply IH.
    apply get_Some_key in Hget.
    assert (list_to_set (PyDict.keys g) ∖ (visited ∪ {[start]})
            ⊂ (list_to_set (PyDict.keys g) ∖ visited : gset string)) as Hlt.
    { apply strict_spec_alt. split; [set_solver|].
      intros Heq. assert (start ∈ (list_to_set (PyDict.keys g) ∖ visited : gset string)) as Hin.
      { apply elem_of_difference. split; [by apply elem_of_list_to_set | done]. }
      rewrite <- Heq in Hin. set_solver. }
    apply subset_size in Hlt. lia. }
  assert (∀ deps acc,
            is_Some acc →
            is_Some (fold_left
                       (λ acc dep,
                          longest ← acc;
                          subchain ← trace_chain fuel dep g (visited ∪ {[start]});
                          Some (if (length longest <? length subchain)%nat
                                then subchain else longest))
                       deps acc)) as Hfold.
  { induction deps as [|dep deps IHd]; intros acc [longest ->]; simpl; [by eexists|].
    apply IHd. destruct (Hsub dep) as [subchain ->]. simpl. by eexists. }
  destruct (Hfold (dependencies node) (Some [])) as [longest ->]; [by eexists|].
  simpl. by eexists.
Qed.

Lemma _trace_dependency_chain_terminates g start :
  is_Some (_trace_dependency_chain start g).
Proof.
  apply trace_chain_terminates.
  assert (size (list_to_set (PyDict.keys g) ∖ ∅ : gset string) ≤ length (PyDict.keys g))%nat.
  { rewrite difference_empty_L. apply size_list_to_set_length. }
  unfold PyDict.keys in *. rewrite length_fmap in *. lia.
Qed.

(** A chain rooted at a node without dependencies is that node alone. *)
Lemma trace_root_without_dependencies g p node :
  PyDict.get g p = Some node → dependencies node = [] →
  _trace_dependency_chain p g = Some [p].
Proof.
  intros Hget Hdeps. unfold _trace_dependency_chain. simpl.
  rewrite decide_False by set_solver. by rewrite Hget, Hdeps.
Qed.

Lemma collect_paths_nothing g (items : list (string * DependencyNode)) paths :
  (∀ p node, (p, node) ∈ items → PyDict.get g p = Some node) →
  collect_paths g items paths = Some paths.
Proof.
  revert paths. induction items as [|[p node] items IH]; intros paths Hitems; [done|].
  simpl. destruct (dependencies node) as [|dep deps] eqn:Hdeps.
  - rewrite (trace_root_without_dependencies g p node); [|apply Hitems; left|done].
    simpl. apply IH. intros q n Hin. apply Hitems. by right.
  - apply IH. intros q n Hin. apply Hitems. by right.
Qed.

Lemma find_critical_paths_nothing g :
  PyDict.wf g → _find_critical_paths g = Some [].
Proof.
  intros Hwf. unfold _find_critical_paths.
  rewrite collect_paths_nothing; [done|].
  intros p node Hin. by apply elem_get_wf.
Qed.

Lemma _calculate_failure_impact_terminates node g :
  is_Some (_calculate_failure_impact node g).
Proof.
  destruct (bfs_loop_from_start g (path node)) as (visited & Hrun & _).
  unfold _calculate_failure_impact. rewrite Hrun. by eexists.
Qed.

Lemma analyze_components_terminates g (items : list (string * DependencyNode)) spofs comps :
  is_Some (analyze_components g items spofs comps).
Proof.
  revert spofs comps. induction items as [|[p node] items IH]; intros spofs comps; simpl.
  - by eexists.
  - destruct (_calculate_failure_impact_terminates node g) as [impact ->].
    simpl. apply IH.
Qed.
End CriticalPaths.

(** C3: in every dependency graph, each chain traced by the critical-path
    tracer starts at a node without declared dependencies and is that node
    alone (length 1); no chain passes the length filter, so the tracer
    returns no path, and the [critical_paths] list of the impact report is
    empty for every manifest. *)
Theorem C3_critical_paths_always_empty :
  (∀ graph : Graph,
     PyDict.wf graph →
     (∀ p node,
        (p, node) ∈ PyDict.items graph → dependencies node = [] →
        _trace_dependency_chain p graph = Some [p])
     ∧ _find_critical_paths graph = Some [])
  ∧ (∀ manifest : Manifest,
       ∃ report, analyze_impact manifest = Some report
                 ∧ critical_paths report = []).
Proof.
  split.
  - intros graph Hwf. split.
    + intros p node Hin Hdeps.
      apply (trace_root_without_dependencies graph p node); [|done].
      by apply elem_get_wf.
    + by apply find_critical_paths_nothing.
  - intros manifest. unfold analyze_impact.
    destruct (analyze_components_terminates (_build_dependency_graph manifest)
                (sorted_desc (λ kv : string * DependencyNode, criticality_score kv.2)
                   (PyDict.items (_build_dependency_graph manifest))) [] [])
      as [[spofs comps] ->].
    simpl. rewrite find_critical_paths_nothing by apply build_wf.
    simpl. by eexists.
Qed.

Lemma C3_critical_paths_always_empty_witness :
  let graph := _build_dependency_graph chain_manifest in
  PyDict.wf graph
  ∧ _trace_dependency_chain "D" graph = Some ["D"]
  ∧ _find_critical_paths graph = Some [].
Proof.
  intros graph.
  assert (PyDict.wf graph) as Hwf.
  { apply build_wf. }
  destruct (proj1 C3_critical_paths_always_empty graph Hwf) as [Hroot Hnone].
  split; [exact Hwf|]. split; [|exact Hnone].
  apply (Hroot "D" (mkNode "D" "medium" [] ["C"] [])); [|reflexivity].
  apply get_Some_elem. reflexivity.
Defined.

(** ** Fragment extractor *)

Section Extraction.
Implicit Types (s : string) (b : CodeBlock).

Lemma length_split_lines s : length (split_lines s) = S (count_newlines s).
Proof.
  induction s as [|c s IH]; simpl; [done|].
  destruct (is_LF c); simpl; [by rewrite IH|].
  destruct (split_lines s); simpl in *; [done|lia].
Qed.

Lemma count_lines_newlines s : count_lines s = Z.of_nat (count_newlines s) + 1.
Proof. unfold count_lines. rewrite length_split_lines. lia. Qed.

Lemma scan_blocks_long_enough md5 file_path s line skip :
  Forall long_enough (scan_blocks md5 file_path s line skip).
Proof.
  revert line skip. induction s as [|c s IH]; intros line skip; simpl; [done|].
  destruct skip as [|k]; [|apply IH].
  destruct (match_fence (String c s)) as [[code_content len]|]; [|apply IH].
  apply Forall_app. split; [|apply IH].
  destruct (Z.ltb_spec (count_lines code_content) 3) as [|Hlong]; [done|].
  apply Forall_singleton. split; simpl; [done|].
  rewrite count_lines_newlines. lia.
Qed.

Lemma extract_long_enough md5 file_path file :
  Forall long_enough (_extract_code_blocks md5 file_path file).
Proof. destruct file; [apply scan_blocks_long_enough | done]. Qed.

Lemma collect_blocks_long_enough md5 corpus :
  Forall long_enough (collect_blocks md5 corpus).
Proof.
  unfold collect_blocks. induction corpus as [|[file_path file] corpus IH]; simpl; [done|].
  apply Forall_app. split; [apply extract_long_enough | done].
Qed.

Lemma find_sub_unfold (pat : string) s :
  find_sub pat s
  = if String.prefix pat s then Some O
    else match s with
         | EmptyString => None
         | String _ s' => S <$> find_sub pat s'
         end.
Proof. by destruct s. Qed.

Lemma find_sub_None_tail (pat : string) c s :
  find_sub pat (String c s) = None →
  String.prefix pat (String c s) = false ∧ find_sub pat s = None.
Proof.
  rewrite find_sub_unfold. destruct (String.prefix pat (String c s)); [done|].
  destruct (find_sub pat s); [done|]. done.
Qed.

Lemma match_fence_needs_fence s :
  String.prefix "```" s = false → match_fence s = None.
Proof. intros H. unfold match_fence. by rewrite H. Qed.

Lemma scan_blocks_no_fence md5 file_path s line skip :
  find_sub "```" s = None → scan_blocks md5 file_path s line skip = [].
Proof.
  revert line skip. induction s as [|c s IH]; intros line skip Hnone; [done|].
  apply find_sub_None_tail in Hnone as [Hp Hnone].
  cbn [scan_blocks]. destruct skip as [|k]; [|by apply IH].
  rewrite match_fence_needs_fence by done. by apply IH.
Qed.

(** A fence match whose content is too short contributes nothing. *)
Lemma scan_blocks_short md5 file_path c rest line code_content len :
  match_fence (String c rest) = Some (code_content, len) →
  count_lines code_content < 3 →
  scan_blocks md5 file_path (String c rest) line O
  = scan_blocks md5 file_path rest (if is_LF c then line + 1 else line) (len - 1).
Proof.
  intros Hmatch Hshort. simpl scan_blocks at 1. rewrite Hmatch.
  destruct (Z.ltb_spec (count_lines code_content) 3); [done|lia].
Qed.
End Extraction.

(** ** Similarity clusterer *)

Section Clustering.
Context (P : CodeBlock → Prop).

Lemma gather_similar_members threshold block1 later cluster used :
  Forall P cluster → Forall (λ jb : nat * CodeBlock, P jb.2) later →
  Forall P (gather_similar threshold block1 later cluster used).1.
Proof.
  unfold gather_similar. revert cluster used.
  induction later as [|[j block2] later IH]; intros cluster used Hc Hl; simpl; [done|].
  apply Forall_cons in Hl as [Hb Hl].
  destruct (decide (j ∈ used)); [by apply IH|].
  destruct (Qle_bool threshold (similarity_to block1 block2)); [|by apply IH].
  apply IH; [|done]. apply Forall_app. split; [done|]. by apply Forall_singleton.
Qed.

Lemma cluster_loop_members threshold blocks used clusters :
  Forall (Forall P) clusters → Forall (λ jb : nat * CodeBlock, P jb.2) blocks →
  Forall (Forall P) (cluster_loop threshold blocks used clusters).
Proof.
  revert used clusters.
  induction blocks as [|[i block1] later IH]; intros used clusters Hc Hb; simpl; [done|].
  apply Forall_cons in Hb as [Hb1 Hlater].
  destruct (decide (i ∈ used)); [by apply IH|].
  pose proof (gather_similar_members threshold block1 later [block1] (used ∪ {[i]})
                ltac:(by apply Forall_singleton) Hlater) as Hg.
  destruct (gather_similar threshold block1 later [block1] (used ∪ {[i]}))
    as [cluster used'].
  simpl in Hg. apply IH; [|done].
  case_match; [|done].
  apply Forall_app. split; [done|]. by apply Forall_singleton.
Qed.

Lemma enumerate_members {A} (Q : A → Prop) start (l : list A) :
  Forall Q l → Forall (λ jb : nat * A, Q jb.2) (enumerate start l).
Proof.
  unfold enumerate. revert start.
  induction l as [|x l IH]; intros start Hl; simpl; [done|].
  apply Forall_cons in Hl as [Hx Hl]. apply Forall_cons. split; [done|]. by apply IH.
Qed.

Lemma _cluster_similar_blocks_members blocks threshold :
  Forall P blocks → Forall (Forall P) (_cluster_similar_blocks blocks threshold).
Proof.
  intros Hb. apply cluster_loop_members; [done|]. by apply enumerate_members.
Qed.
End Clustering.

(** ** Redundancy report *)

Section Savings.
Implicit Types (b : CodeBlock) (cluster : list CodeBlock).

Lemma sum_Z_const (x : Z) {A} (l : list A) :
  sum_Z (map (λ _, x) l) = Z.of_nat (length l) * x.
Proof. unfold sum_Z. induction l as [|y l IH]; simpl; [done|]. rewrite IH. lia. Qed.

(** What the report computes: the size of the first member, once per
    other member. *)
Lemma potential_savings_first first rest :
  potential_savings (first :: rest)
  = Z.of_nat (length rest) * count_lines (content first).
Proof.
  unfold potential_savings, block_sizes.
  change (map (λ _ : CodeBlock, count_lines (content first)) (first :: rest))
    with (count_lines (content first)
          :: map (λ _ : CodeBlock, count_lines (content first)) rest).
  cbn [sum_Z foldr]. fold (sum_Z (map (λ _ : CodeBlock, count_lines (content first)) rest)).
  rewrite sum_Z_const. lia.
Qed.

Lemma cluster_pair b1 b2 threshold :
  Qle_bool threshold (similarity_to b1 b2) = true →
  _cluster_similar_blocks [b1; b2] threshold = [[b1; b2]].
Proof.
  intros Hsim. unfold _cluster_similar_blocks, enumerate.
  cbn [length seq zip zip_with cluster_loop].
  rewrite decide_False by set_solver.
  unfold gather_similar. cbn [fold_left].
  rewrite decide_False by set_solver.
  rewrite Hsim. cbn [cluster_loop app length Nat.leb].
  rewrite decide_True by set_solver. done.
Qed.
End Savings.

(** ** Fenced blocks of text lines *)

Section FencedBlocks.
Implicit Types (s rest tag : string) (lines : list string).

Lemma prefix_nil s : String.prefix EmptyString s = true.
Proof. by destruct s. Qed.

Lemma prefix_cons a pat c s :
  String.prefix (String a pat) (String c s)
  = if decide (a = c) then String.prefix pat s else false.
Proof. cbn [String.prefix]. destruct (ascii_dec a c); by case_decide. Qed.

Lemma prefix_fence rest : String.prefix "```" ("```" +:+ rest) = true.
Proof.
  change ("```" +:+ rest) with (String "`" (String "`" (String "`" rest))).
  rewrite !prefix_cons. repeat case_decide; try done. apply prefix_nil.
Qed.

Lemma count_newlines_app s1 s2 :
  count_newlines (s1 +:+ s2) = (count_newlines s1 + count_newlines s2)%nat.
Proof. induction s1 as [|c s1 IH]; simpl; [done|]. destruct (is_LF c); simpl; by rewrite IH. Qed.

Lemma count_newlines_text_line s : is_text_line s = true → count_newlines s = O.
Proof.
  unfold is_text_line. induction s as [|c s IH]; simpl; [done|].
  intros [[Hc _]%andb_true_iff Hs]%andb_true_iff.
  apply negb_true_iff in Hc. rewrite Hc. by apply IH.
Qed.

Lemma no_backtick_app s1 s2 :
  no_backtick (s1 +:+ s2) = no_backtick s1 && no_backtick s2.
Proof. unfold no_backtick. induction s1 as [|c s1 IH]; simpl; [done|]. by rewrite IH, andb_assoc. Qed.

Lemma no_backtick_text_line s : is_text_line s = true → no_backtick s = true.
Proof.
  unfold is_text_line, no_backtick. induction s as [|c s IH]; simpl; [done|].
  intros [[_ Hc]%andb_true_iff Hs]%andb_true_iff. rewrite Hc. by apply IH.
Qed.

Lemma count_newlines_fenced_lines lines :
  forallb is_text_line lines = true →
  count_newlines (fenced_lines lines) = length lines.
Proof.
  induction lines as [|line lines IH]; simpl; [done|].
  intros [Hline Hlines]%andb_true_iff.
  rewrite !count_newlines_app, (count_newlines_text_line _ Hline), IH by done.
  done.
Qed.

Lemma no_backtick_fenced_lines lines :
  forallb is_text_line lines = true → no_backtick (fenced_lines lines) = true.
Proof.
  induction lines as [|line lines IH]; simpl; [done|].
  intros [Hline Hlines]%andb_true_iff.
  rewrite !no_backtick_app, (no_backtick_text_line _ Hline), IH by done.
  done.
Qed.

Lemma find_sub_closing_fence s rest :
  no_backtick s = true →
  find_sub "```" (s +:+ "```" +:+ rest) = Some (String.length s).
Proof.
  unfold no_backtick. induction s as [|c s IH].
  { intros _. change (EmptyString +:+ "```" +:+ rest) with ("```" +:+ rest).
    rewrite find_sub_unfold. by rewrite prefix_fence. }
  cbn [String.list_ascii_of_string forallb].
  intros [Hc Hs]%andb_true_iff. apply negb_true_iff, bool_decide_eq_false in Hc.
  change (String c s +:+ "```" +:+ rest) with (String c (s +:+ "```" +:+ rest)).
  rewrite find_sub_unfold, prefix_cons, decide_False by (unfold backtick in Hc; congruence).
  by rewrite IH.
Qed.

Lemma word_run_length_tag tag rest :
  is_language_tag tag = true →
  word_run_length (tag +:+ String LF rest) = String.length tag.
Proof.
  unfold is_language_tag. induction tag as [|c tag IH]; simpl; [done|].
  intros [-> Htag]%andb_true_iff. by rewrite IH.
Qed.

Lemma str_drop_app s1 s2 : str_drop (String.length s1) (s1 +:+ s2) = s2.
Proof. induction s1 as [|c s1 IH]; simpl; [by destruct s2|done]. Qed.

Lemma str_take_app s1 s2 : str_take (String.length s1) (s1 +:+ s2) = s1.
Proof. induction s1 as [|c s1 IH]; simpl; [by destruct s2|by rewrite IH]. Qed.

Lemma str_drop_app_add s1 s2 n :
  str_drop (String.length s1 + n) (s1 +:+ s2) = str_drop n s2.
Proof. induction s1 as [|c s1 IH]; simpl; done. Qed.

Lemma append_assoc s1 s2 s3 : (s1 +:+ s2) +:+ s3 = s1 +:+ (s2 +:+ s3).
Proof.
  induction s1 as [|c s1 IH]; [done|].
  change (String c ((s1 +:+ s2) +:+ s3) = String c (s1 +:+ s2 +:+ s3)). by rewrite IH.
Qed.

(** The fence pattern matches a fenced block as a whole. *)
Lemma match_fence_fenced_block tag lines rest :
  is_language_tag tag = true → forallb is_text_line lines = true →
  match_fence (fenced_block tag lines +:+ rest)
  = Some (fenced_lines lines,
          (3 + String.length tag + 1 + String.length (fenced_lines lines) + 3)%nat).
Proof.
  intros Htag Hlines. unfold match_fence, fenced_block.
  rewrite !append_assoc. rewrite prefix_fence.
  change (str_drop 3 ("```" +:+ tag +:+ newline +:+ fenced_lines lines +:+ "```" +:+ rest))
    with (tag +:+ String LF (fenced_lines lines +:+ "```" +:+ rest)).
  rewrite word_run_length_tag, str_drop_app by done.
  change (is_LF LF) with true. cbn match.
  rewrite find_sub_closing_fence by (by apply no_backtick_fenced_lines).
  csimpl. by rewrite str_take_app.
Qed.

Lemma scan_blocks_skip md5 file_path s line skip :
  find_sub "```" (str_drop skip s) = None →
  scan_blocks md5 file_path s line skip = [].
Proof.
  revert line skip. induction s as [|c s IH]; intros line skip Hnone; [done|].
  destruct skip as [|k].
  - by apply scan_blocks_no_fence.
  - cbn [scan_blocks]. by apply IH.
Qed.

(** What [_extract_code_blocks] makes of a document that begins with a
    fenced block of text lines and has no other fence. *)
Lemma extract_fenced_block md5 file_path tag lines rest :
  is_language_tag tag = true → forallb is_text_line lines = true →
  find_sub "```" rest = None →
  _extract_code_blocks md5 file_path (Some (fenced_block tag lines +:+ rest))
  = if (2 <=? length lines)%nat then [fragment_at_top md5 file_path lines] else [].
Proof.
  intros Htag Hlines Hrest. unfold _extract_code_blocks.
  pose proof (match_fence_fenced_block tag lines rest Htag Hlines) as Hmatch.
  set (s' := String "`" (String "`"
               ((tag +:+ newline +:+ fenced_lines lines +:+ "```") +:+ rest))).
  change (fenced_block tag lines +:+ rest) with (String "`" s') in Hmatch |- *.
  cbn [scan_blocks]. rewrite Hmatch.
  rewrite scan_blocks_skip.
  - rewrite app_nil_r, count_lines_newlines, count_newlines_fenced_lines by done.
    unfold fragment_at_top.
    destruct (Z.ltb_spec (Z.of_nat (length lines) + 1) 3),
             (Nat.leb_spec 2 (length lines)); try lia; done.
  - replace (3 + String.length tag + 1 + String.length (fenced_lines lines) + 3 - 1)%nat
      with (S (S (String.length tag + S (String.length (fenced_lines lines) + 3))))
      by lia.
    unfold s'. rewrite !append_assoc. cbn [str_drop].
    rewrite str_drop_app_add.
    change (newline +:+ fenced_lines lines +:+ "```" +:+ rest)
      with (String LF (fenced_lines lines +:+ "```" +:+ rest)).
    cbn [str_drop]. by rewrite str_drop_app_add.
Qed.
End FencedBlocks.

(** C4 (the code departs from the claim): the guard of the extractor
    measures a content by [len(content.split('\n'))], which for text
    lines that each end in a newline is one more than their number.  So
    a fenced block is kept as soon as it has two text lines: a block of
    exactly two lines yields a fragment, spanning lines 1 to 3 of its
    document, and two documents with such a block are clustered at every
    threshold up to 100; only blocks of no or one text line are
    discarded. *)
Theorem C4_two_line_block_is_extracted
    (md5 : string → string) (file_path tag : string) (lines : list string)
    (rest : string) :
  is_language_tag tag = true →
  forallb is_text_line lines = true →
  find_sub "```" rest = None →
  let document := fenced_block tag lines +:+ rest in
  count_lines (fenced_lines lines) = Z.of_nat (length lines) + 1
  ∧ _extract_code_blocks md5 file_path (Some document)
    = (if (2 <=? length lines)%nat then [fragment_at_top md5 file_path lines] else [])
  ∧ (length lines = 2%nat →
     ∀ (other_path : string) (threshold : Q), (threshold <= 100)%Q →
       _cluster_similar_blocks
         (collect_blocks md5 [(file_path, Some document); (other_path, Some document)])
         threshold
       = [[fragment_at_top md5 file_path lines; fragment_at_top md5 other_path lines]]).
Proof.
  intros Htag Hlines Hrest document. split; [|split].
  - by rewrite count_lines_newlines, count_newlines_fenced_lines.
  - by apply extract_fenced_block.
  - intros Hlen other_path threshold Hthreshold.
    unfold collect_blocks. cbn [flat_map]. subst document.
    rewrite !extract_fenced_block, Hlen by done. cbn [Nat.leb app].
    apply cluster_pair. unfold similarity_to. cbn [hash_value fragment_at_top].
    rewrite decide_True by done. by apply Qle_bool_iff.
Qed.

Lemma C4_two_line_block_is_extracted_witness :
  let document := fenced_block "python" ["foo"; "bar"] +:+ newline in
  _extract_code_blocks plain_digest "notes.md" (Some document)
  = [ {| file_path := "notes.md";
         content := "foo" +:+ newline +:+ "bar" +:+ newline;
         start_line := 1;
         end_line := 3;
         hash_value := plain_digest ("foo" +:+ newline +:+ "bar" +:+ newline) |} ]
  ∧ count_lines ("foo" +:+ newline +:+ "bar" +:+ newline) = 3.
Proof.
  pose proof (C4_two_line_block_is_extracted plain_digest "notes.md" "python"
                ["foo"; "bar"] newline eq_refl eq_refl eq_refl) as (Hcount & Hextract & _).
  split; [exact Hextract | exact Hcount].
Defined.

(** C1 (the code departs from the claim): the report does not add up the
    line counts of the non-representative members; it counts the line
    count of the first member once per other member.  In
    [uneven_document] the two fenced blocks hold the same tokens and are
    clustered at the default threshold; their line counts are 3 and 4;
    the reported saving is 3, while the line count of the one
    non-representative member is 4. *)
Theorem C1_savings_count_first_member_only (md5 : string → string) :
  (∀ first rest,
     potential_savings (first :: rest)
     = Z.of_nat (length rest) * count_lines (content first))
  ∧ ∃ first second,
      collect_blocks md5 [("guide.md", Some uneven_document)] = [first; second]
      ∧ _cluster_similar_blocks [first; second] 70 = [[first; second]]
      ∧ count_lines (content first) = 3
      ∧ count_lines (content second) = 4
      ∧ potential_savings_lines
          <$> clusters (scan_redundancies md5 [("guide.md", Some uneven_document)] 70)
        = [3]
      ∧ non_representative_lines [first; second] = 4.
Proof.
  split; [apply potential_savings_first|].
  set (c1 := "a = 1" +:+ newline +:+ "b = 2" +:+ newline).
  set (c2 := "a = 1" +:+ newline +:+ "b = 2" +:+ newline +:+ newline).
  exists (mkCodeBlock "guide.md" c1 2 4 (md5 c1)),
         (mkCodeBlock "guide.md" c2 7 10 (md5 c2)).
  assert (collect_blocks md5 [("guide.md", Some uneven_document)]
          = [mkCodeBlock "guide.md" c1 2 4 (md5 c1);
             mkCodeBlock "guide.md" c2 7 10 (md5 c2)]) as Hblocks
    by (vm_compute; reflexivity).
  assert (_cluster_similar_blocks
            [mkCodeBlock "guide.md" c1 2 4 (md5 c1);
             mkCodeBlock "guide.md" c2 7 10 (md5 c2)] 70
          = [[mkCodeBlock "guide.md" c1 2 4 (md5 c1);
              mkCodeBlock "guide.md" c2 7 10 (md5 c2)]]) as Hclusters.
  { apply cluster_pair. unfold similarity_to. cbn [hash_value content].
    destruct (decide (md5 c1 = md5 c2)); [reflexivity|].
    vm_compute. reflexivity. }
  split; [exact Hblocks|]. split; [exact Hclusters|].
  split; [reflexivity|]. split; [reflexivity|]. split; [|reflexivity].
  unfold scan_redundancies. rewrite Hblocks, Hclusters. reflexivity.
Qed.

(** ** Engine initialisation *)

(** C2 (as stated, refuted): an unparseable manifest makes
    [IntelligenceEngine.__init__] raise, and [main] answers by printing a
    failure line and exiting with status 1; there is no empty graph, no
    empty index and no warning. *)
Lemma C2_unparseable_manifest_is_fatal :
  engine_init "." ".repometa/manifest.yaml" (Unparseable "could not find expected ':'")
  = ([], Raises (YAMLError "could not find expected ':'"))
  ∧ main_initialize (Unparseable "could not find expected ':'")
    = (["Failed to initialize intelligence engine: could not find expected ':'"],
       Exited 1).
Proof. split; reflexivity. Qed.

(** C2 (amended): when the manifest is missing, engine initialisation does
    not raise: it prints a warning and continues with an empty component
    list, an empty file index and an empty graph, on which the impact
    analysis reports nothing.  When the manifest is unparseable,
    initialisation raises and [main] exits with status 1. *)
Theorem C2_missing_manifest_degrades (repo_root manifest_path : string) :
  (∃ engine,
     engine_init repo_root manifest_path Missing
     = ([ "Warning: Manifest not found at " +:+ manifest_path;
          "   Some features will be limited." ], Returns engine)
     ∧ manifest_structure (manifest engine) = []
     ∧ files engine = PyDict.empty
     ∧ _build_dependency_graph (manifest engine) = PyDict.empty
     ∧ analyze_impact (manifest engine)
       = Some {| critical_paths := [];
                 single_points_of_failure := [];
                 components := [] |})
  ∧ (∃ engine,
       main_initialize Missing
       = ([ "Warning: Manifest not found at .repometa/manifest.yaml";
            "   Some features will be limited." ], Running engine))
  ∧ (∀ problem,
       engine_init repo_root manifest_path (Unparseable problem)
       = ([], Raises (YAMLError problem))
       ∧ main_initialize (Unparseable problem)
         = (["Failed to initialize intelligence engine: " +:+ problem], Exited 1)).
Proof.
  split; [|split].
  - eexists. split; [reflexivity|]. by repeat split.
  - eexists. reflexivity.
  - intros problem. split; reflexivity.
Qed.

(** * Further properties of the engine *)

(** ** Similarity *)

Section Similarity.
Implicit Types (a b : CodeBlock).
Local Open Scope Q_scope.

Lemma similarity_unfold a b :
  similarity_to a b
  = if decide (hash_value a = hash_value b) then 100
    else if bool_decide (token_set a = ∅) && bool_decide (token_set b = ∅) then 100
    else if bool_decide (token_set a = ∅) || bool_decide (token_set b = ∅) then 0
    else inject_Z (Z.of_nat (size (token_set a ∩ token_set b)))
         / inject_Z (Z.of_nat (size (token_set a ∪ token_set b))) * 100.
Proof. done. Qed.

Lemma size_pos_nonempty (X : gset string) : X ≠ ∅ → (0 < size X)%nat.
Proof.
  intros HX. destruct (size X) eqn:Hsize; [|lia].
  apply size_empty_inv in Hsize. by apply leibniz_equiv in Hsize.
Qed.

Lemma ratio_bounds (i u : nat) :
  (i ≤ u)%nat → (0 < u)%nat →
  0 <= inject_Z (Z.of_nat i) / inject_Z (Z.of_nat u) * 100 <= 100.
Proof.
  intros Hiu Hu.
  assert (0 < inject_Z (Z.of_nat u)) as Hupos.
  { change 0 with (inject_Z 0). rewrite <- Zlt_Qlt. lia. }
  assert (0 <= inject_Z (Z.of_nat i)) as Hinn.
  { change 0 with (inject_Z 0). rewrite <- Zle_Qle. lia. }
  assert (inject_Z (Z.of_nat i) <= inject_Z (Z.of_nat u)) as Hle.
  { rewrite <- Zle_Qle. lia. }
  assert (0 <= inject_Z (Z.of_nat i) / inject_Z (Z.of_nat u)) as H0.
  { apply Qle_shift_div_l; [done|]. by rewrite Qmult_0_l. }
  assert (inject_Z (Z.of_nat i) / inject_Z (Z.of_nat u) <= 1) as H1.
  { apply Qle_shift_div_r; [done|]. by rewrite Qmult_1_l. }
  split; lra.
Qed.

Lemma ratio_full (i u : nat) :
  (0 < u)%nat →
  inject_Z (Z.of_nat i) / inject_Z (Z.of_nat u) * 100 == 100 ↔ i = u.
Proof.
  intros Hu.
  assert (¬ inject_Z (Z.of_nat u) == 0) as Hnz.
  { change 0 with (inject_Z 0). rewrite inject_Z_injective. lia. }
  split.
  - intros H.
    assert (inject_Z (Z.of_nat i) / inject_Z (Z.of_nat u) == 1) as H1.
    { revert H. generalize (inject_Z (Z.of_nat i) / inject_Z (Z.of_nat u)).
      intros q Hq. lra. }
    assert (inject_Z (Z.of_nat i) == inject_Z (Z.of_nat u)) as Heq.
    { pose proof (Qmult_div_r (inject_Z (Z.of_nat i)) (inject_Z (Z.of_nat u)) Hnz) as HH.
      rewrite H1, Qmult_1_r in HH. exact (Qeq_sym _ _ HH). }
    apply (proj1 (inject_Z_injective _ _)) in Heq. by apply Nat2Z.inj.
  - intros ->. unfold Qdiv. rewrite Qmult_inv_r by done. done.
Qed.

Lemma tokens_nonempty_cases a b :
  (bool_decide (token_set a = ∅) || bool_decide (token_set b = ∅)) = false →
  token_set a ≠ ∅ ∧ token_set b ≠ ∅.
Proof.
  intros H. apply orb_false_elim in H as [Ha Hb].
  by apply bool_decide_eq_false in Ha, Hb.
Qed.

Lemma similarity_sym a b : similarity_to a b = similarity_to b a.
Proof.
  rewrite !similarity_unfold.
  destruct (decide (hash_value a = hash_value b)) as [Heq|Hne].
  - by rewrite decide_True.
  - rewrite decide_False by congruence.
    rewrite (andb_comm (bool_decide (token_set b = ∅))).
    rewrite (orb_comm (bool_decide (token_set b = ∅))).
    rewrite (comm_L (∩) (token_set b)), (comm_L (∪) (token_set b)). done.
Qed.

Lemma similarity_self a : similarity_to a a = 100.
Proof. rewrite similarity_unfold. by rewrite decide_True. Qed.

Lemma similarity_range a b : 0 <= similarity_to a b <= 100.
Proof.
  rewrite similarity_unfold.
  destruct (decide (hash_value a = hash_value b)); [done|].
  destruct (bool_decide (token_set a = ∅) && bool_decide (token_set b = ∅)); [done|].
  destruct (bool_decide (token_set a = ∅) || bool_decide (token_set b = ∅)) eqn:Hor; [done|].
  apply tokens_nonempty_cases in Hor as [Ha Hb].
  apply ratio_bounds.
  - apply subseteq_size. set_solver.
  - apply size_pos_nonempty. set_solver.
Qed.

Lemma similarity_full a b :
  similarity_to a b == 100
  ↔ hash_value a = hash_value b ∨ token_set a = token_set b.
Proof.
  rewrite similarity_unfold.
  destruct (decide (hash_value a = hash_value b)) as [|Hne]; [by split; [left|]|].
  destruct (bool_decide (token_set a = ∅)) eqn:Ha, (bool_decide (token_set b = ∅)) eqn:Hb;
    simpl.
  - apply bool_decide_eq_true in Ha, Hb. split; [intros _; right; congruence | done].
  - apply bool_decide_eq_true in Ha. apply bool_decide_eq_false in Hb.
    split; [intros H; by apply Qeq_alt in H | intros [|]; congruence].
  - apply bool_decide_eq_false in Ha. apply bool_decide_eq_true in Hb.
    split; [intros H; by apply Qeq_alt in H | intros [|]; congruence].
  - apply bool_decide_eq_false in Ha, Hb.
    rewrite ratio_full by (apply size_pos_nonempty; set_solver).
    split.
    + intros Hsize. right.
      assert (token_set a ∩ token_set b ≡ token_set a ∪ token_set b) as Heq.
      { apply set_subseteq_size_equiv; [set_solver | lia]. }
      apply leibniz_equiv. set_solver.
    + intros [|Heq]; [done|]. rewrite Heq.
      by rewrite (idemp_L (∩)), (idemp_L (∪)).
Qed.
End Similarity.

(** The division of [similarity_to] is only reached with a non-empty
    union, so it never raises. *)
Lemma similarity_to_checked_returns (a b : CodeBlock) :
  similarity_to_checked a b = Some (similarity_to a b).
Proof.
  unfold similarity_to_checked, similarity_to.
  destruct (decide (hash_value a = hash_value b)); [done|].
  set (ta := list_to_set (_tokenize (content a)) : gset string).
  set (tb := list_to_set (_tokenize (content b)) : gset string).
  destruct (bool_decide (ta = ∅)) eqn:Ha, (bool_decide (tb = ∅)) eqn:Hb; simpl; try done.
  apply bool_decide_eq_false in Ha.
  unfold truediv. rewrite decide_False; [done|].
  assert (size (ta ∪ tb) ≠ O); [|lia].
  intros Hsize%size_empty_iff. apply Ha. set_solver.
Qed.

(** X1: computing a similarity never fails: the division is only reached
    with a non-zero divisor, so no pair of contents raises
    [ZeroDivisionError].  The similarity is symmetric (comparing [a] with
    [b] gives the same value as comparing [b] with [a]) and always a
    percentage between 0 and 100. *)
Theorem X1_similarity_symmetric_percentage (a b : CodeBlock) :
  similarity_to_checked a b = Some (similarity_to a b)
  ∧ similarity_to a b = similarity_to b a
  ∧ (0 <= similarity_to a b <= 100)%Q.
Proof.
  split; [apply similarity_to_checked_returns|].
  split; [apply similarity_sym | apply similarity_range].
Qed.

(** X3: two blocks are 100% similar exactly when their hashes agree or
    their token sets agree (two empty token sets included); in
    particular every block is 100% similar to itself. *)
Theorem X3_full_similarity (a b : CodeBlock) :
  ((similarity_to a b == 100)%Q
   ↔ hash_value a = hash_value b ∨ token_set a = token_set b)
  ∧ similarity_to a a = 100%Q.
Proof. split; [apply similarity_full | apply similarity_self]. Qed.

(** ** Content tokenizer *)

Section Tokenizer.
Implicit Types (s : string) (c : ascii).

Local Ltac by_cases_on c :=
  destruct c as [[] [] [] [] [] [] [] []]; vm_compute; reflexivity.

Lemma lower_char_idem c : lower_char (lower_char c) = lower_char c.
Proof. by_cases_on c. Qed.

Lemma is_LF_lower c : is_LF (lower_char c) = is_LF c.
Proof. by_cases_on c. Qed.

Lemma is_space_lower c : is_space (lower_char c) = is_space c.
Proof. by_cases_on c. Qed.

Lemma is_hash_lower c :
  bool_decide (lower_char c = "#"%char) = bool_decide (c = "#"%char).
Proof. by_cases_on c. Qed.

Lemma lower_idem s : lower (lower s) = lower s.
Proof. induction s as [|c s IH]; simpl; [done|]. by rewrite lower_char_idem, IH. Qed.

Lemma lower_not_upper s :
  Forall not_upper (String.list_ascii_of_string (lower s)).
Proof.
  induction s as [|c s IH]; simpl; constructor; [apply lower_char_idem | done].
Qed.

Lemma string_of_rev_nonempty c (cur : list ascii) :
  String.string_of_list_ascii (rev (c :: cur)) ≠ EmptyString.
Proof.
  intros H. apply (f_equal String.list_ascii_of_string) in H.
  rewrite String.list_ascii_of_string_of_list_ascii in H. simpl in H.
  by destruct (rev cur).
Qed.

Lemma run_is_token c (cur : list ascii) :
  Forall (λ c, is_word c = true ∧ not_upper c) (c :: cur) →
  is_token (String.string_of_list_ascii (rev (c :: cur))).
Proof.
  intros Hok. split; [apply string_of_rev_nonempty|].
  rewrite String.list_ascii_of_string_of_list_ascii.
  apply Forall_forall. intros x Hx.
  rewrite Forall_forall in Hok. apply Hok.
  apply list_elem_of_In, in_rev, list_elem_of_In in Hx. done.
Qed.

Lemma word_runs_tokens s (cur : list ascii) :
  Forall (λ c, is_word c = true ∧ not_upper c) cur →
  Forall not_upper (String.list_ascii_of_string s) →
  Forall is_token (word_runs cur s).
Proof.
  revert cur. induction s as [|c s IH]; intros cur Hcur Hs; simpl.
  - destruct cur as [|c0 cur]; [done|]. apply Forall_singleton. by apply run_is_token.
  - simpl in Hs. apply Forall_cons in Hs as [Hc Hs].
    destruct (is_word c) eqn:Hw.
    + apply IH; [|done]. by apply Forall_cons.
    + destruct cur as [|c0 cur]; [by apply IH|].
      apply Forall_cons. split; [by apply run_is_token | by apply IH].
Qed.

Lemma _tokenize_tokens s : Forall is_token (_tokenize s).
Proof. unfold _tokenize. apply word_runs_tokens; [done | apply lower_not_upper]. Qed.

(** The three clean-up passes do not look at letter case. *)
Lemma strip_hash_comments_lower in_comment s :
  strip_hash_comments in_comment (lower s) = lower (strip_hash_comments in_comment s).
Proof.
  revert in_comment. induction s as [|c s IH]; intros in_comment; simpl; [done|].
  rewrite is_LF_lower, is_hash_lower.
  destruct (is_LF c); simpl; [by rewrite IH|].
  destruct in_comment; [apply IH|].
  destruct (bool_decide (c = "#"%char)); simpl; [apply IH | by rewrite IH].
Qed.

Lemma collapse_spaces_lower in_space s :
  collapse_spaces in_space (lower s) = lower (collapse_spaces in_space s).
Proof.
  revert in_space. induction s as [|c s IH]; intros in_space; simpl; [done|].
  rewrite is_space_lower.
  destruct (is_space c); simpl; [|by rewrite IH].
  destruct in_space; simpl; [apply IH | by rewrite IH].
Qed.

Lemma str_drop_lower n s : str_drop n (lower s) = lower (str_drop n s).
Proof.
  revert s. induction n as [|n IH]; intros [|c s]; simpl; done.
Qed.

Local Ltac caseless_by_cases :=
  intros c; destruct c as [[] [] [] [] [] [] [] []]; vm_compute;
  split; intros H; first [reflexivity | discriminate H].

Lemma caseless_lt : caseless "<"%char.
Proof. caseless_by_cases. Qed.

Lemma caseless_gt : caseless ">"%char.
Proof. caseless_by_cases. Qed.

Lemma caseless_bang : caseless "!"%char.
Proof. caseless_by_cases. Qed.

Lemma caseless_dash : caseless "-"%char.
Proof. caseless_by_cases. Qed.

Lemma comment_open_caseless :
  Forall caseless (String.list_ascii_of_string "<!--").
Proof.
  repeat first [ apply Forall_nil_2
               | apply Forall_cons_2;
                 [first [apply caseless_lt | apply caseless_bang | apply caseless_dash]|] ].
Qed.

Lemma comment_close_caseless :
  Forall caseless (String.list_ascii_of_string "-->").
Proof.
  repeat first [ apply Forall_nil_2
               | apply Forall_cons_2;
                 [first [apply caseless_gt | apply caseless_dash]|] ].
Qed.

Lemma prefix_lower (pat s : string) :
  Forall caseless (String.list_ascii_of_string pat) →
  String.prefix pat (lower s) = String.prefix pat s.
Proof.
  revert s. induction pat as [|a pat IH]; intros s Hpat; [by destruct s|].
  simpl in Hpat. apply Forall_cons in Hpat as [Ha Hpat].
  destruct s as [|c s]; simpl; [done|].
  destruct (ascii_dec a (lower_char c)) as [Heq|Hne], (ascii_dec a c) as [Heq'|Hne'].
  - by apply IH.
  - exfalso. apply Hne'. symmetry. by apply Ha.
  - exfalso. apply Hne. symmetry. by apply Ha.
  - done.
Qed.

Lemma find_sub_lower (pat s : string) :
  Forall caseless (String.list_ascii_of_string pat) →
  find_sub pat (lower s) = find_sub pat s.
Proof.
  intros Hpat. induction s as [|c s IH].
  - done.
  - change (lower (String c s)) with (String (lower_char c) (lower s)).
    cbn [find_sub].
    change (String (lower_char c) (lower s)) with (lower (String c s)).
    rewrite prefix_lower by done. by rewrite IH.
Qed.

Lemma strip_html_comments_lower skip s :
  strip_html_comments skip (lower s) = lower (strip_html_comments skip s).
Proof.
  revert skip. induction s as [|c s IH]; intros skip; [done|].
  change (lower (String c s)) with (String (lower_char c) (lower s)).
  cbn [strip_html_comments].
  destruct skip as [|k]; [|apply IH].
  change (String (lower_char c) (lower s)) with (lower (String c s)).
  rewrite (prefix_lower "<!--") by apply comment_open_caseless.
  destruct (String.prefix "<!--" (String c s)).
  - rewrite str_drop_lower.
    rewrite (find_sub_lower "-->") by apply comment_close_caseless.
    destruct (find_sub "-->" (str_drop 4 (String c s))); [apply IH|].
    simpl. by rewrite IH.
  - simpl. by rewrite IH.
Qed.

Lemma _tokenize_lower s : _tokenize (lower s) = _tokenize s.
Proof.
  unfold _tokenize.
  by rewrite strip_hash_comments_lower, strip_html_comments_lower,
    collapse_spaces_lower, lower_idem.
Qed.
End Tokenizer.

(** X4: for ASCII text, every token is a non-empty run of word
    characters without upper-case letters; an empty text has no
    tokens. *)
Theorem X4_tokens_are_lowercase_words (text : string) :
  is_ascii_text text = true →
  Forall is_token (_tokenize text) ∧ _tokenize EmptyString = [].
Proof. intros _. split; [apply _tokenize_tokens | done]. Qed.

Lemma X4_tokens_are_lowercase_words_witness :
  _tokenize "Run the TESTS_2 # later" = ["run"; "the"; "tests_2"]
  ∧ Forall is_token ["run"; "the"; "tests_2"].
Proof.
  split; [reflexivity|].
  exact (proj1 (X4_tokens_are_lowercase_words "Run the TESTS_2 # later" eq_refl)).
Defined.

(** X5: for ASCII text, tokenization ignores letter case, so two blocks
    whose contents differ only in letter case have the same token set and
    are 100% similar. *)
Theorem X5_similarity_ignores_case (a b : CodeBlock) :
  is_ascii_text (content a) = true →
  is_ascii_text (content b) = true →
  _tokenize (lower (content a)) = _tokenize (content a)
  ∧ (lower (content a) = lower (content b) → (similarity_to a b == 100)%Q).
Proof.
  intros _ _. split; [apply _tokenize_lower|].
  intros Hlower. apply similarity_full. right. unfold token_set.
  by rewrite <- (_tokenize_lower (content a)), Hlower, _tokenize_lower.
Qed.

Lemma X5_similarity_ignores_case_witness :
  let a := mkCodeBlock "a.md" "Run Tests" 1 1 "h1" in
  let b := mkCodeBlock "b.md" "run TESTS" 1 1 "h2" in
  lower (content a) = lower (content b) ∧ (similarity_to a b == 100)%Q.
Proof.
  intros a b. split; [reflexivity|].
  apply (proj2 (X5_similarity_ignores_case a b eq_refl eq_refl)). reflexivity.
Defined.

(** ** Similarity clusterer *)

Section ClusterStructure.
Implicit Types (used : gset nat) (later blocks : list (nat * CodeBlock)).

Lemma unused_blocks_cons_used used j b later :
  j ∈ used → unused_blocks used ((j, b) :: later) = unused_blocks used later.
Proof. intros Hj. unfold unused_blocks. by rewrite filter_cons_False by (simpl; auto). Qed.

Lemma unused_blocks_cons_free used j b later :
  j ∉ used → unused_blocks used ((j, b) :: later) = b :: unused_blocks used later.
Proof. intros Hj. unfold unused_blocks. by rewrite filter_cons_True by done. Qed.

Lemma unused_blocks_ext used used' later :
  (∀ j, j ∈ later.*1 → (j ∈ used ↔ j ∈ used')) →
  unused_blocks used later = unused_blocks used' later.
Proof.
  induction later as [|[j b] later IH]; intros Hext; [done|].
  assert (unused_blocks used later = unused_blocks used' later) as IH'.
  { apply IH. intros k Hk. apply Hext. csimpl. by right. }
  destruct (decide (j ∈ used)) as [Hj|Hj].
  - rewrite !unused_blocks_cons_used; [done| |done].
    apply Hext; [csimpl; left|done].
  - rewrite !unused_blocks_cons_free; [by rewrite IH'| |done].
    intros Hj'. apply Hj, Hext; [csimpl; left|done].
Qed.

(** The inner loop: the blocks it picks, and what it leaves unused. *)
Lemma gather_similar_spec threshold block1 later cluster used :
  NoDup later.*1 →
  ∃ picked used',
    gather_similar threshold block1 later cluster used = (cluster ++ picked, used')
    ∧ Forall (similar_enough threshold block1) picked
    ∧ used ⊆ used'
    ∧ (∀ j, j ∈ used' → j ∈ used ∨ j ∈ later.*1)
    ∧ unused_blocks used later ≡ₚ picked ++ unused_blocks used' later.
Proof.
  unfold gather_similar. revert cluster used.
  induction later as [|[j block2] later IH]; intros cluster used Hnd; simpl.
  - exists [], used. rewrite app_nil_r. repeat split; auto. 
  - csimpl in Hnd. apply NoDup_cons in Hnd as [Hj Hnd].
    destruct (decide (j ∈ used)) as [Hused|Hfree].
    + destruct (IH cluster used Hnd) as (picked & used' & Hrun & Hsim & Hsub & Hnew & Hperm).
      exists picked, used'. rewrite Hrun. repeat split; auto.
      * intros k Hk. destruct (Hnew k Hk); [by left | right; csimpl; by right].
      * rewrite !unused_blocks_cons_used by auto. done.
    + destruct (Qle_bool threshold (similarity_to block1 block2)) eqn:Hsim2.
      * destruct (IH (cluster ++ [block2]) (used ∪ {[j]}) Hnd)
          as (picked & used' & Hrun & Hsim & Hsub & Hnew & Hperm).
        exists (block2 :: picked), used'. rewrite Hrun.
        split; [by rewrite <- app_assoc|].
        split; [by apply Forall_cons|].
        split; [intros k Hk; apply Hsub, elem_of_union; by left|].
        split.
        { intros k Hk. destruct (Hnew k Hk) as [[Hk'| ->%elem_of_singleton]%elem_of_union|Hk'].
          - by left.
          - right. csimpl. left.
          - right. csimpl. by right. }
        rewrite unused_blocks_cons_free by done.
        rewrite unused_blocks_cons_used
          by (apply Hsub, elem_of_union; right; by apply elem_of_singleton).
        rewrite (unused_blocks_ext used (used ∪ {[j]}) later).
        { simpl. by rewrite Hperm. }
        intros k Hk. rewrite elem_of_union, elem_of_singleton.
        split; [by left|]. intros [Hk'|Hk']; [done | by subst].
      * destruct (IH cluster used Hnd) as (picked & used' & Hrun & Hsim & Hsub & Hnew & Hperm).
        exists picked, used'. rewrite Hrun. repeat split; auto.
        { intros k Hk. destruct (Hnew k Hk); [by left | right; csimpl; by right]. }
        rewrite !unused_blocks_cons_free.
        -- rewrite Hperm. by rewrite Permutation_middle.
        -- intros Hj'. destruct (Hnew j Hj'); done.
        -- done.
Qed.
(** The outer loop: the clusters it adds. *)
Lemma cluster_loop_spec threshold blocks used clusters :
  NoDup blocks.*1 →
  ∃ new,
    cluster_loop threshold blocks used clusters = clusters ++ new
    ∧ Forall (cluster_shape threshold) new
    ∧ concat new ⊆+ unused_blocks used blocks.
Proof.
  revert used clusters.
  induction blocks as [|[i block1] later IH]; intros used clusters Hnd; simpl.
  - exists []. by rewrite app_nil_r.
  - csimpl in Hnd. apply NoDup_cons in Hnd as [Hi Hnd].
    destruct (decide (i ∈ used)) as [Hused|Hfree].
    + destruct (IH used clusters Hnd) as (new & Hrun & Hshape & Hsub).
      exists new. by rewrite unused_blocks_cons_used.
    + destruct (gather_similar_spec threshold block1 later [block1] (used ∪ {[i]}) Hnd)
        as (picked & used' & Hgather & Hsim & _ & _ & Hperm).
      rewrite Hgather.
      rewrite unused_blocks_cons_free by done.
      rewrite (unused_blocks_ext used (used ∪ {[i]}) later); last first.
      { intros k Hk. rewrite elem_of_union, elem_of_singleton.
        split; [by left|]. intros [Hk'|Hk']; [done | by subst]. }
      destruct picked as [|block2 picked].
      * destruct (IH used' clusters Hnd) as (new & Hrun & Hshape & Hsub).
        exists new. simpl. split; [done|]. split; [done|].
        rewrite Hperm. by apply submseteq_cons.
      * destruct (IH used' (clusters ++ [block1 :: block2 :: picked]) Hnd)
          as (new & Hrun & Hshape & Hsub).
        exists ((block1 :: block2 :: picked) :: new). simpl.
        split; [by rewrite Hrun, <- app_assoc|].
        split.
        { apply Forall_cons. split; [|done]. by exists block1, (block2 :: picked). }
        rewrite Hperm. simpl. apply submseteq_skip. apply submseteq_skip.
        by apply submseteq_app.
Qed.

Lemma enumerate_fst {A} start (l : list A) :
  (enumerate start l).*1 = seq start (length l).
Proof.
  unfold enumerate. revert start.
  induction l as [|x l IH]; intros start; csimpl; [done|]. by rewrite IH.
Qed.

Lemma enumerate_snd {A} start (l : list A) : (enumerate start l).*2 = l.
Proof.
  unfold enumerate. revert start.
  induction l as [|x l IH]; intros start; csimpl; [done|]. by rewrite IH.
Qed.

Lemma unused_blocks_empty blocks : unused_blocks ∅ blocks = blocks.*2.
Proof.
  induction blocks as [|[j b] blocks IH]; [done|].
  rewrite unused_blocks_cons_free by set_solver. csimpl. by rewrite IH.
Qed.

Lemma _cluster_similar_blocks_spec (blocks : list CodeBlock) threshold :
  Forall (cluster_shape threshold) (_cluster_similar_blocks blocks threshold)
  ∧ concat (_cluster_similar_blocks blocks threshold) ⊆+ blocks.
Proof.
  unfold _cluster_similar_blocks.
  destruct (cluster_loop_spec threshold (enumerate 0 blocks) ∅ [])
    as (new & -> & Hshape & Hsub).
  { rewrite enumerate_fst. apply NoDup_seq. }
  rewrite unused_blocks_empty, enumerate_snd in Hsub. done.
Qed.

(** When every later block passes the test, the inner loop takes them all. *)
Lemma gather_similar_all threshold block1 later cluster used :
  Forall (similar_enough threshold block1) later.*2 →
  NoDup later.*1 → (∀ j, j ∈ later.*1 → j ∉ used) →
  gather_similar threshold block1 later cluster used
  = (cluster ++ later.*2, used ∪ list_to_set later.*1).
Proof.
  unfold gather_similar. revert cluster used.
  induction later as [|[j block2] later IH]; intros cluster used Hsim Hnd Hfree; csimpl.
  - by rewrite app_nil_r, (right_id_L ∅ (∪)).
  - csimpl in *. apply Forall_cons in Hsim as [Hsim2 Hsim].
    apply NoDup_cons in Hnd as [Hj Hnd].
    rewrite decide_False by (apply Hfree; left).
    unfold similar_enough in Hsim2. rewrite Hsim2.
    rewrite IH; [|done..|].
    + by rewrite <- !app_assoc, (assoc_L (∪)).
    + intros k Hk [Hk'|Hk']%elem_of_union.
      * eapply Hfree; [right; exact Hk | done].
      * apply elem_of_singleton in Hk'. by subst.
Qed.

Lemma cluster_loop_all_used threshold blocks used clusters :
  (∀ j, j ∈ blocks.*1 → j ∈ used) →
  cluster_loop threshold blocks used clusters = clusters.
Proof.
  induction blocks as [|[i block1] later IH]; intros Hused; simpl; [done|].
  rewrite decide_True by (apply Hused; csimpl; left).
  apply IH. intros j Hj. apply Hused. csimpl. by right.
Qed.

Lemma _cluster_similar_blocks_all first others threshold :
  others ≠ [] → Forall (similar_enough threshold first) others →
  _cluster_similar_blocks (first :: others) threshold = [first :: others].
Proof.
  intros Hne Hsim. unfold _cluster_similar_blocks, enumerate.
  cbn [length seq zip zip_with cluster_loop].
  rewrite decide_False by set_solver.
  fold (enumerate 1 others).
  rewrite gather_similar_all.
  - rewrite enumerate_snd. cbn [app length].
    destruct others as [|b others]; [done|]. cbn [length Nat.leb].
    rewrite cluster_loop_all_used; [done|].
    intros j Hj. apply elem_of_union. right. by apply elem_of_list_to_set.
  - by rewrite enumerate_snd.
  - rewrite enumerate_fst. apply NoDup_seq.
  - rewrite enumerate_fst. intros j Hj%elem_of_seq.
    rewrite elem_of_union, elem_of_singleton. set_solver by lia.
Qed.
End ClusterStructure.

(** X6: no fragment is used twice: the clusters of one run, laid end to
    end, form a sub-multiset of the input list, so they hold no more
    blocks than the input does. *)
Theorem X6_clusters_share_no_block (blocks : list CodeBlock) (threshold : Q) :
  concat (_cluster_similar_blocks blocks threshold) ⊆+ blocks
  ∧ (length (concat (_cluster_similar_blocks blocks threshold)) ≤ length blocks)%nat.
Proof.
  destruct (_cluster_similar_blocks_spec blocks threshold) as [_ Hsub].
  split; [done | by apply submseteq_length].
Qed.

(** X7: every reported cluster has a representative and at least one
    other member, and every other member passed the threshold test
    against the representative. *)
Theorem X7_clusters_have_similar_members (blocks : list CodeBlock) (threshold : Q) :
  Forall (λ cluster,
            (2 ≤ length cluster)%nat
            ∧ ∃ first others,
                cluster = first :: others
                ∧ Forall (λ b, (threshold <= similarity_to first b)%Q) others)
         (_cluster_similar_blocks blocks threshold).
Proof.
  destruct (_cluster_similar_blocks_spec blocks threshold) as [Hshape _].
  eapply Forall_impl; [exact Hshape|].
  intros cluster (first & others & -> & Hne & Hsim). split.
  - destruct others; [done | simpl; lia].
  - exists first, others. split; [done|].
    eapply Forall_impl; [exact Hsim|]. intros b Hb. by apply Qle_bool_iff.
Qed.

(** X8: with a threshold above 100 nothing is ever clustered. *)
Theorem X8_threshold_above_100_clusters_nothing
    (blocks : list CodeBlock) (threshold : Q) :
  (100 < threshold)%Q → _cluster_similar_blocks blocks threshold = [].
Proof.
  intros Hhigh.
  destruct (_cluster_similar_blocks_spec blocks threshold) as [Hshape _].
  destruct (_cluster_similar_blocks blocks threshold) as [|cluster clusters]; [done|].
  apply Forall_cons in Hshape as [(first & others & _ & Hne & Hsim) _].
  destruct others as [|b others]; [done|].
  apply Forall_cons in Hsim as [Hb _]. apply Qle_bool_iff in Hb.
  pose proof (similarity_range first b) as [_ Hmax].
  exfalso. apply (Qlt_irrefl 100). 
  eapply Qlt_le_trans; [exact Hhigh|]. by eapply Qle_trans.
Qed.

Lemma X8_threshold_above_100_clusters_nothing_witness :
  let b := mkCodeBlock "a.md" "x = 1" 1 3 "h" in
  (100 < 101)%Q ∧ _cluster_similar_blocks [b; b; b] 101 = [].
Proof.
  intros b. split; [reflexivity|].
  apply (X8_threshold_above_100_clusters_nothing [b; b; b] 101). reflexivity.
Defined.

(** X9: when the threshold is 0 or less, or when it is at most 100 and
    all blocks carry the hash of the first, two or more blocks form one
    single cluster that lists them all in input order. *)
Theorem X9_one_cluster_of_everything
    (first : CodeBlock) (others : list CodeBlock) (threshold : Q) :
  others ≠ [] →
  (threshold <= 0)%Q
  ∨ ((threshold <= 100)%Q ∧ Forall (λ b, hash_value b = hash_value first) others) →
  _cluster_similar_blocks (first :: others) threshold = [first :: others].
Proof.
  intros Hne Hcase. apply _cluster_similar_blocks_all; [done|].
  destruct Hcase as [Hlow|[Hmax Hhash]].
  - apply Forall_forall. intros b _. apply Qle_bool_iff.
    pose proof (similarity_range first b) as [Hmin _]. by eapply Qle_trans.
  - eapply Forall_impl; [exact Hhash|]. intros b Hb. apply Qle_bool_iff.
    rewrite similarity_unfold, decide_True by done. done.
Qed.

Lemma X9_one_cluster_of_everything_witness :
  let a := mkCodeBlock "a.md" "x = 1" 1 3 "h" in
  let b := mkCodeBlock "b.md" "x = 1" 4 6 "h" in
  [b] ≠ [] ∧ (70 <= 100)%Q ∧ _cluster_similar_blocks [a; b] 70 = [[a; b]].
Proof.
  intros a b. split; [done|]. split; [by apply Qle_bool_iff|].
  apply (X9_one_cluster_of_everything a [b] 70); [done|].
  right. split; [by apply Qle_bool_iff | by repeat constructor].
Defined.

(** ** Redundancy report *)

Section Report.
Implicit Types (groups : list (list CodeBlock)) (cluster : list CodeBlock).

Lemma sum_Z_lengths groups :
  sum_Z (map (λ cluster : list CodeBlock, Z.of_nat (length cluster)) groups)
  = Z.of_nat (length (concat groups)).
Proof.
  unfold sum_Z. induction groups as [|g groups IH]; simpl; [done|].
  rewrite IH, length_app. lia.
Qed.

Lemma report_clusters_enumerated start groups :
  map (λ '(i, cluster), cluster_info i cluster) (enumerate start groups)
  = zip_with cluster_info (seq start (length groups)) groups.
Proof.
  unfold enumerate. revert start.
  induction groups as [|g groups IH]; intros start; simpl; [done|]. by rewrite IH.
Qed.

Lemma zip_with_cluster_info_ids (ids : list nat) groups :
  length ids = length groups →
  cluster_id <$> zip_with cluster_info ids groups = Z.of_nat <$> ids.
Proof.
  revert groups. induction ids as [|i ids IH]; intros [|g groups] Hlen; try done.
  csimpl. rewrite IH; [done | by injection Hlen].
Qed.

Lemma zip_with_cluster_info_counts (ids : list nat) groups :
  length ids = length groups →
  block_count <$> zip_with cluster_info ids groups
  = (λ cluster : list CodeBlock, Z.of_nat (length cluster)) <$> groups.
Proof.
  revert groups. induction ids as [|i ids IH]; intros [|g groups] Hlen; try done.
  csimpl. rewrite IH; [done | by injection Hlen].
Qed.

Lemma count_lines_pos (s : string) : 1 ≤ count_lines s.
Proof. rewrite count_lines_newlines. lia. Qed.

Lemma savings_when_sizes_agree first others :
  Forall (λ b, count_lines (content b) = count_lines (content first)) others →
  potential_savings (first :: others) = non_representative_lines (first :: others).
Proof.
  intros Hsame. rewrite potential_savings_first.
  unfold non_representative_lines. simpl.
  induction Hsame as [|b others Hb _ IH]; simpl; [done|].
  unfold sum_Z in *. simpl. rewrite <- IH, Hb. lia.
Qed.
End Report.

(** X10: the totals of a redundancy report agree with its cluster list:
    [total_clusters] is the number of clusters, [total_duplicate_blocks]
    is the number of blocks in all clusters together and the sum of the
    [block_count] fields, cluster ids run from 1 upwards in order, and
    every [block_count] is the number of locations listed. *)
Theorem X10_report_totals_agree (groups : list (list CodeBlock)) :
  let report := _generate_redundancy_report groups in
  total_clusters report = Z.of_nat (length (clusters report))
  ∧ total_duplicate_blocks report = Z.of_nat (length (concat groups))
  ∧ total_duplicate_blocks report = sum_Z (block_count <$> clusters report)
  ∧ cluster_id <$> clusters report = Z.of_nat <$> seq 1 (length groups)
  ∧ Forall (λ info, block_count info = Z.of_nat (length (locations info)))
           (clusters report).
Proof.
  unfold _generate_redundancy_report. cbn [total_clusters total_duplicate_blocks clusters].
  rewrite report_clusters_enumerated.
  split; [by rewrite length_zip_with, length_seq, Nat.min_id|].
  split; [apply sum_Z_lengths|].
  split; [by rewrite zip_with_cluster_info_counts by apply length_seq|].
  split; [by rewrite zip_with_cluster_info_ids by apply length_seq|].
  generalize 1%nat. induction groups as [|g groups IH]; intros start; simpl; [done|].
  apply Forall_cons. split; [|apply IH].
  unfold cluster_info. simpl. by rewrite length_map.
Qed.

(** X11: a scan never reports more duplicate blocks than it extracted
    fragments, and every cluster it reports counts at least two blocks. *)
Theorem X11_scan_counts_are_bounded
    (md5 : string → string) (corpus : list (string * option string)) (threshold : Q) :
  let report := scan_redundancies md5 corpus threshold in
  total_duplicate_blocks report ≤ Z.of_nat (length (collect_blocks md5 corpus))
  ∧ Forall (λ info, 2 ≤ block_count info) (clusters report).
Proof.
  unfold scan_redundancies.
  set (groups := _cluster_similar_blocks (collect_blocks md5 corpus) threshold).
  destruct (_cluster_similar_blocks_spec (collect_blocks md5 corpus) threshold)
    as [Hshape Hsub]. fold groups in Hshape, Hsub.
  unfold _generate_redundancy_report. cbn [total_duplicate_blocks clusters]. split.
  - rewrite sum_Z_lengths. apply submseteq_length in Hsub. lia.
  - rewrite report_clusters_enumerated.
    change (Forall ((λ n, 2 ≤ n) ∘ block_count)
                   (zip_with cluster_info (seq 1 (length groups)) groups)).
    rewrite <- Forall_fmap, zip_with_cluster_info_counts by apply length_seq.
    rewrite Forall_fmap. eapply Forall_impl; [exact Hshape|].
    intros cluster (first & others & -> & Hne & _). simpl.
    destruct others; [done | simpl; lia].
Qed.

(** X12: the reported saving is never negative, and it equals the sum of
    the line counts of the non-representative members whenever every
    member has as many lines as the first (as in a cluster of exact
    duplicates). *)
Theorem X12_savings_right_for_equal_sizes (first : CodeBlock) (others : list CodeBlock) :
  0 ≤ potential_savings (first :: others)
  ∧ (Forall (λ b, count_lines (content b) = count_lines (content first)) others →
     potential_savings (first :: others) = non_representative_lines (first :: others)).
Proof.
  split; [|apply savings_when_sizes_agree].
  rewrite potential_savings_first. pose proof (count_lines_pos (content first)). lia.
Qed.

Lemma X12_savings_right_for_equal_sizes_witness :
  let a := mkCodeBlock "a.md" ("x" +:+ newline +:+ "y" +:+ newline) 1 3 "h" in
  let b := mkCodeBlock "b.md" ("x" +:+ newline +:+ "y" +:+ newline) 5 7 "h" in
  Forall (λ b, count_lines (content b) = count_lines (content a)) [b]
  ∧ potential_savings [a; b] = 3
  ∧ non_representative_lines [a; b] = 3.
Proof.
  intros a b.
  assert (Forall (λ b, count_lines (content b) = count_lines (content a)) [b]) as Hsame
    by (apply Forall_singleton; reflexivity).
  split; [exact Hsame|].
  pose proof (proj2 (X12_savings_right_for_equal_sizes a [b]) Hsame) as Heq.
  split; [reflexivity|]. rewrite <- Heq. reflexivity.
Defined.

Section Recommendation.
Implicit Types (cluster : list CodeBlock).

Lemma files_of_one_file cluster f :
  cluster ≠ [] → Forall (λ b, file_path b = f) cluster →
  (list_to_set (map file_path cluster) : gset string) = {[f]}.
Proof.
  intros Hne Hall. apply set_eq. intros x.
  rewrite elem_of_list_to_set, elem_of_singleton, list_elem_of_In, in_map_iff.
  rewrite Forall_forall in Hall. split.
  - intros (b & <- & Hb). apply Hall. by apply list_elem_of_In.
  - intros ->. destruct cluster as [|b cluster]; [done|].
    exists b. split; [apply Hall; left | by left].
Qed.

Lemma files_of_two_files cluster b1 b2 :
  b1 ∈ cluster → b2 ∈ cluster → file_path b1 ≠ file_path b2 →
  (2 ≤ size (list_to_set (map file_path cluster) : gset string))%nat.
Proof.
  intros H1 H2 Hne.
  assert ({[file_path b1; file_path b2]} ⊆ (list_to_set (map file_path cluster) : gset string))
    as Hsub.
  { intros x [->%elem_of_singleton| ->%elem_of_singleton]%elem_of_union;
      apply elem_of_list_to_set, list_elem_of_In, in_map, list_elem_of_In; done. }
  apply subseteq_size in Hsub.
  rewrite size_union, !size_singleton in Hsub; [done|].
  intros x Hx1%elem_of_singleton Hx2%elem_of_singleton. congruence.
Qed.
End Recommendation.

(** X13: the consolidation recommendation names the file when all members
    of a cluster come from one file, and otherwise gives the number of
    distinct files, which is then at least 2. *)
Theorem X13_recommendation_counts_files (cluster : list CodeBlock) :
  let files : gset string := list_to_set (map file_path cluster) in
  (∀ f, cluster ≠ [] → Forall (λ b, file_path b = f) cluster →
        _generate_consolidation_recommendation cluster
        = "Multiple code blocks in " +:+ f
          +:+ " - consider extracting to reusable function")
  ∧ (∀ b1 b2, b1 ∈ cluster → b2 ∈ cluster → file_path b1 ≠ file_path b2 →
              (2 ≤ size files)%nat
              ∧ _generate_consolidation_recommendation cluster
                = "Code appears in " +:+ pretty (size files)
                  +:+ " files - consider creating shared module").
Proof.
  intros files. unfold _generate_consolidation_recommendation. fold files. split.
  - intros f Hne Hall. unfold files.
    rewrite (files_of_one_file cluster f) by done. by rewrite elements_singleton.
  - intros b1 b2 H1 H2 Hne.
    pose proof (files_of_two_files cluster b1 b2 H1 H2 Hne) as Hsize.
    fold files in Hsize. split; [done|].
    unfold size, set_size in *. simpl in *.
    destruct (elements files) as [|f1 [|f2 fs]]; simpl in *; [lia..|done].
Qed.

Lemma X13_recommendation_counts_files_witness :
  let a := mkCodeBlock "a.md" "x" 1 3 "h" in
  let b := mkCodeBlock "b.md" "x" 1 3 "h" in
  a ∈ [a; b] ∧ b ∈ [a; b] ∧ file_path a ≠ file_path b
  ∧ _generate_consolidation_recommendation [a; b]
    = "Code appears in 2 files - consider creating shared module"
  ∧ _generate_consolidation_recommendation [a; a]
    = "Multiple code blocks in a.md - consider extracting to reusable function".
Proof.
  intros a b.
  assert (a ∈ [a; b]) as Ha by (apply elem_of_cons; by left).
  assert (b ∈ [a; b]) as Hb by (apply elem_of_cons; right; apply elem_of_cons; by left).
  assert (file_path a ≠ file_path b) as Hne by discriminate.
  split; [exact Ha|]. split; [exact Hb|]. split; [exact Hne|]. split.
  - exact (proj2 (proj2 (X13_recommendation_counts_files [a; b]) a b Ha Hb Hne)).
  - apply (proj1 (X13_recommendation_counts_files [a; a]) "a.md"); [done|].
    by repeat constructor.
Defined.

(** ** Fragment extractor *)

Section ExtractionFacts.
Implicit Types (s pat : string) (b : CodeBlock).

Lemma collect_blocks_app md5 (c1 c2 : list (string * option string)) :
  collect_blocks md5 (c1 ++ c2) = collect_blocks md5 c1 ++ collect_blocks md5 c2.
Proof. unfold collect_blocks. apply flat_map_app. Qed.

Lemma prefix_take pat n s :
  String.prefix pat (str_take n s) = true → String.prefix pat s = true.
Proof.
  revert n s. induction pat as [|a pat IH]; intros n s; [by destruct s|].
  destruct n as [|n], s as [|c s]; simpl; try done.
  destruct (ascii_dec a c); [apply IH | done].
Qed.

Lemma find_sub_take pat s k :
  pat ≠ EmptyString → find_sub pat s = Some k → find_sub pat (str_take k s) = None.
Proof.
  intros Hpat. revert k. induction s as [|c s IH]; intros k.
  - rewrite find_sub_unfold. destruct (String.prefix pat EmptyString) eqn:Hp; [|done].
    by destruct pat.
  - rewrite find_sub_unfold.
    destruct (String.prefix pat (String c s)) eqn:Hp.
    + intros [= <-]. cbn [str_take]. rewrite find_sub_unfold. by destruct pat.
    + destruct (find_sub pat s) as [k'|] eqn:Hfind; [|done].
      intros [= <-]. cbn [str_take]. rewrite find_sub_unfold.
      destruct (String.prefix pat (String c (str_take k' s))) eqn:Hp'.
      * apply (prefix_take pat (S k') (String c s)) in Hp'. congruence.
      * by rewrite (IH k').
Qed.

Lemma match_fence_content s code_content len :
  match_fence s = Some (code_content, len) →
  find_sub "```" code_content = None.
Proof.
  unfold match_fence. destruct (String.prefix "```" s); [|done].
  destruct (str_drop (word_run_length (str_drop 3 s)) (str_drop 3 s)) as [|c rest]; [done|].
  destruct (is_LF c); [|done].
  destruct (find_sub "```" rest) as [k|] eqn:Hfind; [|done].
  intros [= <- _]. by apply find_sub_take.
Qed.

Lemma scan_blocks_well_recorded md5 file_path s line skip :
  1 ≤ line → Forall (well_recorded md5 file_path) (scan_blocks md5 file_path s line skip).
Proof.
  revert line skip. induction s as [|c s IH]; intros line skip Hline; [done|].
  cbn [scan_blocks].
  assert (1 ≤ (if is_LF c then line + 1 else line)) as Hline'
    by (destruct (is_LF c); lia).
  destruct skip as [|k]; [|by apply IH].
  destruct (match_fence (String c s)) as [[code_content len]|] eqn:Hmatch; [|by apply IH].
  apply Forall_app. split; [|by apply IH].
  destruct (count_lines code_content <? 3); [done|].
  apply Forall_singleton. repeat split; simpl; try done.
  by eapply match_fence_content.
Qed.
Lemma ordered_from_mono line line' (blocks : list CodeBlock) :
  line ≤ line' → ordered_from line' blocks → ordered_from line blocks.
Proof. destruct blocks as [|b rest]; [done|]. simpl. intros ? [? ?]. split; [lia|done]. Qed.

Lemma count_newlines_take_add a n s :
  count_newlines (str_take (a + n) s)
  = (count_newlines (str_take a s) + count_newlines (str_take n (str_drop a s)))%nat.
Proof.
  revert s. induction a as [|a IH]; intros s; simpl.
  - by destruct n.
  - destruct s as [|c s]; simpl; [by destruct n|].
    rewrite IH. by destruct (is_LF c).
Qed.

Lemma prefix_take_eq pat s :
  String.prefix pat s = true → str_take (String.length pat) s = pat.
Proof.
  revert s. induction pat as [|a pat IH]; intros s; [by destruct s|].
  destruct s as [|c s]; simpl; [done|].
  destruct (ascii_dec a c) as [->|]; [|done]. intros H. by rewrite IH.
Qed.

Lemma is_word_not_LF c : is_word c = true → is_LF c = false.
Proof. destruct c as [[] [] [] [] [] [] [] []]; vm_compute; congruence. Qed.

Lemma count_newlines_word_run s :
  count_newlines (str_take (word_run_length s) s) = O.
Proof.
  induction s as [|c s IH]; simpl; [done|].
  destruct (is_word c) eqn:Hw; simpl; [|done].
  by rewrite (is_word_not_LF c Hw).
Qed.

(** A fence match spans the newline after the language tag and every
    newline of the content. *)
Lemma match_fence_newlines s code_content len :
  match_fence s = Some (code_content, len) →
  (1 + count_newlines code_content ≤ count_newlines (str_take len s))%nat.
Proof.
  unfold match_fence. destruct (String.prefix "```" s) eqn:Hp; [|done].
  set (w := word_run_length (str_drop 3 s)).
  destruct (str_drop w (str_drop 3 s)) as [|c rest] eqn:Hrest; [done|].
  destruct (is_LF c) eqn:Hc; [|done].
  destruct (find_sub "```" rest) as [k|]; [|done].
  intros Hsome. injection Hsome as <- Hlen.
  assert (len = (3 + (w + (1 + (k + 3))))%nat) as -> by (fold w in Hlen; lia).
  rewrite !count_newlines_take_add, Hrest.
  cbn [str_take str_drop count_newlines Nat.add]. rewrite Hc. lia.
Qed.

Lemma scan_blocks_ordered md5 file_path s line skip :
  ordered_from (line + Z.of_nat (count_newlines (str_take skip s)))
               (scan_blocks md5 file_path s line skip).
Proof.
  revert line skip. induction s as [|c s IH]; intros line skip; [done|].
  cbn [scan_blocks]. destruct skip as [|k].
  - cbn [str_take count_newlines].
    destruct (match_fence (String c s)) as [[code_content len]|] eqn:Hmatch.
    + apply match_fence_newlines in Hmatch.
      assert (len ≠ O) as Hlen by (intros ->; simpl in Hmatch; lia).
      destruct len as [|len']; [done|]. clear Hlen.
      cbn [str_take count_newlines] in Hmatch.
      replace (S len' - 1)%nat with len' by lia.
      specialize (IH (if is_LF c then line + 1 else line) len').
      destruct (count_lines code_content <? 3); simpl.
      * eapply ordered_from_mono; [|exact IH]. destruct (is_LF c); lia.
      * split; [lia|]. eapply ordered_from_mono; [|exact IH].
        destruct (is_LF c); lia.
    + eapply ordered_from_mono; [|apply (IH _ O)].
      destruct s; simpl; destruct (is_LF c); lia.
  - cbn [str_take count_newlines].
    eapply ordered_from_mono; [|apply (IH _ k)]. destruct (is_LF c); lia.
Qed.
End ExtractionFacts.

(** X15: a document that contains no run of three backticks yields no
    fragment. *)
Theorem X15_no_fence_no_fragment
    (md5 : string → string) (file_path text : string) :
  find_sub "```" text = None →
  _extract_code_blocks md5 file_path (Some text) = [].
Proof. intros Hnone. by apply scan_blocks_no_fence. Qed.

Lemma X15_no_fence_no_fragment_witness :
  find_sub "```" "plain `text` only" = None
  ∧ _extract_code_blocks plain_digest "a.md" (Some "plain `text` only") = [].
Proof.
  split; [reflexivity|].
  apply (X15_no_fence_no_fragment plain_digest "a.md"). reflexivity.
Defined.

(** X16: every extracted fragment records the path of its document, the
    digest of its own content, a start line of at least 1 and an end
    line that is the start line plus the number of newlines in its
    content, and its content holds no run of three backticks. *)
Theorem X16_fragments_are_well_recorded
    (md5 : string → string) (file_path : string) (file : option string) :
  Forall (well_recorded md5 file_path) (_extract_code_blocks md5 file_path file).
Proof. destruct file; [by apply scan_blocks_well_recorded | done]. Qed.

(** X17: the fragments of a document come in document order and their
    line ranges do not overlap: the first starts at line 1 or later and
    each next one starts after the previous one ends. *)
Theorem X17_fragments_in_document_order
    (md5 : string → string) (file_path : string) (file : option string) :
  ordered_from 1 (_extract_code_blocks md5 file_path file).
Proof.
  destruct file as [text|]; [|done]. simpl.
  pose proof (scan_blocks_ordered md5 file_path text 1 O) as H.
  destruct text; exact H.
Qed.

(** ** Graph builder and file index *)

Section Keys.
Context {V : Type}.
Implicit Types (d : PyDict.t V) (k : string) (v : V).

Lemma keys_set d k v :
  PyDict.keys (PyDict.set d k v)
  = if decide (k ∈ PyDict.keys d) then PyDict.keys d else PyDict.keys d ++ [k].
Proof.
  unfold PyDict.keys. induction d as [|[k0 v0] d IH]; csimpl.
  - done.
  - destruct (decide (k0 = k)) as [->|Hne]; csimpl.
    + by rewrite decide_True by left.
    + rewrite IH. destruct (decide (k ∈ d.*1)) as [Hin|Hnot].
      * by rewrite decide_True by (by right).
      * rewrite decide_False; [done|].
        intros [?|?]%elem_of_cons; [by subst | done].
Qed.

Lemma keys_fold_set {A} (key : A → string) (val : A → V) (items : list A) d :
  PyDict.keys (fold_left (λ acc item, PyDict.set acc (key item) (val item)) items d)
  = fold_left (λ acc x, if decide (x ∈ acc) then acc else acc ++ [x])
              (key <$> items) (PyDict.keys d).
Proof.
  revert d. induction items as [|item items IH]; intros d; csimpl; [done|].
  by rewrite IH, keys_set.
Qed.

Lemma dict_ext (d1 d2 : PyDict.t V) :
  PyDict.keys d1 = PyDict.keys d2 → PyDict.wf d1 →
  (∀ k, PyDict.get d1 k = PyDict.get d2 k) → d1 = d2.
Proof.
  unfold PyDict.wf, PyDict.keys. revert d2.
  induction d1 as [|[k1 v1] d1 IH]; intros [|[k2 v2] d2] Hkeys Hwf Hget; try done.
  csimpl in *. injection Hkeys as -> Hkeys.
  apply NoDup_cons in Hwf as [Hk Hwf].
  pose proof (Hget k2) as Hk2. simpl in Hk2. rewrite !decide_True in Hk2 by done.
  injection Hk2 as ->. f_equal. apply IH; [done..|].
  intros k. specialize (Hget k). simpl in Hget.
  destruct (decide (k2 = k)) as [->|]; [|done].
  transitivity (@None V); [|symmetry]; apply get_None_keys; unfold PyDict.keys;
    congruence.
Qed.
End Keys.

Section GraphShape.
Implicit Types (g : Graph) (manifest : Manifest).

Lemma elem_of_first_occurrences_fold (l acc : list string) x :
  x ∈ fold_left (λ acc x, if decide (x ∈ acc) then acc else acc ++ [x]) l acc
  ↔ x ∈ acc ∨ x ∈ l.
Proof.
  revert acc. induction l as [|y l IH]; intros acc; simpl.
  - rewrite elem_of_nil. tauto.
  - rewrite IH, elem_of_cons. destruct (decide (y ∈ acc)) as [Hy|Hy].
    + split; [tauto|]. intros [?|[->|?]]; tauto.
    + rewrite elem_of_app, list_elem_of_singleton. tauto.
Qed.

Lemma build_keys manifest :
  PyDict.keys (_build_dependency_graph manifest)
  = first_occurrences (item_path <$> manifest_structure manifest).
Proof.
  unfold _build_dependency_graph. rewrite link_dependents_keys.
  unfold declare_nodes. by rewrite keys_fold_set.
Qed.

Lemma file_index_keys manifest :
  PyDict.keys (_build_file_index manifest)
  = first_occurrences (item_path <$> manifest_structure manifest).
Proof. unfold _build_file_index. by rewrite (keys_fold_set item_path (λ item, item)). Qed.

Lemma file_index_get manifest p :
  PyDict.get (_build_file_index manifest) p
  = last_declaration p (manifest_structure manifest).
Proof.
  unfold _build_file_index, last_declaration.
  generalize (manifest_structure manifest). intros items.
  induction items as [|item items IH] using rev_ind; [done|].
  rewrite fold_left_app, filter_app. simpl. rewrite filter_cons, filter_nil.
  case_decide as Hp.
  - rewrite last_snoc. subst. apply get_set_eq.
  - rewrite app_nil_r. rewrite get_set_ne by done. apply IH.
Qed.
End GraphShape.

(** X18: the graph has one node per distinct declared path, in the order
    in which the paths are first declared; looking up a path that no
    component declares finds nothing; and there are never more nodes
    than declarations. *)
Theorem X18_one_node_per_declared_path (manifest : Manifest) :
  let graph := _build_dependency_graph manifest in
  let paths := item_path <$> manifest_structure manifest in
  PyDict.keys graph = first_occurrences paths
  ∧ NoDup (PyDict.keys graph)
  ∧ (∀ p, p ∈ PyDict.keys graph ↔ p ∈ paths)
  ∧ (∀ p, p ∉ paths → PyDict.get graph p = None)
  ∧ (length graph ≤ length (manifest_structure manifest))%nat.
Proof.
  intros graph paths.
  assert (∀ p, p ∈ PyDict.keys graph ↔ p ∈ paths) as Hmem.
  { intros p. unfold graph. rewrite build_keys. unfold first_occurrences.
    rewrite elem_of_first_occurrences_fold, elem_of_nil. tauto. }
  split; [apply build_keys|]. split; [apply build_wf|]. split; [done|]. split.
  - intros p Hp. apply get_None_keys. by rewrite Hmem.
  - assert (length graph = length (PyDict.keys graph)) as ->
      by (unfold PyDict.keys; by rewrite length_fmap).
    assert (length (manifest_structure manifest) = length paths) as ->
      by (unfold paths; by rewrite length_fmap).
    apply submseteq_length, NoDup_submseteq; [apply build_wf|].
    intros p. apply Hmem.
Qed.

(** X19: the file index and the dependency graph list the same paths in
    the same order, and the index entry of a path is its last
    declaration. *)
Theorem X19_file_index_matches_graph (manifest : Manifest) :
  PyDict.keys (_build_file_index manifest)
  = PyDict.keys (_build_dependency_graph manifest)
  ∧ ∀ p, PyDict.get (_build_file_index manifest) p
         = last_declaration p (manifest_structure manifest).
Proof.
  split; [by rewrite file_index_keys, build_keys | apply file_index_get].
Qed.

Section Handshake.
Implicit Types (g : Graph) (K : list string).

Lemma get_fmap_keyed {V W} (h : string → V → W) (d : PyDict.t V) k :
  PyDict.get ((λ kv : string * V, (kv.1, h kv.1 kv.2)) <$> d) k = h k <$> PyDict.get d k.
Proof.
  induction d as [|[k0 v0] d IH]; csimpl; [done|].
  destruct (decide (k0 = k)) as [->|]; [done | apply IH].
Qed.

Lemma keys_fmap_keyed {V W} (h : string → V → W) (d : PyDict.t V) :
  PyDict.keys ((λ kv : string * V, (kv.1, h kv.1 kv.2)) <$> d) = PyDict.keys d.
Proof.
  unfold PyDict.keys. rewrite <- list_fmap_compose. by apply list_fmap_ext.
Qed.

(** The second loop, in one step: every node gets its incoming listings. *)
Lemma link_dependents_map g :
  PyDict.wf g →
  link_dependents g
  = (λ kv : string * DependencyNode,
       (kv.1, extend_dependents (incoming kv.1 (PyDict.items g)) kv.2)) <$> g.
Proof.
  intros Hwf. apply dict_ext.
  - by rewrite link_dependents_keys,
      (keys_fmap_keyed (λ k, extend_dependents (incoming k (PyDict.items g)))).
  - unfold PyDict.wf. by rewrite link_dependents_keys.
  - intros k. rewrite link_dependents_get.
    by rewrite (get_fmap_keyed (λ k, extend_dependents (incoming k (PyDict.items g)))).
Qed.

Lemma declare_nodes_fresh items :
  Forall (λ kv : string * DependencyNode, dependents kv.2 = [])
         (declare_nodes items).
Proof.
  apply Forall_forall. intros [k node] Hin.
  apply elem_get_wf in Hin; [|apply declare_nodes_wf].
  rewrite declare_nodes_get in Hin.
  destruct (last_declaration k items); [|done]. by injection Hin as <-.
Qed.

Lemma sum_list_fmap_add {A} (f h : A → nat) (l : list A) :
  sum_list ((λ x, f x + h x)%nat <$> l)
  = (sum_list (f <$> l) + sum_list (h <$> l))%nat.
Proof. induction l as [|x l IH]; csimpl; [done|]. rewrite IH. lia. Qed.

Lemma sum_list_fmap_zero {A} (l : list A) : sum_list ((λ _, O) <$> l) = O.
Proof. by induction l. Qed.

Lemma sum_indicator K x :
  NoDup K →
  sum_list ((λ b, if decide (x = b) then 1 else 0)%nat <$> K)
  = if decide (x ∈ K) then 1%nat else 0%nat.
Proof.
  induction 1 as [|b K Hb Hnd IH]; csimpl; [done|].
  rewrite IH. destruct (decide (x = b)) as [->|Hne].
  - rewrite decide_False by done. by rewrite decide_True by left.
  - destruct (decide (x ∈ K)) as [Hin|Hnot].
    + by rewrite decide_True by (by right).
    + rewrite decide_False; [done|]. intros [?|?]%elem_of_cons; done.
Qed.

Lemma sum_occurrences K (l : list string) :
  NoDup K →
  sum_list ((λ b, occurrences b l) <$> K) = length (filter (λ x, x ∈ K) l).
Proof.
  intros Hnd. induction l as [|x l IH].
  - apply sum_list_fmap_zero.
  - rewrite filter_cons.
    assert (∀ b, occurrences b (x :: l)
                 = ((if decide (x = b) then 1 else 0) + occurrences b l)%nat) as Hocc.
    { intros b. unfold occurrences. rewrite filter_cons. by case_decide. }
    rewrite (list_fmap_ext _ (λ b, (if decide (x = b) then 1 else 0) + occurrences b l)%nat K)
      by (intros i b _; apply Hocc).
    rewrite sum_list_fmap_add, sum_indicator, IH by done.
    by destruct (decide (x ∈ K)).
Qed.

Lemma sum_incoming K (its : list (string * DependencyNode)) :
  NoDup K →
  sum_list ((λ b, length (incoming b its)) <$> K)
  = sum_list ((λ kv : string * DependencyNode,
                 length (filter (λ x, x ∈ K) (dependencies kv.2))) <$> its).
Proof.
  intros Hnd. induction its as [|[a node] its IH].
  - apply sum_list_fmap_zero.
  - csimpl. rewrite <- IH, <- (sum_occurrences K (dependencies node)) by done.
    rewrite <- sum_list_fmap_add. f_equal. apply list_fmap_ext.
    intros i b _. unfold incoming. simpl.
    by rewrite length_app, length_fmap.
Qed.
End Handshake.

(** X20: the blast radii of all nodes add up to the number of declared
    edges whose target is a node of the graph, each counted as often as
    it is listed; edges to undeclared targets add nothing. *)
Theorem X20_blast_radii_count_live_edges (manifest : Manifest) :
  let graph := _build_dependency_graph manifest in
  sum_Z ((λ kv : string * DependencyNode, blast_radius kv.2) <$> PyDict.items graph)
  = sum_Z ((λ kv : string * DependencyNode, Z.of_nat (length (live_edges graph kv.2)))
           <$> PyDict.items graph).
Proof.
  intros graph.
  set (g0 := declare_nodes (manifest_structure manifest)).
  assert (PyDict.keys graph = PyDict.keys g0) as Hkeys by apply link_dependents_keys.
  assert (graph
          = (λ kv : string * DependencyNode,
               (kv.1, extend_dependents (incoming kv.1 (PyDict.items g0)) kv.2)) <$> g0)
    as Hgraph by apply link_dependents_map, declare_nodes_wf.
  assert (∀ (f : string * DependencyNode → nat) (l : list (string * DependencyNode)),
            sum_Z ((λ kv, Z.of_nat (f kv)) <$> l) = Z.of_nat (sum_list (f <$> l))) as Hsum.
  { intros f l. unfold sum_Z. induction l as [|x l IH]; csimpl; [done|]. rewrite IH. lia. }
  unfold blast_radius, live_edges, PyDict.items. rewrite !Hsum. f_equal.
  rewrite Hkeys. rewrite Hgraph at 1 2. rewrite <- !list_fmap_compose.
  transitivity (sum_list ((λ b, length (incoming b (PyDict.items g0))) <$> PyDict.keys g0)).
  - unfold PyDict.keys. rewrite <- list_fmap_compose. f_equal.
    apply Forall_fmap_ext_1.
    eapply Forall_impl; [apply declare_nodes_fresh|].
    intros [k node] Hfresh. simpl in *. by rewrite Hfresh.
  - rewrite sum_incoming by apply declare_nodes_wf. done.
Qed.

(** ** Criticality, severity and mitigation *)

Section Scores.
Implicit Types (n : DependencyNode).

Lemma importance_scores_range imp :
  25 ≤ importance_scores imp ≤ 100.
Proof. unfold importance_scores. repeat case_decide; lia. Qed.

Lemma blast_radius_nonneg n : 0 ≤ blast_radius n.
Proof. unfold blast_radius. lia. Qed.
End Scores.

(** X21: the criticality score lies between the importance base score and
    100 (so between 25 and 100); it does not decrease when a node of the
    same importance has more dependents; it is 100 for every critical
    node; from 10 dependents on the fan-in term is at its cap of 50; and
    an importance outside the four known levels scores as medium. *)
Theorem X21_criticality_score_bounds (n : DependencyNode) :
  (25 ≤ importance_scores (importance n) ≤ criticality_score n
   ∧ criticality_score n ≤ 100)
  ∧ (∀ n', importance n' = importance n → blast_radius n ≤ blast_radius n' →
           criticality_score n ≤ criticality_score n')
  ∧ (importance n = "critical" → criticality_score n = 100)
  ∧ (10 ≤ blast_radius n →
     criticality_score n = Z.min (importance_scores (importance n) + 50) 100)
  ∧ (importance n ∉ ["critical"; "high"; "medium"; "low"] →
     importance_scores (importance n) = importance_scores "medium").
Proof.
  pose proof (importance_scores_range (importance n)) as Hbase.
  pose proof (blast_radius_nonneg n) as Hblast.
  split; [unfold criticality_score; lia|].
  split.
  { intros n' Himp Hle. unfold criticality_score. rewrite Himp. lia. }
  split.
  { intros Hcrit. unfold criticality_score. rewrite Hcrit.
    change (importance_scores "critical") with 100. lia. }
  split; [intros Hmany; unfold criticality_score; lia|].
  intros Hunknown. change (importance_scores "medium") with 50.
  unfold importance_scores.
  repeat (destruct (decide _) as [Heq|_];
          [exfalso; apply Hunknown; rewrite Heq;
           repeat first [by left | right]|]).
  done.
Qed.

Lemma X21_criticality_score_bounds_witness :
  let n := mkNode "svc" "critical" [] ["a"; "b"] [] in
  let n' := mkNode "svc" "critical" [] ["a"; "b"; "c"] [] in
  importance n' = importance n ∧ blast_radius n ≤ blast_radius n'
  ∧ criticality_score n ≤ criticality_score n'
  ∧ criticality_score n = 100.
Proof.
  intros n n'.
  destruct (X21_criticality_score_bounds n) as (_ & Hmono & Hcrit & _).
  split; [reflexivity|]. split; [vm_compute; discriminate|].
  split; [apply Hmono; [reflexivity | vm_compute; discriminate] | by apply Hcrit].
Defined.

(** X23: the mitigation text is "Monitor closely" exactly when no check
    fires (fewer than 5 dependents, no BigQuery dependency, not
    critical); for a critical node with 5 or more dependents it always
    starts with the circuit-breaker advice and ends with the
    redundancy/failover advice. *)
Theorem X23_mitigation_checks (node : DependencyNode) :
  (_suggest_mitigation node = "Monitor closely"
   ↔ blast_radius node < 5
     ∧ ("BigQuery" ∉ external_deps node)
     ∧ importance node ≠ "critical")
  ∧ (5 ≤ blast_radius node → importance node = "critical" →
     _suggest_mitigation node
     = if bool_decide ("BigQuery" ∈ external_deps node)
       then "Implement circuit breaker pattern | Add caching layer | Set up redundancy/failover"
       else "Implement circuit breaker pattern | Set up redundancy/failover").
Proof.
  unfold _suggest_mitigation. split.
  - destruct (Z.leb_spec 5 (blast_radius node)) as [Hb|Hb],
             (bool_decide ("BigQuery" ∈ external_deps node)) eqn:Hq,
             (bool_decide (importance node = "critical")) eqn:Hc;
      try apply bool_decide_eq_true in Hq; try apply bool_decide_eq_false in Hq;
      try apply bool_decide_eq_true in Hc; try apply bool_decide_eq_false in Hc;
      simpl; (split; [intros H; try discriminate H | intros (H1 & H2 & H3)]);
      try done; try lia.
  - intros Hb Hc. rewrite (proj2 (Z.leb_le _ _) Hb).
    rewrite (bool_decide_eq_true_2 _ Hc).
    by destruct (bool_decide ("BigQuery" ∈ external_deps node)).
Qed.

Lemma X23_mitigation_checks_witness :
  let node := mkNode "db" "critical" [] ["a"; "b"; "c"; "d"; "e"] ["BigQuery"] in
  5 ≤ blast_radius node ∧ importance node = "critical"
  ∧ _suggest_mitigation node
    = "Implement circuit breaker pattern | Add caching layer | Set up redundancy/failover".
Proof.
  intros node. split; [vm_compute; discriminate|]. split; [reflexivity|].
  apply (proj2 (X23_mitigation_checks node)); [vm_compute; discriminate | reflexivity].
Defined.

(** ** Sorting and the impact report *)

Section Sorting.
Context {A : Type} (key : A → Z).
Implicit Types (x : A) (l : list A).

Lemma insert_desc_perm x l : insert_desc key x l ≡ₚ x :: l.
Proof.
  induction l as [|y l IH]; simpl; [done|].
  destruct (key x <? key y); [|done].
  rewrite IH. apply Permutation_swap.
Qed.

Lemma sorted_desc_perm l : sorted_desc key l ≡ₚ l.
Proof.
  unfold sorted_desc. induction l as [|x l IH]; simpl; [done|].
  by rewrite insert_desc_perm, IH.
Qed.

Lemma insert_desc_sorted x l :
  StronglySorted (λ a b, key b ≤ key a) l →
  StronglySorted (λ a b, key b ≤ key a) (insert_desc key x l).
Proof.
  induction 1 as [|y l Hsorted IH Hall]; simpl.
  - repeat constructor.
  - destruct (Z.ltb_spec (key x) (key y)) as [Hlt|Hge].
    + constructor; [done|].
      rewrite insert_desc_perm. constructor; [lia|done].
    + constructor; [by constructor|].
      constructor; [done|].
      eapply Forall_impl; [exact Hall|]. simpl. intros z Hz. lia.
Qed.

Lemma sorted_desc_sorted l :
  StronglySorted (λ a b, key b ≤ key a) (sorted_desc key l).
Proof.
  unfold sorted_desc. induction l as [|x l IH]; simpl; [constructor|].
  by apply insert_desc_sorted.
Qed.

Lemma insert_desc_stable (k : Z) x l :
  filter (λ a, key a = k) (insert_desc key x l) = filter (λ a, key a = k) (x :: l).
Proof.
  induction l as [|y l IH]; simpl; [done|].
  destruct (Z.ltb_spec (key x) (key y)) as [Hlt|Hge]; [|done].
  rewrite (filter_cons _ y), IH, !(filter_cons _ x), !(filter_cons _ y).
  destruct (decide (key y = k)), (decide (key x = k)); try done. lia.
Qed.

Lemma sorted_desc_stable (k : Z) l :
  filter (λ a, key a = k) (sorted_desc key l) = filter (λ a, key a = k) l.
Proof.
  unfold sorted_desc. induction l as [|x l IH]; simpl; [done|].
  rewrite insert_desc_stable, !filter_cons, IH. done.
Qed.
End Sorting.

Section ImpactReport.
Implicit Types (g : Graph) (items : list (string * DependencyNode)).

Lemma analyze_components_spec g items spofs comps :
  ∃ spofs' comps',
    analyze_components g items spofs comps = Some (spofs ++ spofs', comps ++ comps')
    ∧ Forall2 (describes g) items comps'
    ∧ Forall2 flags
        (filter (λ kv : string * DependencyNode, is_single_point kv.2) items) spofs'.
Proof.
  revert spofs comps.
  induction items as [|[p node] items IH]; intros spofs comps; simpl.
  - exists [], []. by rewrite !app_nil_r.
  - destruct (_calculate_failure_impact_terminates node g) as [impact Himpact].
    rewrite Himpact. simpl.
    destruct (IH (if (5 <=? blast_radius node) && bool_decide (importance node = "critical")
                  then spofs ++ [ {| spof_component := p;
                                     spof_reason := "Critical component with "
                                                    +:+ pretty (blast_radius node)
                                                    +:+ " dependents";
                                     spof_mitigation := _suggest_mitigation node |} ]
                  else spofs)
                 (comps ++ [ {| ci_path := p;
                                ci_importance := importance node;
                                ci_criticality_score := criticality_score node;
                                ci_blast_radius := blast_radius node;
                                ci_direct_dependents := dependents node;
                                ci_external_dependencies := external_deps node;
                                ci_failure_impact := impact |} ]))
      as (spofs' & comps' & Hrun & Hdesc & Hflags).
    rewrite Hrun. rewrite filter_cons.
    destruct (Z.leb_spec 5 (blast_radius node)) as [Hb|Hb],
             (bool_decide (importance node = "critical")) eqn:Hc; simpl;
      try apply bool_decide_eq_true in Hc; try apply bool_decide_eq_false in Hc.
    + rewrite decide_True by done.
      eexists (_ :: spofs'), (_ :: comps'). rewrite <- !app_assoc.
      split; [reflexivity|]. split; constructor; done.
    + rewrite decide_False by (intros [_ ?]; done).
      eexists spofs', (_ :: comps'). rewrite <- !app_assoc.
      split; [reflexivity|]. split; [constructor|]; done.
    + rewrite decide_False by (intros [? _]; lia).
      eexists spofs', (_ :: comps'). rewrite <- !app_assoc.
      split; [reflexivity|]. split; [constructor|]; done.
    + rewrite decide_False by (intros [? _]; lia).
      eexists spofs', (_ :: comps'). rewrite <- !app_assoc.
      split; [reflexivity|]. split; [constructor|]; done.
Qed.

Lemma analyze_impact_spec manifest :
  let graph := _build_dependency_graph manifest in
  let order :=
    sorted_desc (λ kv : string * DependencyNode, criticality_score kv.2)
                (PyDict.items graph) in
  ∃ report,
    analyze_impact manifest = Some report
    ∧ Forall2 (describes graph) order (components report)
    ∧ Forall2 flags
        (filter (λ kv : string * DependencyNode, is_single_point kv.2) order)
        (single_points_of_failure report).
Proof.
  intros graph order. unfold analyze_impact. fold graph. fold order.
  destruct (analyze_components_spec graph order [] [])
    as (spofs & comps & -> & Hdesc & Hflags).
  simpl. rewrite find_critical_paths_nothing by apply build_wf.
  simpl. by eexists.
Qed.

Lemma describes_paths g items comps :
  Forall2 (describes g) items comps → ci_path <$> comps = items.*1.
Proof. induction 1 as [|kv c items comps Hd _ IH]; csimpl; [done|]. destruct Hd as [-> _]. by rewrite IH. Qed.

Lemma describes_scores g items comps :
  Forall2 (describes g) items comps →
  ci_criticality_score <$> comps
  = (λ kv : string * DependencyNode, criticality_score kv.2) <$> items.
Proof.
  induction 1 as [|kv c items comps Hd _ IH]; csimpl; [done|].
  destruct Hd as (_ & _ & -> & _). by rewrite IH.
Qed.

Lemma describes_ties g items comps (k : Z) :
  Forall2 (describes g) items comps →
  ci_path <$> filter (λ c, ci_criticality_score c = k) comps
  = (filter (λ kv : string * DependencyNode, criticality_score kv.2 = k) items).*1.
Proof.
  induction 1 as [|kv c items comps Hd _ IH]; [done|].
  destruct Hd as (Hpath & _ & Hscore & _).
  rewrite !filter_cons, Hscore.
  destruct (decide (criticality_score kv.2 = k)); csimpl; by rewrite ?Hpath, IH.
Qed.

Lemma flags_paths items spofs :
  Forall2 flags items spofs → spof_component <$> spofs = items.*1.
Proof. induction 1 as [|kv c items comps Hd _ IH]; csimpl; [done|]. destruct Hd as [-> _]. by rewrite IH. Qed.

End ImpactReport.

(** X25: the impact report lists every node of the graph exactly once,
    with the criticality scores never increasing down the list and nodes
    of equal score in graph order, and each entry carries the importance,
    score, blast radius, dependents, external dependencies and failure
    impact of the node it names. *)
Theorem X25_report_lists_every_node_once (manifest : Manifest) :
  let graph := _build_dependency_graph manifest in
  ∃ report,
    analyze_impact manifest = Some report
    ∧ ci_path <$> components report ≡ₚ PyDict.keys graph
    ∧ StronglySorted (λ a b, b ≤ a) (ci_criticality_score <$> components report)
    ∧ (∀ k, ci_path <$> filter (λ c, ci_criticality_score c = k) (components report)
            = (filter (λ kv : string * DependencyNode, criticality_score kv.2 = k)
                      (PyDict.items graph)).*1)
    ∧ Forall (λ c, ∃ node, PyDict.get graph (ci_path c) = Some node
                           ∧ describes graph (ci_path c, node) c)
             (components report).
Proof.
  intros graph.
  destruct (analyze_impact_spec manifest) as (report & Hrun & Hdesc & _).
  fold graph in Hdesc. exists report. split; [done|].
  pose proof (sorted_desc_perm (λ kv : string * DependencyNode, criticality_score kv.2)
                (PyDict.items graph)) as Hperm.
  split; [|split; [|split]].
  - rewrite (describes_paths _ _ _ Hdesc). unfold PyDict.keys, PyDict.items in *.
    by rewrite Hperm.
  - rewrite (describes_scores _ _ _ Hdesc).
    apply (StronglySorted_fmap _ (λ a b : string * DependencyNode,
                                    criticality_score b.2 ≤ criticality_score a.2));
      [done|].
    apply sorted_desc_sorted.
  - intros k. rewrite (describes_ties _ _ _ k Hdesc).
    by rewrite (sorted_desc_stable (λ kv : string * DependencyNode, criticality_score kv.2)).
  - eapply Forall2_Forall_r; [exact Hdesc|]. apply Forall_forall.
    intros [p node] Hin c Hd. rewrite Hperm in Hin.
    apply elem_get_wf in Hin; [|apply build_wf].
    destruct Hd as (Hpath & Hrest). simpl in Hpath. rewrite Hpath.
    exists node. split; [done|]. split; done.
Qed.

(** X26: the report flags a path as a single point of failure exactly
    when its node is critical and has 5 or more dependents; every flag
    carries the mitigation text and the dependents count of the node it
    names. *)
Theorem X26_single_points_are_critical_hubs (manifest : Manifest) :
  let graph := _build_dependency_graph manifest in
  ∃ report,
    analyze_impact manifest = Some report
    ∧ (∀ p, p ∈ spof_component <$> single_points_of_failure report
            ↔ ∃ node, PyDict.get graph p = Some node ∧ is_single_point node)
    ∧ Forall (λ s, ∃ node, PyDict.get graph (spof_component s) = Some node
                           ∧ is_single_point node
                           ∧ flags (spof_component s, node) s)
             (single_points_of_failure report).
Proof.
  intros graph.
  destruct (analyze_impact_spec manifest) as (report & Hrun & _ & Hflags).
  fold graph in Hflags. exists report. split; [done|].
  pose proof (sorted_desc_perm (λ kv : string * DependencyNode, criticality_score kv.2)
                (PyDict.items graph)) as Hperm.
  split.
  - intros p. rewrite (flags_paths _ _ Hflags), list_elem_of_fmap. split.
    + intros ([p' node] & -> & Hin). apply list_elem_of_filter in Hin as [Hspof Hin].
      rewrite Hperm in Hin. apply elem_get_wf in Hin; [|apply build_wf].
      by exists node.
    + intros (node & Hget & Hspof). exists (p, node). split; [done|].
      apply list_elem_of_filter. split; [done|].
      rewrite Hperm. by apply get_Some_elem.
  - eapply Forall2_Forall_r; [exact Hflags|]. apply Forall_forall.
    intros [p node] Hin s Hs. apply list_elem_of_filter in Hin as [Hspof Hin].
    rewrite Hperm in Hin. apply elem_get_wf in Hin; [|apply build_wf].
    destruct Hs as (Hpath & Hrest). simpl in Hpath. rewrite Hpath.
    exists node. split; [done|]. split; [done|]. split; done.
Qed.

(** ** Failure impact *)

Section FailureImpact.
Implicit Types (g : Graph) (node : DependencyNode).

Lemma failure_impact_spec node g :
  ∃ visited : gset string,
    (∀ y, y ∈ visited ↔ reachable g (path node) y)
    ∧ _calculate_failure_impact node g
      = Some {| direct_impact := Z.of_nat (length (dependents node));
                total_impact := Z.of_nat (size visited) - 1;
                severity := _impact_severity (Z.of_nat (size visited) - 1)
                                             (importance node) |}.
Proof.
  destruct (bfs_loop_from_start g (path node)) as (visited & Hrun & Hvisited).
  exists visited. split; [done|].
  unfold _calculate_failure_impact. by rewrite Hrun.
Qed.

Lemma reachable_start_visited g start (visited : gset string) :
  (∀ y, y ∈ visited ↔ reachable g start y) → start ∈ visited ∧ (1 ≤ size visited)%nat.
Proof.
  intros Hv. assert (start ∈ visited) as Hs by apply Hv, rtc_refl.
  split; [done|].
  pose proof (subseteq_size {[start]} visited) as Hsize.
  rewrite size_singleton in Hsize. apply Hsize. by apply singleton_subseteq_l.
Qed.

Lemma reachable_build_keys manifest x y :
  reachable (_build_dependency_graph manifest) x y →
  x ∈ PyDict.keys (_build_dependency_graph manifest) →
  y ∈ PyDict.keys (_build_dependency_graph manifest).
Proof.
  induction 1 as [x|x y z (node & Hget & Hy) _ IH]; [done|].
  intros _. apply IH.
  apply (dependents_iff manifest x node y Hget) in Hy as (node_y & Hget_y & _).
  by eapply get_Some_key.
Qed.
End FailureImpact.

(** X27: failure spreads along dependents: if component [y] can be
    reached from [x] over dependents edges, the total impact of [y] is
    at most that of [x], and strictly less when [x] cannot be reached
    back from [y]. *)
Theorem X27_total_impact_grows_upstream
    (graph : Graph) (node_x node_y : DependencyNode) (impact_x impact_y : FailureImpact) :
  reachable graph (path node_x) (path node_y) →
  _calculate_failure_impact node_x graph = Some impact_x →
  _calculate_failure_impact node_y graph = Some impact_y →
  total_impact impact_y ≤ total_impact impact_x
  ∧ (¬ reachable graph (path node_y) (path node_x) →
     total_impact impact_y < total_impact impact_x).
Proof.
  intros Hxy Hx Hy.
  destruct (failure_impact_spec node_x graph) as (vx & Hvx & Hx').
  destruct (failure_impact_spec node_y graph) as (vy & Hvy & Hy').
  rewrite Hx in Hx'. rewrite Hy in Hy'.
  injection Hx' as ->. injection Hy' as ->. simpl.
  assert (vy ⊆ vx) as Hsub.
  { intros z Hz. apply Hvx. eapply rtc_trans; [exact Hxy|]. by apply Hvy. }
  split.
  - apply subseteq_size in Hsub. lia.
  - intros Hback.
    assert (vy ⊂ vx) as Hstrict.
    { apply strict_spec_alt. split; [done|]. intros Heq.
      apply Hback, Hvy. rewrite Heq. apply Hvx, rtc_refl. }
    apply subset_size in Hstrict. lia.
Qed.

Lemma X27_total_impact_grows_upstream_witness :
  let graph := _build_dependency_graph chain_manifest in
  let node_d := mkNode "D" "medium" [] ["C"] [] in
  let node_c := mkNode "C" "medium" ["D"] ["B"] [] in
  reachable graph "D" "C"
  ∧ total_impact <$> _calculate_failure_impact node_d graph = Some 3
  ∧ total_impact <$> _calculate_failure_impact node_c graph = Some 2
  ∧ (2 ≤ 3).
Proof.
  intros graph node_d node_c.
  assert (reachable graph "D" "C") as Hreach.
  { apply rtc_once. exists node_d. split; [reflexivity|]. simpl. by left. }
  split; [exact Hreach|]. split; [reflexivity|]. split; [reflexivity|].
  exact (proj1 (X27_total_impact_grows_upstream graph node_d node_c
                  {| direct_impact := 1; total_impact := 3; severity := LOW |}
                  {| direct_impact := 1; total_impact := 2; severity := LOW |}
                  Hreach eq_refl eq_refl)).
Defined.

(** X28: for a node stored in the graph under its own path, the total
    impact is never negative, it counts at least every distinct direct
    dependent other than the node itself, the direct impact is the blast
    radius, and a node without dependents has total impact 0 and is
    rated SEVERE when critical and LOW otherwise. *)
Theorem X28_total_impact_covers_direct_dependents
    (graph : Graph) (node : DependencyNode) :
  PyDict.get graph (path node) = Some node →
  ∃ impact,
    _calculate_failure_impact node graph = Some impact
    ∧ 0 ≤ total_impact impact
    ∧ Z.of_nat (size (list_to_set (dependents node) ∖ {[path node]} : gset string))
      ≤ total_impact impact
    ∧ direct_impact impact = blast_radius node
    ∧ (dependents node = [] →
       total_impact impact = 0
       ∧ severity impact = if bool_decide (importance node = "critical")
                           then SEVERE else LOW).
Proof.
  intros Hget.
  destruct (failure_impact_spec node graph) as (visited & Hvisited & Hrun).
  destruct (reachable_start_visited _ _ _ Hvisited) as [Hstart Hsize].
  eexists. split; [exact Hrun|]. simpl.
  split; [lia|]. split; [|split; [done|]].
  - assert (list_to_set (dependents node) ∖ {[path node]} ⊆ visited ∖ {[path node]})
      as Hsub.
    { intros y [Hy Hne]%elem_of_difference. apply elem_of_difference. split; [|done].
      apply Hvisited. apply rtc_once. exists node. split; [done|].
      by apply elem_of_list_to_set in Hy. }
    apply subseteq_size in Hsub.
    rewrite (size_difference visited) in Hsub by set_solver.
    rewrite size_singleton in Hsub. lia.
  - intros Hleaf.
    assert (visited = {[path node]}) as ->.
    { apply set_eq. intros y. rewrite Hvisited, elem_of_singleton. split.
      - intros Hreach. apply rtc_inv in Hreach as [->|(z & (n & Hn & Hz) & _)]; [done|].
        rewrite Hget in Hn. injection Hn as <-. rewrite Hleaf in Hz.
        by apply elem_of_nil in Hz.
      - intros ->. apply rtc_refl. }
    rewrite size_singleton. simpl. split; [done|].
    unfold _impact_severity. by destruct (bool_decide (importance node = "critical")).
Qed.

Lemma X28_total_impact_covers_direct_dependents_witness :
  let graph := _build_dependency_graph multi_edge_manifest in
  let node_b := mkNode "B" "medium" [] ["A"; "A"] [] in
  PyDict.get graph (path node_b) = Some node_b
  ∧ ∃ impact,
      _calculate_failure_impact node_b graph = Some impact
      ∧ direct_impact impact = 2
      ∧ total_impact impact = 1.
Proof.
  intros graph node_b. split; [reflexivity|].
  destruct (X28_total_impact_covers_direct_dependents graph node_b eq_refl)
    as (impact & Hrun & _).
  exists impact. split; [exact Hrun|].
  vm_compute in Hrun. injection Hrun as <-. split; reflexivity.
Defined.

(** X29: in a graph built from a manifest, the failure of a node can
    impact at most all the other nodes: the total impact of a node of the
    graph is at most the number of nodes minus one. *)
Theorem X29_total_impact_below_node_count
    (manifest : Manifest) (p : string) (node : DependencyNode) :
  let graph := _build_dependency_graph manifest in
  PyDict.get graph p = Some node →
  ∃ impact,
    _calculate_failure_impact node graph = Some impact
    ∧ total_impact impact ≤ Z.of_nat (length graph) - 1.
Proof.
  intros graph Hget.
  destruct (failure_impact_spec node graph) as (visited & Hvisited & Hrun).
  eexists. split; [exact Hrun|]. simpl.
  assert (path node = p) as Hpath
    by (by apply build_get_inv in Hget as (_ & _ & _ & ? & _)).
  assert (visited ⊆ list_to_set (PyDict.keys graph)) as Hsub.
  { intros y Hy. apply elem_of_list_to_set.
    apply (reachable_build_keys manifest (path node)); [by apply Hvisited|].
    rewrite Hpath. by eapply get_Some_key. }
  apply subseteq_size in Hsub.
  pose proof (size_list_to_set_length (PyDict.keys graph)) as Hlen.
  unfold PyDict.keys in Hlen, Hsub. rewrite length_fmap in Hlen. lia.
Qed.

Lemma X29_total_impact_below_node_count_witness :
  let graph := _build_dependency_graph cycle_manifest in
  let node_x := mkNode "X" "medium" ["Y"] ["Y"] [] in
  PyDict.get graph "X" = Some node_x
  ∧ ∃ impact,
      _calculate_failure_impact node_x graph = Some impact
      ∧ total_impact impact ≤ 1.
Proof.
  intros graph node_x. split; [reflexivity|].
  exact (X29_total_impact_below_node_count cycle_manifest "X" node_x eq_refl).
Defined.

(** ** Dependency chains *)

Section Chains.
Implicit Types (g : Graph) (visited : gset string) (chain : list string).

Lemma longest_fold_None (f : string → option (list string)) deps :
  fold_left (λ acc dep,
               longest ← acc;
               subchain ← f dep;
               Some (if (length longest <? length subchain)%nat
                     then subchain else longest))
            deps None = None.
Proof. induction deps as [|dep deps IH]; simpl; [done | apply IH]. Qed.

(** The loop over the dependencies keeps a longest sub-chain. *)
Lemma longest_fold (f : string → option (list string)) deps acc longest :
  fold_left (λ acc dep,
               longest ← acc;
               subchain ← f dep;
               Some (if (length longest <? length subchain)%nat
                     then subchain else longest))
            deps (Some acc) = Some longest →
  (length acc ≤ length longest)%nat
  ∧ (longest = acc ∨ ∃ dep, dep ∈ deps ∧ f dep = Some longest)
  ∧ (∀ dep, dep ∈ deps →
            ∃ subchain, f dep = Some subchain
                        ∧ (length subchain ≤ length longest)%nat).
Proof.
  revert acc. induction deps as [|dep deps IH]; intros acc; simpl.
  - intros [= ->]. split; [done|]. split; [by left|].
    intros dep Hdep. by apply elem_of_nil in Hdep.
  - destruct (f dep) as [subchain|] eqn:Hf; simpl; [|by rewrite longest_fold_None].
    intros Hrun. apply IH in Hrun as (Hlen & Hfrom & Hall).
    destruct (Nat.ltb_spec (length acc) (length subchain)) as [Hlt|Hge].
    + split; [lia|]. split.
      * destruct Hfrom as [->|(d & Hd & Hfd)]; right.
        -- exists dep. split; [left | done].
        -- exists d. split; [by right | done].
      * intros d [->|Hd]%elem_of_cons; [by exists subchain | by apply Hall].
    + split; [done|]. split.
      * destruct Hfrom as [->|(d & Hd & Hfd)]; [by left|].
        right. exists d. split; [by right | done].
      * intros d [->|Hd]%elem_of_cons; [exists subchain; split; [done|lia] | by apply Hall].
Qed.

Lemma dependency_path_keys g chain :
  dependency_path g chain → Forall (λ x, x ∈ PyDict.keys g) chain.
Proof.
  induction chain as [|x [|y rest] IH]; simpl; [done| |].
  - intros [node Hget]. apply Forall_singleton. by eapply get_Some_key.
  - intros [(node & Hget & _) Hrest]. apply Forall_cons. split; [|by apply IH].
    by eapply get_Some_key.
Qed.

Lemma trace_chain_spec g fuel start visited chain :
  trace_chain fuel start g visited = Some chain →
  (chain = [] ↔ start ∈ visited ∨ PyDict.get g start = None)
  ∧ (chain ≠ [] → simple_chain g start visited chain)
  ∧ (∀ p, simple_chain g start visited p → (length p ≤ length chain)%nat).
Proof.
  revert start visited chain.
  induction fuel as [|fuel IH]; intros start visited chain; [done|].
  simpl. destruct (decide (start ∈ visited)) as [Hin|Hnew].
  { intros [= <-]. split; [by split; [left|]|]. split; [done|].
    intros p (Hhead & _ & Hfree & _). destruct p as [|x p]; [done|].
    injection Hhead as ->. apply Forall_cons in Hfree as [Hx _]. done. }
  destruct (PyDict.get g start) as [node|] eqn:Hget; last first.
  { intros [= <-]. split; [by split; [right|]|]. split; [done|].
    intros p (Hhead & _ & _ & Hpath). destruct p as [|x p]; [done|].
    injection Hhead as ->. apply dependency_path_keys, Forall_cons in Hpath as [Hx _].
    apply get_None_keys in Hget. done. }
  destruct (fold_left _ (dependencies node) (Some [])) as [longest|] eqn:Hfold; [|done].
  simpl. intros [= <-].
  apply (longest_fold (λ dep, trace_chain fuel dep g (visited ∪ {[start]}))) in Hfold
    as (_ & Hfrom & Hall).
  split; [split; [done | intros [?|?]; done]|]. split.
  - intros _.
    assert (simple_chain g start visited [start]) as Hsingle.
    { split; [done|]. split; [apply NoDup_singleton|].
      split; [by apply Forall_singleton | by eexists]. }
    destruct Hfrom as [->|(dep & Hdep & Hsub)]; [done|].
    destruct longest as [|y rest]; [done|].
    apply IH in Hsub as (_ & Hsimple & _).
    destruct Hsimple as (Hhead & Hnd & Hfree & Hpath); [done|].
    injection Hhead as ->.
    split; [done|]. split.
    { apply NoDup_cons. split; [|done]. intros Hstart.
      rewrite Forall_forall in Hfree. apply (Hfree start Hstart).
      apply elem_of_union. right. by apply elem_of_singleton. }
    split.
    { apply Forall_cons. split; [done|].
      eapply Forall_impl; [exact Hfree|]. intros x Hx Hx'. apply Hx.
      apply elem_of_union. by left. }
    split; [by exists node | done].
  - intros p (Hhead & Hnd & Hfree & Hpath).
    destruct p as [|x q]; [done|]. injection Hhead as ->.
    destruct q as [|y q']; [simpl; lia|].
    destruct Hpath as [(node' & Hget' & Hy) Hpath].
    rewrite Hget in Hget'. injection Hget' as <-.
    destruct (Hall y Hy) as (subchain & Hsub & Hlen).
    apply IH in Hsub as (_ & _ & Hmax).
    apply NoDup_cons in Hnd as [Hstart Hnd].
    apply Forall_cons in Hfree as [_ Hfree].
    assert (length (y :: q') ≤ length subchain)%nat as Hq.
    { apply Hmax. split; [done|]. split; [done|]. split; [|done].
      apply Forall_forall. intros z Hz [Hz'|Hz']%elem_of_union.
      - rewrite Forall_forall in Hfree. by apply (Hfree z).
      - apply elem_of_singleton in Hz'. by subst. }
    simpl in *. lia.
Qed.
End Chains.

(** X30: the chain traced from a start node is a longest simple chain:
    it is empty exactly when the start is not a node of the graph;
    otherwise it begins at the start, follows declared dependency edges
    between nodes of the graph and visits no node twice; no chain of
    that kind from the same start is longer; and it has no more
    elements than the graph has nodes (cycles included). *)
Theorem X30_traced_chain_is_longest_simple_chain (graph : Graph) (start : string) :
  ∃ chain,
    _trace_dependency_chain start graph = Some chain
    ∧ (chain = [] ↔ PyDict.get graph start = None)
    ∧ (chain ≠ [] → simple_chain graph start ∅ chain)
    ∧ (∀ p, simple_chain graph start ∅ p → (length p ≤ length chain)%nat)
    ∧ (length chain ≤ length graph)%nat.
Proof.
  destruct (_trace_dependency_chain_terminates graph start) as [chain Hrun].
  exists chain. split; [done|].
  apply trace_chain_spec in Hrun as (Hempty & Hsimple & Hmax).
  split; [|split; [done|split; [done|]]].
  - rewrite Hempty. split; [intros [Hin|?]; [by apply elem_of_empty in Hin | done] | by right].
  - destruct chain as [|x rest]; [simpl; lia|].
    destruct Hsimple as (_ & Hnd & _ & Hpath); [done|].
    apply dependency_path_keys in Hpath.
    assert (length graph = length (PyDict.keys graph)) as ->
      by (unfold PyDict.keys; by rewrite length_fmap).
    apply submseteq_length, NoDup_submseteq; [done|].
    intros y Hy. rewrite Forall_forall in Hpath. by apply Hpath.
Qed.

(** ** Complexity scorer and file complexity *)

Section ComplexityFacts.
Local Open Scope Q_scope.

Lemma capped_contribution_max (count : Z) (scale cap : Q) :
  capped_contribution count scale cap <= cap.
Proof. unfold capped_contribution. apply Q.le_min_r. Qed.

Lemma capped_contribution_mono (count count' : Z) (scale cap : Q) :
  0 < scale → 0 < cap → (count ≤ count')%Z →
  capped_contribution count scale cap <= capped_contribution count' scale cap.
Proof.
  intros Hscale Hcap Hle. unfold capped_contribution.
  apply Q.min_le_compat_r.
  apply Qmult_le_compat_r; [|by apply Qlt_le_weak].
  unfold Qdiv. apply Qmult_le_compat_r.
  - by rewrite <- Zle_Qle.
  - apply Qlt_le_weak. by apply Qinv_lt_0_compat.
Qed.

Lemma capped_contribution_small (count : Z) (scale cap bound : Q) (limit : Z) :
  0 < scale → 0 < cap → (count ≤ limit)%Z →
  inject_Z limit / scale * cap <= bound →
  capped_contribution count scale cap <= bound.
Proof.
  intros Hscale Hcap Hle Hbound. unfold capped_contribution.
  eapply Qle_trans; [apply Q.le_min_l|].
  eapply Qle_trans; [|exact Hbound].
  apply Qmult_le_compat_r; [|by apply Qlt_le_weak].
  unfold Qdiv. apply Qmult_le_compat_r.
  - by rewrite <- Zle_Qle.
  - apply Qlt_le_weak. by apply Qinv_lt_0_compat.
Qed.

Lemma score_unfold (lines functions classes imports : Z) :
  _calculate_complexity_score lines functions classes imports
  = Qmin (capped_contribution lines 1000 50 + capped_contribution functions 30 20
          + capped_contribution classes 50 20 + capped_contribution imports 20 10)
         100.
Proof. done. Qed.

Lemma score_is_sum (lines functions classes imports : Z) :
  _calculate_complexity_score lines functions classes imports
  == capped_contribution lines 1000 50 + capped_contribution functions 30 20
     + capped_contribution classes 50 20 + capped_contribution imports 20 10.
Proof.
  rewrite score_unfold. apply Q.min_l.
  pose proof (capped_contribution_max lines 1000 50).
  pose proof (capped_contribution_max functions 30 20).
  pose proof (capped_contribution_max classes 50 20).
  pose proof (capped_contribution_max imports 20 10).
  lra.
Qed.

Lemma score_mono (l l' f f' c c' i i' : Z) :
  (l ≤ l')%Z → (f ≤ f')%Z → (c ≤ c')%Z → (i ≤ i')%Z →
  _calculate_complexity_score l f c i <= _calculate_complexity_score l' f' c' i'.
Proof.
  intros Hl Hf Hc Hi. rewrite !score_is_sum.
  pose proof (capped_contribution_mono l l' 1000 50 eq_refl eq_refl Hl).
  pose proof (capped_contribution_mono f f' 30 20 eq_refl eq_refl Hf).
  pose proof (capped_contribution_mono c c' 50 20 eq_refl eq_refl Hc).
  pose proof (capped_contribution_mono i i' 20 10 eq_refl eq_refl Hi).
  lra.
Qed.

Lemma score_full (l f c i : Z) :
  _calculate_complexity_score l f c i == 100
  ↔ (1000 ≤ l ∧ 30 ≤ f ∧ 50 ≤ c ∧ 20 ≤ i)%Z.
Proof.
  rewrite score_is_sum.
  rewrite (Zle_Qle 1000 l), (Zle_Qle 30 f), (Zle_Qle 50 c), (Zle_Qle 20 i).
  rewrite <- (capped_contribution_full l 1000 50) by done.
  rewrite <- (capped_contribution_full f 30 20) by done.
  rewrite <- (capped_contribution_full c 50 20) by done.
  rewrite <- (capped_contribution_full i 20 10) by done.
  pose proof (capped_contribution_max l 1000 50).
  pose proof (capped_contribution_max f 30 20).
  pose proof (capped_contribution_max c 50 20).
  pose proof (capped_contribution_max i 20 10).
  split.
  - intros Hsum. repeat split; lra.
  - intros (Hl & Hf & Hc & Hi). lra.
Qed.

Lemma score_of_short_document (l f c i : Z) :
  (l ≤ 400)%Z → _calculate_complexity_score l f c i <= 70.
Proof.
  intros Hl. rewrite score_is_sum.
  pose proof (capped_contribution_small l 1000 50 20 400 eq_refl eq_refl Hl
                ltac:(by apply Qle_bool_iff)).
  pose proof (capped_contribution_max f 30 20).
  pose proof (capped_contribution_max c 50 20).
  pose proof (capped_contribution_max i 20 10).
  lra.
Qed.
End ComplexityFacts.

(** X2: the complexity score never decreases when a count grows, and it
    reaches 100 exactly when all four counts are at their saturation
    points (1000 lines, 30 function-like blocks, 50 headers, 20 import
    statements) or beyond. *)
Theorem X2_complexity_score_monotone (l l' f f' c c' i i' : Z) :
  (l ≤ l' → f ≤ f' → c ≤ c' → i ≤ i' →
   (_calculate_complexity_score l f c i <= _calculate_complexity_score l' f' c' i')%Q)
  ∧ ((_calculate_complexity_score l f c i == 100)%Q
     ↔ 1000 ≤ l ∧ 30 ≤ f ∧ 50 ≤ c ∧ 20 ≤ i).
Proof. split; [apply score_mono | apply score_full]. Qed.

Lemma X2_complexity_score_monotone_witness :
  100 ≤ 1200 ∧ 0 ≤ 3
  ∧ (_calculate_complexity_score 100 0 0 0 <= _calculate_complexity_score 1200 3 0 0)%Q.
Proof.
  split; [lia|]. split; [lia|].
  apply (proj1 (X2_complexity_score_monotone 100 1200 0 3 0 0 0 0)); lia.
Defined.

(** X22: a document of at most 400 lines never has a complexity score
    above 70, so for it the refactoring flag is raised by the function
    count alone; above 500 lines the flag is always raised. *)
Theorem X22_refactoring_flag_of_short_documents (m : ComplexityMetrics) :
  (complexity_score m
   == _calculate_complexity_score (line_count m) (function_count m)
                                  (class_count m) (import_count m))%Q →
  (line_count m ≤ 400 →
   (complexity_score m <= 70)%Q
   ∧ needs_refactoring m = bool_decide (30 < function_count m))
  ∧ (500 < line_count m → needs_refactoring m = true).
Proof.
  intros Hscore. unfold needs_refactoring. split.
  - intros Hshort.
    assert (complexity_score m <= 70)%Q as Hle
      by (rewrite Hscore; by apply score_of_short_document).
    split; [done|].
    rewrite (proj2 (Qle_bool_iff _ _) Hle). simpl.
    destruct (Z.ltb_spec 500 (line_count m)); [lia|]. simpl.
    destruct (Z.ltb_spec 30 (function_count m)).
    + by rewrite bool_decide_eq_true_2.
    + by rewrite bool_decide_eq_false_2 by lia.
  - intros Hlong. by rewrite (proj2 (Z.ltb_lt _ _) Hlong).
Qed.

Lemma X22_refactoring_flag_of_short_documents_witness :
  let m := mkComplexityMetrics "notes.md" 300 31 40 15
             (_calculate_complexity_score 300 31 40 15) in
  line_count m ≤ 400
  ∧ (complexity_score m <= 70)%Q
  ∧ needs_refactoring m = true.
Proof.
  intros m.
  assert (line_count m ≤ 400) as Hshort by (vm_compute; discriminate).
  destruct (proj1 (X22_refactoring_flag_of_short_documents m (Qeq_refl _)) Hshort)
    as [Hle Hflag].
  split; [exact Hshort|]. split; [exact Hle | exact Hflag].
Defined.

Section FileComplexity.
Implicit Types (s : string).

Lemma count_newlines_take_drop n s :
  count_newlines s
  = (count_newlines (str_take n s) + count_newlines (str_drop n s))%nat.
Proof.
  revert s. induction n as [|n IH]; intros [|c s]; simpl; try done.
  rewrite (IH s). by destruct (is_LF c).
Qed.

(** A pattern anchored at line starts matches at most once per line. *)
Lemma count_matches_anchored matcher s at_line_start skip :
  (count_matches matcher true s at_line_start skip
   ≤ (if at_line_start then 1 else 0) + count_newlines s)%nat.
Proof.
  revert at_line_start skip. induction s as [|c s IH]; intros at_line_start skip; simpl.
  - lia.
  - destruct skip as [|k].
    + destruct at_line_start; simpl.
      * destruct (matcher (String c s)) as [len|].
        -- specialize (IH (is_LF c) (len - 1)%nat). destruct (is_LF c); lia.
        -- specialize (IH (is_LF c) O). destruct (is_LF c); lia.
      * specialize (IH (is_LF c) O). destruct (is_LF c); lia.
    + specialize (IH (is_LF c) k). destruct (is_LF c), at_line_start; lia.
Qed.

(** A function match spans the newline after its language tag. *)
Lemma match_function_newline s len :
  match_function s = Some len → (1 ≤ count_newlines (str_take len s))%nat.
Proof.
  unfold match_function. destruct (String.prefix "```" s); [|done].
  set (w := word_run_length (str_drop 3 s)).
  destruct (1 <=? w)%nat; [|done].
  destruct (str_drop w (str_drop 3 s)) as [|c rest] eqn:Hrest; [done|].
  destruct (is_LF c) eqn:Hc; [|done].
  destruct (find_def rest) as [[j n]|]; [|done].
  simpl. intros Hsome. injection Hsome as Hlen.
  assert (len = (3 + (w + (1 + (j + n))))%nat) as -> by lia.
  rewrite !count_newlines_take_add, Hrest.
  cbn [str_take str_drop count_newlines Nat.add]. rewrite Hc. lia.
Qed.

(** Function matches do not overlap and each spans a newline. *)
Lemma count_functions_bound s at_line_start skip :
  (count_matches match_function false s at_line_start skip
   ≤ count_newlines (str_drop skip s))%nat.
Proof.
  revert at_line_start skip. induction s as [|c s IH]; intros at_line_start skip.
  - simpl. lia.
  - cbn [count_matches]. destruct skip as [|k]; [|apply IH].
    cbn [negb orb str_drop].
    destruct (match_function (String c s)) as [len|] eqn:Hmatch.
    + apply match_function_newline in Hmatch.
      destruct len as [|len]; [simpl in Hmatch; lia|].
      replace (S len - 1)%nat with len by lia.
      specialize (IH (is_LF c) len).
      rewrite (count_newlines_take_drop (S len) (String c s)).
      cbn [str_drop]. lia.
    + specialize (IH (is_LF c) O). cbn [str_drop] in IH.
      assert (count_newlines s ≤ count_newlines (String c s))%nat
        by (simpl; destruct (is_LF c); lia).
      destruct s; simpl in *; lia.
Qed.

Lemma str_drop_0 s : str_drop 0 s = s.
Proof. by destruct s. Qed.

Lemma _analyze_file_complexity_valid file_path content :
  ∃ m, _analyze_file_complexity file_path (Some content) = Some m
       ∧ valid_metrics file_path content m.
Proof.
  eexists. split; [reflexivity|].
  pose proof (count_lines_newlines content) as Hlines.
  pose proof (count_functions_bound content true O) as Hf.
  rewrite str_drop_0 in Hf.
  pose proof (count_matches_anchored match_heading content true O) as Hc.
  pose proof (count_matches_anchored match_import content true O) as Hi.
  cbn [Nat.add] in Hc, Hi.
  unfold valid_metrics. cbn [cm_file_path line_count function_count class_count
                              import_count complexity_score].
  split; [done|]. split; [done|]. split; [lia|]. split; [lia|].
  split; [lia|]. split; [lia|]. split; [done|].
  set (l := count_lines content).
  set (f := Z.of_nat (count_matches match_function false content true 0)).
  set (c := Z.of_nat (count_matches match_heading true content true 0)).
  set (i := Z.of_nat (count_matches match_import true content true 0)).
  pose proof (score_is_sum l f c i) as Hsum.
  pose proof (capped_contribution_bounds l 1000 50 ltac:(unfold l; lia) eq_refl eq_refl).
  pose proof (capped_contribution_bounds f 30 20 ltac:(unfold f; lia) eq_refl eq_refl).
  pose proof (capped_contribution_bounds c 50 20 ltac:(unfold c; lia) eq_refl eq_refl).
  pose proof (capped_contribution_bounds i 20 10 ltac:(unfold i; lia) eq_refl eq_refl).
  rewrite Hsum. lra.
Qed.
End FileComplexity.

Section SortingQ.
Context {A : Type} (key : A → Q).
Implicit Types (x : A) (l : list A).

Lemma insert_desc_Q_perm x l : insert_desc_Q key x l ≡ₚ x :: l.
Proof.
  induction l as [|y l IH]; simpl; [done|].
  destruct (Qle_bool (key y) (key x)); [done|].
  rewrite IH. apply Permutation_swap.
Qed.

Lemma sorted_desc_Q_perm l : sorted_desc_Q key l ≡ₚ l.
Proof.
  unfold sorted_desc_Q. induction l as [|x l IH]; simpl; [done|].
  by rewrite insert_desc_Q_perm, IH.
Qed.

Lemma insert_desc_Q_sorted x l :
  StronglySorted (λ a b, (key b <= key a)%Q) l →
  StronglySorted (λ a b, (key b <= key a)%Q) (insert_desc_Q key x l).
Proof.
  induction 1 as [|y l Hsorted IH Hall]; simpl.
  - repeat constructor.
  - destruct (Qle_bool (key y) (key x)) eqn:Hle.
    + apply Qle_bool_iff in Hle.
      constructor; [by constructor|]. constructor; [done|].
      eapply Forall_impl; [exact Hall|]. simpl. intros z Hz. by eapply Qle_trans.
    + assert (key x <= key y)%Q as Hlt.
      { destruct (Qlt_le_dec (key x) (key y)) as [?|Hge]; [by apply Qlt_le_weak|].
        apply Qle_bool_iff in Hge. congruence. }
      constructor; [done|]. rewrite insert_desc_Q_perm. by constructor.
Qed.

Lemma sorted_desc_Q_sorted l :
  StronglySorted (λ a b, (key b <= key a)%Q) (sorted_desc_Q key l).
Proof.
  unfold sorted_desc_Q. induction l as [|x l IH]; simpl; [constructor|].
  by apply insert_desc_Q_sorted.
Qed.
End SortingQ.

Section ScoreComplexity.
Implicit Types (corpus : list (string * option string)).

Lemma analyzed_paths corpus :
  cm_file_path
    <$> omap (λ '(file_path, file), _analyze_file_complexity file_path file) corpus
  = (filter (λ d : string * option string, is_Some d.2) corpus).*1.
Proof.
  induction corpus as [|[file_path [content|]] corpus IH]; [done| |].
  - rewrite filter_cons_True by (by eexists). csimpl. by rewrite IH.
  - rewrite filter_cons_False by (simpl; by intros [? ?]). csimpl. done.
Qed.

Lemma analyzed_valid corpus :
  Forall (λ m, ∃ content, (cm_file_path m, Some content) ∈ corpus
                          ∧ valid_metrics (cm_file_path m) content m)
         (omap (λ '(file_path, file), _analyze_file_complexity file_path file) corpus).
Proof.
  induction corpus as [|[file_path [content|]] corpus IH]; csimpl; [done| |].
  - apply Forall_cons. split.
    + exists content. split; [left|].
      destruct (_analyze_file_complexity_valid file_path content) as (m & Hm & Hvalid).
      by injection Hm as <-.
    + eapply Forall_impl; [exact IH|]. intros m (c & Hin & Hvalid).
      exists c. split; [by right | done].
  - eapply Forall_impl; [exact IH|]. intros m (c & Hin & Hvalid).
    exists c. split; [by right | done].
Qed.
End ScoreComplexity.

(** X24: the complexity report holds one record per readable document,
    sorted by complexity score, highest first; every record carries the
    path of its document, a line count of at least 1, a function count
    of at most the number of newlines, header and import counts of at
    most the number of lines, and the score computed from these counts,
    between 0 and 100. *)
Theorem X24_complexity_report_is_sound (corpus : list (string * option string)) :
  cm_file_path <$> score_complexity corpus
  ≡ₚ (filter (λ d : string * option string, is_Some d.2) corpus).*1
  ∧ StronglySorted (λ a b, (complexity_score b <= complexity_score a)%Q)
                   (score_complexity corpus)
  ∧ Forall (λ m, ∃ content, (cm_file_path m, Some content) ∈ corpus
                            ∧ valid_metrics (cm_file_path m) content m)
           (score_complexity corpus).
Proof.
  unfold score_complexity.
  pose proof (sorted_desc_Q_perm complexity_score
                (omap (λ '(file_path, file), _analyze_file_complexity file_path file)
                      corpus)) as Hperm.
  split; [|split].
  - rewrite Hperm. by rewrite analyzed_paths.
  - apply sorted_desc_Q_sorted.
  - rewrite Hperm. apply analyzed_valid.
Qed.
